(** * Deep-research engine: a shallow embedding of the orchestration core

    The development follows the TypeScript sources of the repository:
    - [src/ai/text-splitter.ts]  (RecursiveCharacterTextSplitter,
                                  SemanticTextSplitter, TiktokenTextSplitter)
    - [src/ai/providers.ts]      (SemanticTextSplitter with embeddings,
                                  semanticChunking, runWithConcurrency,
                                  generateBatch, trimPrompt, extractCitations)
    - [src/feedback.ts]          (generateFeedback and its repair pass,
                                  analyzePastFeedback)
    - [src/progress-manager.ts]  (ProgressManager: updateProgress and
                                  drawProgressBar)
    - [src/deep-research.ts]     (generateSerpQueries, deepResearch,
                                  processGeminiResponse, conductResearch,
                                  writeFinalReport)
    - [src/utils/json.ts]        (extractJsonFromText, safeParseJSON)
    - [src/utils/sanitize.ts]    (sanitizeReportContent)

    Conventions.  JS numbers that the code uses as counters, sizes and
    indices are integers here ([Z], or [nat] for lengths); the numbers
    that the progress display divides and rounds are IEEE 754 doubles
    ([SpecFloat] at 53 bits), and the progress records it is handed are
    references to the caller's objects; JS strings are
    [string]s whose characters stand for UTF-16 code units below 256;
    a promise that rejects, or a call that throws, is a [None] or an
    explicit error value; external capabilities (the generative model,
    the embedding service, JSON and schema parsing) are section variables
    or fields of a class of collaborators.  Arrays that the code shares
    and updates in place live in a heap of string arrays.  The pool of
    [runWithConcurrency] is a transition system whose workers settle in
    any order; the workers of a round of [deepResearch] are run in the
    order of their queries, the progress record passing from one to
    the next, and [pLimit] is taken to accept the configured limit. *)

From Stdlib Require Import ZArith List String Ascii Bool Lia QArith.
From Stdlib Require Import DecimalString DecimalZ DecimalN.
From Stdlib Require SpecFloat.
From stdpp Require Import prelude strings gmap.

Local Open Scope Z_scope.

(* ===================================================================== *)
(** ** JavaScript string primitives *)
(* ===================================================================== *)

Module Js.

(** The characters that [String.prototype.trim] strips and that the
    regular-expression class [\s] matches (restricted to code units
    below 256): TAB, LF, VT, FF, CR, SPACE and NBSP. *)
Definition is_space (c : ascii) : bool :=
  let n := nat_of_ascii c in
  ((9 <=? n)%nat && (n <=? 13)%nat) || (n =? 32)%nat || (n =? 160)%nat.

(** Truthiness of a string: [Boolean(s)], [if (s)], [!s]. *)
Definition truthy (s : string) : bool :=
  match s with EmptyString => false | String _ _ => true end.

Fixpoint trimStart (s : string) : string :=
  match s with
  | EmptyString => EmptyString
  | String c r => if is_space c then trimStart r else s
  end.

Fixpoint trimEnd (s : string) : string :=
  match s with
  | EmptyString => EmptyString
  | String c r =>
      let r' := trimEnd r in
      if is_space c && negb (truthy r') then EmptyString else String c r'
  end.

Definition trim (s : string) : string := trimEnd (trimStart s).

(** [s.replace(/\s+/g, ' ')]: every maximal run of white space becomes
    one SPACE.  [inrun] tells that the previous character was white
    space, so the current run has already been replaced. *)
Fixpoint collapse_from (inrun : bool) (s : string) : string :=
  match s with
  | EmptyString => EmptyString
  | String c r =>
      if is_space c
      then (if inrun then collapse_from true r
            else String " "%char (collapse_from true r))
      else String c (collapse_from false r)
  end.

Definition collapse (s : string) : string := collapse_from false s.

(** [s.split(sep)] for a non-empty separator: the pieces between the
    non-overlapping occurrences of [sep], found from the left.  [skip]
    counts the characters of a matched separator still to be dropped. *)
Fixpoint split_from (sep : string) (skip : nat) (s : string) : list string :=
  match s with
  | EmptyString => [EmptyString]
  | String c r =>
      match skip with
      | S k => split_from sep k r
      | O =>
          if String.prefix sep s
          then EmptyString :: split_from sep (String.length sep - 1) r
          else match split_from sep 0 r with
               | p :: ps => String c p :: ps
               | [] => [String c EmptyString]
               end
      end
  end.

Definition split (sep s : string) : list string := split_from sep 0 s.

(** [s.slice(start, end)] with integer arguments: negative indices count
    from the end, both are clamped to [0, length]. *)
Definition rel_index (len i : Z) : Z :=
  if i <? 0 then Z.max (len + i) 0 else Z.min i len.

Definition slice (s : string) (start stop : Z) : string :=
  let len := Z.of_nat (String.length s) in
  let from := rel_index len start in
  let to := rel_index len stop in
  String.substring (Z.to_nat from) (Z.to_nat (Z.max (to - from) 0)) s.

(** [xs.join(sep)] *)
Fixpoint join (sep : string) (xs : list string) : string :=
  match xs with
  | [] => EmptyString
  | [x] => x
  | x :: rest => x +:+ sep +:+ join sep rest
  end.

(** [s.includes(sub)] *)
Fixpoint includes (sub s : string) : bool :=
  String.prefix sub s ||
  match s with
  | EmptyString => false
  | String _ r => includes sub r
  end.

(** [s.charCodeAt(0)]: the first code unit, [None] standing for NaN on
    the empty string. *)
Definition charCodeAt0 (s : string) : option Z :=
  match s with
  | EmptyString => None
  | String c _ => Some (Z.of_nat (nat_of_ascii c))
  end.

(** [Math.ceil(n / d)] for integers and a positive divisor. *)
Definition ceil_div (n d : Z) : Z := - ((- n) / d).

End Js.

(* ===================================================================== *)
(** ** src/ai/text-splitter.ts: RecursiveCharacterTextSplitter *)
(* ===================================================================== *)

Module Splitter.
Import Js.

Record TextSplitterParams := {
  chunkSize : Z;
  chunkOverlap : Z;
  separators : list string
}.

Definition nl : string := String (ascii_of_nat 10) EmptyString.

(** ['\n\n', '\n', '. ', '.', ', ', ',', ' ', ''] *)
Definition default_separators : list string :=
  [nl +:+ nl; nl; ". "; "."; ", "; ","; " "; EmptyString].

(** The constructor: defaults for the missing parameters, and the
    exception [Cannot have chunkOverlap >= chunkSize] as [None]. *)
Definition new (size overlap : option Z) (seps : option (list string))
  : option TextSplitterParams :=
  let cs := default 50 size in
  let co := default 10 overlap in
  let ss := default default_separators seps in
  if co >=? cs then None
  else Some {| chunkSize := cs; chunkOverlap := co; separators := ss |}.

Definition strlen (s : string) : Z := Z.of_nat (String.length s).

(** The hard cut with overlap, used when no separator remains:
    [for (let i = 0; i < trimmed.length; i += step)].  As [step >= 1]
    the loop runs at most [trimmed.length] times, which is the fuel. *)
Fixpoint hardCut (fuel : nat) (target step : Z) (trimmed : string) (i : Z)
  : list string :=
  match fuel with
  | O => []
  | S f =>
      if i <? strlen trimmed then
        let piece := trim (slice trimmed i (Z.min (i + target) (strlen trimmed))) in
        (if truthy piece then [piece] else [])
          ++ hardCut f target step trimmed (i + step)
      else []
  end.

(** One turn of [for (const part of parts)]: the chunks pushed so far
    and the buffer.  [deeper] is [splitRecursive(_, sepIdx + 1)]. *)
Definition merge_part (target : Z) (deeper : string -> list string)
    (st : list string * string) (part : string) : list string * string :=
  let '(chunks, buffer) := st in
  let candidate :=
    if truthy buffer then trim (buffer +:+ " " +:+ part) else part in
  if strlen candidate <=? target then (chunks, candidate)
  else
    let chunks := if truthy buffer then chunks ++ [buffer] else chunks in
    if strlen part >? target
    then (chunks ++ deeper part, EmptyString)
    else (chunks, part).

(** [splitRecursive(t, sepIdx)], by recursion on the separators that
    remain from [sepIdx] on; the result is what the call pushes on
    [chunks], in order. *)
Fixpoint splitRecursive_from (target step : Z) (seps : list string)
    (t : string) : list string :=
  let trimmed := trim t in
  if negb (truthy trimmed) then []
  else if strlen trimmed <=? target then [trimmed]
  else
    match seps with
    | [] => hardCut (String.length trimmed) target step trimmed 0
    | sep :: rest =>
        if negb (truthy sep)
        then hardCut (String.length trimmed) target step trimmed 0
        else
          let parts := filter (fun p => truthy p = true)
                         (map trim (split sep trimmed)) in
          let '(chunks, buffer) :=
            fold_left (merge_part target (splitRecursive_from target step rest))
                      parts ([], EmptyString) in
          if truthy buffer then chunks ++ [buffer] else chunks
    end.

Definition splitRecursive (sp : TextSplitterParams) (t : string)
    (sepIdx : nat) : list string :=
  splitRecursive_from (chunkSize sp)
    (Z.max 1 (chunkSize sp - chunkOverlap sp))
    (drop sepIdx (separators sp)) t.

(** [c.replace(/\s+/g, ' ').trim()] *)
Definition normalize (c : string) : string := trim (collapse c).

Definition splitText (sp : TextSplitterParams) (text : string) : list string :=
  if negb (truthy text) then []
  else filter (fun c => truthy c = true)
         (map normalize (splitRecursive sp text 0)).

(** A chunk the splitter may push: non-empty and within the target. *)
Definition fits (target : Z) (c : string) : Prop :=
  strlen c <= target /\ truthy c = true.

(** The loop invariant of [for (const part of parts)]. *)
Definition merge_inv (target : Z) (st : list string * string) : Prop :=
  Forall (fits target) st.1 /\ strlen st.2 <= target.

End Splitter.

(* ===================================================================== *)
(** ** src/ai/providers.ts: SemanticTextSplitter and semanticChunking *)
(* ===================================================================== *)

Module Semantic.
Import Js.

(** [interface TextSplitter]: an asynchronous [splitText] whose promise
    may reject ([None]), and a [chunkSize]. *)
Class TextSplitter (S : Type) := {
  splitTextOf : S -> string -> option (list string);
  chunkSizeOf : S -> Z
}.

(** [text.replace(/\r\n?/g, '\n')] *)
Fixpoint normalize_newlines (s : string) : string :=
  match s with
  | EmptyString => EmptyString
  | String c r =>
      if (nat_of_ascii c =? 13)%nat then
        match r with
        | String d r' =>
            if (nat_of_ascii d =? 10)%nat
            then String (ascii_of_nat 10) (normalize_newlines r')
            else String (ascii_of_nat 10) (normalize_newlines r)
        | EmptyString => String (ascii_of_nat 10) EmptyString
        end
      else String c (normalize_newlines r)
  end.

Definition is_terminator (c : ascii) : bool :=
  let n := nat_of_ascii c in
  (n =? 46)%nat || (n =? 33)%nat || (n =? 63)%nat.

(** [s.split(/(?<=[.!?])\s+/g)]: a cut is a maximal run of white space
    that starts right after one of [.!?].  [after] tells that the
    previous character was such a terminator, [inrun] that a cut is
    being consumed. *)
Fixpoint split_sentences_from (after inrun : bool) (s : string) : list string :=
  match s with
  | EmptyString => [EmptyString]
  | String c r =>
      if is_space c && inrun then split_sentences_from false true r
      else if is_space c && after
      then EmptyString :: split_sentences_from false true r
      else match split_sentences_from (is_terminator c) false r with
           | p :: ps => String c p :: ps
           | [] => [String c EmptyString]
           end
  end.

Definition split_sentences (s : string) : list string :=
  split_sentences_from false false s.

(** [private clean(s) { return s.replace(/\s+/g, ' ').trim(); }] *)
Definition clean (s : string) : string := trim (collapse s).

(** The sentences [splitText] works on. *)
Definition sentences_of (text : string) : list string :=
  filter (fun s => truthy s = true)
         (map clean (split_sentences (normalize_newlines text))).

Definition TextProcessingConfig_MIN_CHUNK_SIZE : Z := 140.
Definition TextProcessingConfig_CHUNK_OVERLAP : Z := 20.

Record SemanticTextSplitter := {
  chunkSize : Z;
  chunkOverlap : Z
}.

Section WithEmbeddings.
(** The embedding capability: [generateTextEmbedding] rejects ([None])
    or yields a vector; components are idealised as rationals. *)
Variable generateTextEmbedding : string -> option (list Q).
(** [cosineSimilarity] of the package [ai], which throws ([None]) on
    vectors of different lengths. *)
Variable cosineSimilarity : list Q -> list Q -> option Q.
(** [tokenCount]: the tokenizer's count, or its fallback. *)
Variable tokenCount : string -> Z.

Variable self : SemanticTextSplitter.

(** [centroid.map((v, k) => (v + nextEmb[k]) / 2)], applied only when
    both vectors have the same positive length. *)
Definition average (centroid nextEmb : list Q) : list Q :=
  zip_with (fun v w => (v + w) / 2)%Q centroid nextEmb.

Definition update_centroid (centroid nextEmb : list Q) : list Q :=
  if (0 <? length centroid)%nat && (0 <? length nextEmb)%nat
     && (length centroid =? length nextEmb)%nat
  then average centroid nextEmb else centroid.

Section Grouping.
Variable sentences : list string.
Variable embs : list (list Q).

(** The inner [while (i < sentences.length)]: grows [current] and
    returns it with the index of the first sentence not merged; [None]
    when [cosineSimilarity] throws. *)
Fixpoint grow (fuel : nat) (i : nat) (current : string)
    (centroid : list Q) : option (string * nat) :=
  match fuel with
  | O => Some (current, i)
  | S f =>
      match sentences !! i with
      | None => Some (current, i)
      | Some next =>
          if negb (truthy next) then Some (current, i)
          else
            let nextEmb := default [] (embs !! i) in
            sim ← (if (0 <? length centroid)%nat && (0 <? length nextEmb)%nat
                   then cosineSimilarity centroid nextEmb else Some 0%Q);
            let merged := trim (current +:+ " " +:+ next) in
            let withinBudget := tokenCount merged <=? chunkSize self in
            if withinBudget && Qle_bool (65 # 100) sim
            then grow f (S i) merged (update_centroid centroid nextEmb)
            else Some (current, i)
      end
  end.

(** The outer [while (i < sentences.length)]; every turn starts at
    a larger index, so [sentences.length] turns suffice. *)
Fixpoint group (fuel : nat) (i : nat) : option (list string) :=
  match fuel with
  | O => Some []
  | S f =>
      match sentences !! i with
      | None => Some []
      | Some first =>
          if negb (truthy first) then Some []
          else
            '(current, j) ← grow (length sentences) (S i) first
                              (default [] (embs !! i));
            let j' :=
              if (j <? length sentences)%nat && (0 <? chunkOverlap self)
              then Nat.max (S i) (j - 1) else j in
            chunks ← group f j';
            Some (current :: chunks)
      end
  end.
End Grouping.

(** [async splitText(text)]: [None] when the returned promise rejects,
    which happens when an embedding request rejects, when
    [cosineSimilarity] throws, or when the fallback splitter cannot be
    constructed. *)
Definition splitText (text : string) : option (list string) :=
  if negb (truthy (trim text)) then Some []
  else
    let normalized := normalize_newlines text in
    let sentences := sentences_of text in
    if (length sentences <=? 1)%nat then
      rc ← Splitter.new (Some (chunkSize self)) (Some (chunkOverlap self)) None;
      Some (Splitter.splitText rc normalized)
    else
      embs ← mapM generateTextEmbedding sentences;
      chunks ← group sentences embs (length sentences) 0;
      Some (filter (fun c => truthy c = true) (map clean chunks)).
End WithEmbeddings.

(** [class SemanticTextSplitter implements TextSplitter] *)
Definition SemanticTextSplitter_TextSplitter
    (generateTextEmbedding : string -> option (list Q))
    (cosineSimilarity : list Q -> list Q -> option Q) (tokenCount : string -> Z)
  : TextSplitter SemanticTextSplitter :=
  {| splitTextOf := splitText generateTextEmbedding cosineSimilarity tokenCount;
     chunkSizeOf := chunkSize |}.

(** [getChunkSize()]: the environment's CHUNK_SIZE when set. *)
Definition getChunkSize (env_CHUNK_SIZE : option Z) : Z :=
  default TextProcessingConfig_MIN_CHUNK_SIZE env_CHUNK_SIZE.

(** [semanticChunking(text, splitterOpt)], for the splitter in effect:
    [try { return await effectiveSplitter.splitText(text) }
     catch (error) { return [text] }]. *)
Definition semanticChunking {S} `{TextSplitter S} (effectiveSplitter : S)
    (text : string) : list string :=
  match splitTextOf effectiveSplitter text with
  | Some chunks => chunks
  | None => [text]
  end.

(** The splitter [semanticChunking] builds when none is passed. *)
Definition default_splitter (env_CHUNK_SIZE : option Z) : SemanticTextSplitter :=
  {| chunkSize := getChunkSize env_CHUNK_SIZE;
     chunkOverlap := TextProcessingConfig_CHUNK_OVERLAP |}.

(** An embedding capability that is down, for the examples. *)
Definition failing_embedding (_ : string) : option (list Q) := None.
Definition no_similarity (_ _ : list Q) : option Q := Some 0%Q.
Definition char_count (s : string) : Z := Z.of_nat (String.length s).

End Semantic.

(* ===================================================================== *)
(** ** src/ai/providers.ts: runWithConcurrency *)
(* ===================================================================== *)

Module Pool.

Section RunWithConcurrency.
Context {T R E : Type}.

(** [items[i] === undefined] is an item [None]. *)
Variable items : list (option T).
Variable limit : Z.
(** How the promise [worker(item, i)] settles: [inl e] rejects with
    [e], [inr r] fulfils with [r]. *)
Variable worker : T -> nat -> E + R.

(** The promise returned by [runWithConcurrency]. *)
Inductive promise :=
| Pending
| Resolved (value : list (option R))
| Rejected (reason : E).

(** The variables of the closure, the promise, and the indices of
    the workers that were started and have not settled yet.
    [results] is [new Array<R>(items.length)]: a hole is [None]. *)
Record state := {
  results : list (option R);
  inFlight : Z;
  index : nat;
  running : list nat;
  outcome : promise
}.

(** [resolve] and [reject] act on a pending promise only. *)
Definition settle (p : promise) (st : state) : state :=
  match outcome st with
  | Pending =>
      {| results := results st; inFlight := inFlight st;
         index := index st; running := running st; outcome := p |}
  | _ => st
  end.

(** [while (inFlight < limit && index < items.length)]: one turn per
    item that is left, at most. *)
Fixpoint launch (fuel : nat) (st : state) : state :=
  match fuel with
  | O => st
  | S f =>
      if (inFlight st <? limit) && (index st <? length items)%nat then
        let i := index st in
        match items !! i with
        | Some (Some _) =>
            (* Promise.resolve(worker(item, i)) is now in flight *)
            launch f {| results := results st;
                        inFlight := inFlight st + 1;
                        index := S i;
                        running := running st ++ [i];
                        outcome := outcome st |}
        | _ =>
            (* if (item === undefined) { inFlight--; continue; } *)
            launch f {| results := results st;
                        inFlight := inFlight st + 1 - 1;
                        index := S i;
                        running := running st;
                        outcome := outcome st |}
        end
      else st
  end.

(** [const next = () => { ... }] *)
Definition next (st : state) : state :=
  if (length items <=? index st)%nat && (inFlight st =? 0)
  then settle (Resolved (results st)) st
  else launch (length items - index st) st.

(** The worker started for index [i] settles, and the handlers of
    [.then((res) => { results[i] = res; }).catch(reject)
     .finally(() => { inFlight--; next(); })] run up to [next()]. *)
Definition handlers (item : T) (i : nat) (st : state) : state :=
  let st1 :=
    match worker item i with
    | inr res =>
        {| results := <[i := Some res]> (results st);
           inFlight := inFlight st; index := index st;
           running := running st; outcome := outcome st |}
    | inl e => settle (Rejected e) st
    end in
  {| results := results st1;
     inFlight := inFlight st1 - 1;
     index := index st1;
     running := filter (fun j => j <> i) (running st1);
     outcome := outcome st1 |}.

Definition complete (i : nat) (st : state) : state :=
  match items !! i with
  | Some (Some item) => next (handlers item i st)
  | _ => st
  end.

(** The call itself: allocate [results], then [next()]. *)
Definition start : state :=
  next {| results := replicate (length items) None;
          inFlight := 0; index := 0; running := []; outcome := Pending |}.

(** What a settled worker has left behind. *)
Definition trace_of (st : state) (j : nat) (it : T) : Prop :=
  match worker it j with
  | inr r => results st !! j = Some (Some r)
  | inl _ => exists e', outcome st = Rejected e'
  end.

Record inv (st : state) : Prop := {
  inv_inflight : inFlight st = Z.of_nat (length (running st));
  inv_index : (index st <= length items)%nat;
  inv_length : length (results st) = length items;
  inv_nodup : NoDup (running st);
  inv_running : forall j, j ∈ running st ->
    (j < index st)%nat /\ exists it, items !! j = Some (Some it);
  inv_done : forall j it, (j < index st)%nat -> j ∉ running st ->
    items !! j = Some (Some it) -> trace_of st j it;
  inv_rejected : forall e, outcome st = Rejected e ->
    exists j it, items !! j = Some (Some it) /\ worker it j = inl e;
  inv_resolved : forall rs, outcome st = Resolved rs ->
    rs = results st /\ running st = [] /\ index st = length items
}.

(** The exit test of the [while] loop. *)
Definition saturated (st : state) : Prop :=
  (inFlight st <? limit) && (index st <? length items)%nat = false.

(** What is left to do: items not taken yet count twice, workers in
    flight once. *)
Definition remaining_work (st : state) : nat :=
  2 * (length items - index st) + length (running st).

(** The states the call can be in: workers settle one at a time, in
    any order. *)
Inductive reachable : state -> Prop :=
| reachable_start : reachable start
| reachable_complete st i :
    reachable st -> i ∈ running st -> reachable (complete i st).

(** Workers settle in the order given by [schedule]; an index that
    is not in flight is skipped. *)
Definition settle_in_order (schedule : list nat) : state :=
  fold_left
    (fun st i => if decide (i ∈ running st) then complete i st else st)
    schedule start.

End RunWithConcurrency.

Arguments Pending {R E}.
Arguments Resolved {R E} value.
Arguments Rejected {R E} reason.

(** Two items; the worker fails on the first and succeeds on the second. *)
Definition two_items : list (option nat) := [Some 1%nat; Some 2%nat].
Definition fails_on_one (x : nat) (_ : nat) : string + nat :=
  if (x =? 1)%nat then inl "boom" else inr (10 * x)%nat.

End Pool.

(* ===================================================================== *)
(** ** src/deep-research.ts: the recursion controller *)
(* ===================================================================== *)

Module Research.
Import Js.

(** *** Data *)

Record SerpQuery := { sq_query : string; sq_researchGoal : string }.

Record ResearchProgress := {
  currentQuery : option string;
  currentDepth : Z;
  totalDepth : Z;
  currentBreadth : Z;
  totalBreadth : Z;
  totalQueries : Z;
  completedQueries : Z
}.

Record FirecrawlResult := { url : option string; markdown : option string }.

(** [metadata: {}] is [None]; an absent [data] is [None]. *)
Record SearchResponse := {
  data : option (list FirecrawlResult);
  metadata : option (bool * string)
}.

Record Citation := { reference : string; context : option string }.

(** The arrays [learnings] and [visitedUrls] are JS objects with an
    identity: they live in the heap and the records hold references. *)
Definition loc := nat.

Record ResearchResult := {
  rr_content : string;
  rr_sources : list string;
  rr_methodology : string;
  rr_limitations : string;
  rr_citations : list Citation;
  rr_learnings : loc;
  rr_visitedUrls : loc;
  rr_firecrawlResults : SearchResponse;
  rr_analysis : string
}.

Record ProcessResult := {
  pr_analysis : string;
  pr_content : string;
  pr_sources : list string;
  pr_methodology : string;
  pr_limitations : string;
  pr_citations : list string;
  pr_learnings : loc;
  pr_visitedUrls : loc;
  pr_firecrawlResults : SearchResponse
}.

Record ProcessedGeminiResponse := {
  g_analysis : string;
  g_learnings : list string;
  g_urls : list string;
  g_citations : list Citation
}.

(** The arguments of [generateSerpQueries], defaults filled in. *)
Record SerpQueryArgs := {
  rawQuery : string;
  numQueries : Z;
  sa_learnings : list string;
  sa_researchGoal : string;
  sa_initialQuery : option string;
  sa_depth : Z;
  sa_breadth : Z
}.

(** [DeepResearchOptions]; the two callbacks do not change along the
    recursion and are parameters of the section below. *)
Record DeepResearchOptions := {
  query : string;
  breadth : Z;
  depth : Z;
  learnings : option loc;
  visitedUrls : option loc;
  initialQuery : option string;
  researchGoal : option string
}.

(** What the controller asks of its collaborators, in program order. *)
Inductive event :=
| EGenerateSerpQueries (args : SerpQueryArgs)
| ECallGemini (prompt : string)
| EOnProgress (p : ResearchProgress)
| EReportProgress (p : ResearchProgress).

(** The tree of ResearchTasks of one run: a node is an invocation of
    [deepResearch], its children are the invocations its workers made. *)
Inductive task :=
| Task (t_query : string) (t_depth t_breadth : Z)
       (t_learnings t_visitedUrls : list string) (children : list task).

Definition task_depth (t : task) : Z :=
  match t with Task _ d _ _ _ _ => d end.
Definition task_breadth (t : task) : Z :=
  match t with Task _ _ b _ _ _ => b end.
Definition task_children (t : task) : list task :=
  match t with Task _ _ _ _ _ cs => cs end.

(** Number of nested recursive calls below a task. *)
Fixpoint nesting (t : task) : nat :=
  match t with
  | Task _ _ _ _ _ cs => fold_right (fun c n => Nat.max (S (nesting c)) n) 0%nat cs
  end.

(** Every child was created with [depth - 1] and [ceil(breadth / 2)]. *)
Fixpoint budgeted (t : task) : Prop :=
  match t with
  | Task _ d b _ _ cs =>
      fold_right
        (fun c P => task_depth c = d - 1 /\ task_breadth c = ceil_div b 2
                    /\ budgeted c /\ P)
        True cs
  end.

(** *** The heap of string arrays and the log *)

Record world := { heap : list (list string); log : list event }.

(** A computation reads and extends the world; [None] only ever means
    that the recursion budget of the model was used up. *)
Definition M (A : Type) : Type := world -> option (A * world).

#[export] Instance M_ret : MRet M := fun A a w => Some (a, w).
#[export] Instance M_bind : MBind M := fun A B f m w =>
  match m w with
  | Some (a, w') => f a w'
  | None => None
  end.

(** [[...xs]], an array literal, [compact(...)]: a new array. *)
Definition alloc (xs : list string) : M loc := fun w =>
  Some (length (heap w), {| heap := heap w ++ [xs]; log := log w |}).

Definition contents (w : world) (l : loc) : list string :=
  default [] (heap w !! l).

Definition read (l : loc) : M (list string) := fun w => Some (contents w l, w).

(** [xs.push(...ys)]: the array at [l] is updated in place. *)
Definition push (l : loc) (ys : list string) : M unit := fun w =>
  Some (tt, {| heap := alter (fun xs => xs ++ ys) l (heap w); log := log w |}).

Definition emit (e : event) : M unit := fun w =>
  Some (tt, {| heap := heap w; log := log w ++ [e] |}).

(** lodash [compact] on strings: drops the empty ones. *)
Definition compact (xs : list string) : list string :=
  filter (fun s => truthy s = true) xs.

(** [results.flatMap(r => r.f)] followed by [compact]. *)
Definition aggregate (per_worker : list (list string)) : list string :=
  compact (concat per_worker).

(** The aggregation in the words of the specification: the
    deduplicated union of the per-worker lists. *)
Definition deduplicated_union (per_worker : list (list string)) : list string :=
  remove_dups (concat per_worker).

Definition nl : string := String (ascii_of_nat 10) EmptyString.

Definition DEFAULT_DEPTH : Z := 2.
Definition DEFAULT_BREADTH : Z := 5.

Definition no_metadata : SearchResponse := {| data := None; metadata := None |}.

(** The object literal returned on every failure or skip path of a
    worker; its two arrays are new. *)
Definition emptyProcessResult : M ProcessResult :=
  l ← alloc []; v ← alloc [];
  mret {| pr_analysis := EmptyString; pr_content := EmptyString;
          pr_sources := []; pr_methodology := EmptyString;
          pr_limitations := EmptyString; pr_citations := [];
          pr_learnings := l; pr_visitedUrls := v;
          pr_firecrawlResults := no_metadata |}.

(** The object literal of the two terminal checks. *)
Definition emptyResearchResult : M ResearchResult :=
  l ← alloc []; v ← alloc [];
  mret {| rr_content := EmptyString; rr_sources := [];
          rr_methodology := EmptyString; rr_limitations := EmptyString;
          rr_citations := []; rr_learnings := l; rr_visitedUrls := v;
          rr_firecrawlResults := no_metadata; rr_analysis := EmptyString |}.

(** The object both terminal checks return, as read in [w]. *)
Definition is_empty_result (w : world) (r : ResearchResult) : Prop :=
  rr_content r = EmptyString /\ rr_sources r = [] /\
  rr_methodology r = EmptyString /\ rr_limitations r = EmptyString /\
  rr_citations r = [] /\ rr_analysis r = EmptyString /\
  rr_firecrawlResults r = no_metadata /\
  contents w (rr_learnings r) = [] /\ contents w (rr_visitedUrls r) = [].

(** The collaborators of the controller. *)
Class Collaborators := {
  (** [generateSerpQueries] catches all its errors; its answer is the
      model's, or the cache's. *)
  generateSerpQueries : SerpQueryArgs -> list SerpQuery;
  (** Prompt wording. *)
  generateGeminiPrompt : string -> string -> list string -> string;
  learningPrompt : string -> option string -> string -> string;
  (** The generative capability: the response text, or a rejection. *)
  callGeminiProConfigurable : string -> option string;
  generateContentInternal : string -> option string;
  (** [processGeminiResponse], which may throw on a response that
      parses to something without [items]. *)
  processGeminiResponse : string -> option ProcessedGeminiResponse;
  (** [JSON.parse] followed by the schema's [safeParse]: [None] when
      [JSON.parse] throws, [Some None] when the schema rejects. *)
  parseLearnings : string -> option (option (list string));
  (** The callbacks; [false] when the callback throws. *)
  onProgress : option (ResearchProgress -> bool);
  reportProgress : ResearchProgress -> bool;
  (** [CONCURRENCY_LIMIT], clamped by the provider. *)
  concurrency : Z
}.

Section Controller.
Context `{Collaborators}.

(** [createResearchSplitter()] *)
Definition createResearchSplitter : Splitter.TextSplitterParams :=
  {| Splitter.chunkSize := 140; Splitter.chunkOverlap := 20;
     Splitter.separators := [nl +:+ nl; nl; " "] |}.

(** [generateBatchWithTools(prompts, tools)]: the pool over the
    prompts, its workers settling in the order they were started. *)
Definition generateBatchWithTools (prompts : list string)
  : option (list string) :=
  let worker (p : string) (_ : nat) : unit + string :=
    match generateContentInternal p with
    | Some text => inr text
    | None => inl tt
    end in
  match Pool.outcome
          (Pool.settle_in_order (map Some prompts) concurrency worker
             (seq 0 (length prompts))) with
  | Pool.Resolved rs => Some (omap id rs)
  | _ => None
  end.

(** [for (const br of batchResults)]: the learnings of every response
    that passes the schema are pushed on [learnings]; [false] when
    [JSON.parse] throws. *)
Fixpoint collect_learnings (learnings : loc) (batchResults : list string)
  : M bool :=
  match batchResults with
  | [] => mret true
  | text :: rest =>
      match parseLearnings text with
      | None => mret false
      | Some parsed =>
          _ ← match parsed with
              | Some ls => push learnings ls
              | None => mret tt
              end;
          collect_learnings learnings rest
      end
  end.

(** [processSerpResult({ query, result, numLearnings })]: the array
    of learnings drawn from the scraped contents; [None] when the
    call throws. *)
Definition processSerpResult (q : string) (result : list FirecrawlResult)
    (numLearnings : nat) : M (option loc) :=
  let texts := compact (map (fun item => default EmptyString (markdown item)) result) in
  let chunks := Splitter.splitText createResearchSplitter (join (nl +:+ nl) texts) in
  let firstUrl := head result ≫= url in
  let prompts := map (learningPrompt q firstUrl) chunks in
  match generateBatchWithTools prompts with
  | None => mret None
  | Some batchResults =>
      learnings ← alloc [];
      parsed ← collect_learnings learnings batchResults;
      if (parsed : bool) then
        ls ← read learnings;
        sliced ← alloc (take numLearnings ls);
        mret (Some sliced)
      else mret None
  end.

(** The closure of one invocation: what its workers see. *)
Record frame := {
  f_depth : Z;
  f_breadth : Z;
  f_learnings : loc;
  f_visitedUrls : loc;
  f_initialQuery : string;
  f_researchGoal : string
}.

Definition bump (p : ResearchProgress) : ResearchProgress :=
  {| currentQuery := currentQuery p; currentDepth := currentDepth p;
     totalDepth := totalDepth p; currentBreadth := currentBreadth p;
     totalBreadth := totalBreadth p; totalQueries := totalQueries p;
     completedQueries := completedQueries p + 1 |}.

(** [finally { progress.completedQueries += 1; reportProgress(progress) }]:
    an exception of the callback leaves the inner [try] and is caught
    by the outer one, which answers with an empty result. *)
Definition finally (r : ProcessResult * list task) (p : ResearchProgress)
  : M (ProcessResult * list task * ResearchProgress) :=
  let p' := bump p in
  _ ← emit (EReportProgress p');
  if reportProgress p' then mret (r, p')
  else e ← emptyProcessResult; mret (e, r.2, p').

Section Worker.
Variable recurse : DeepResearchOptions -> M (ResearchResult * task).
Variable fr : frame.

(** The part of [limitedProcessResult] inside the inner [try]:
    [inr] is its [return], [inl] an exception for its [catch]. *)
Definition research_deeper (serpQuery : SerpQuery)
    (g : ProcessedGeminiResponse) (p : ResearchProgress)
  : M ((unit + ProcessResult * list task) * ResearchProgress) :=
  (* Firecrawl disabled in Gemini-only mode: const result = { data: [] } *)
  let result : list FirecrawlResult := [] in
  newUrls ← alloc (compact (omap url result));
  let newBreadth := ceil_div (f_breadth fr) 2 in
  let newDepth := f_depth fr - 1 in
  processResult ← processSerpResult (sq_query serpQuery) result 3;
  match processResult with
  | None => mret (inl tt, p)
  | Some newLearnings =>
      ls ← read (f_learnings fr);
      nls ← read newLearnings;
      allLearnings ← alloc (ls ++ nls);
      vs ← read (f_visitedUrls fr);
      nus ← read newUrls;
      allUrls ← alloc (vs ++ nus);
      if newDepth >? 0 then
        let p' := {| currentQuery := Some (sq_query serpQuery);
                     currentDepth := newDepth;
                     currentBreadth := newBreadth;
                     completedQueries := completedQueries p + 1;
                     totalDepth := totalDepth p;
                     totalBreadth := totalBreadth p;
                     totalQueries := totalQueries p |} in
        thrown ← match onProgress with
                 | Some cb => _ ← emit (EOnProgress p'); mret (negb (cb p'))
                 | None => mret false
                 end;
        if (thrown : bool) then mret (inl tt, p')
        else
          '(deeper, child) ← recurse
             {| query := sq_query serpQuery;
                breadth := newBreadth;
                depth := newDepth;
                learnings := Some allLearnings;
                visitedUrls := Some allUrls;
                initialQuery := Some (f_initialQuery fr);
                researchGoal := Some (f_researchGoal fr) |};
          mret (inr ({| pr_analysis := rr_analysis deeper;
                        pr_content := rr_content deeper;
                        pr_sources := rr_sources deeper;
                        pr_methodology := rr_methodology deeper;
                        pr_limitations := rr_limitations deeper;
                        pr_citations := map reference (rr_citations deeper);
                        pr_learnings := rr_learnings deeper;
                        pr_visitedUrls := rr_visitedUrls deeper;
                        pr_firecrawlResults := rr_firecrawlResults deeper |},
                     [child]), p')
      else
        mret (inr ({| pr_analysis :=
                        if truthy (g_analysis g) then g_analysis g
                        else "No analysis available";
                      pr_content := join (nl +:+ nl) nls;
                      pr_sources := [];
                      pr_methodology := "Semantic chunking with Gemini Flash 2.5";
                      pr_limitations :=
                        "Current implementation focuses on text analysis only";
                      pr_citations := [];
                      pr_learnings := newLearnings;
                      pr_visitedUrls := newUrls;
                      pr_firecrawlResults :=
                        {| data := Some result;
                           metadata := Some (false, "No metadata") |} |},
                   []), p)
  end.

(** [const limitedProcessResult = async (serpQuery) => { ... }] *)
Definition limitedProcessResult (serpQuery : SerpQuery)
    (p : ResearchProgress)
  : M (ProcessResult * list task * ResearchProgress) :=
  ls ← read (f_learnings fr);
  let prompt :=
    generateGeminiPrompt (sq_query serpQuery) (sq_researchGoal serpQuery) ls in
  _ ← emit (ECallGemini prompt);
  match callGeminiProConfigurable prompt ≫= processGeminiResponse with
  | None =>
      (* the outer catch *)
      e ← emptyProcessResult; mret (e, [], p)
  | Some geminiResult =>
      vs ← read (f_visitedUrls fr);
      if bool_decide (sq_query serpQuery ∈ vs) then
        e ← emptyProcessResult; mret (e, [], p)
      else
        '(r, p') ← research_deeper serpQuery geminiResult p;
        match r with
        | inr done => finally done p'
        | inl _ =>
            (* the inner catch, then the finally block *)
            e ← emptyProcessResult; finally (e, []) p'
        end
  end.

(** The dispatch: [serpQueries.map(q => limit(() => limitedProcessResult(q)))]
    awaited by [Promise.all]; the workers are run one after the
    other, in the order of the queries. *)
Fixpoint dispatch (serpQueries : list SerpQuery) (p : ResearchProgress)
  : M (list ProcessResult * list task) :=
  match serpQueries with
  | [] => mret ([], [])
  | q :: rest =>
      '(r, cs, p') ← limitedProcessResult q p;
      '(rs, cs') ← dispatch rest p';
      mret (r :: rs, cs ++ cs')
  end.
End Worker.

(** What follows [const results = await Promise.all(promises)]:
    [visitedUrls = compact(results.flatMap(r => r?.visitedUrls))],
    the same for [learnings], and the returned object. *)
Definition aggregation (results : list ProcessResult) : M ResearchResult :=
  per_worker_urls ← mapM (fun r => read (pr_visitedUrls r)) results;
  visitedUrls ← alloc (aggregate per_worker_urls);
  per_worker_learnings ← mapM (fun r => read (pr_learnings r)) results;
  learnings ← alloc (aggregate per_worker_learnings);
  ls ← read learnings;
  mret {| rr_content := join (nl +:+ nl) ls;
          rr_sources := [];
          rr_methodology := "Semantic chunking with Gemini Flash 2.5";
          rr_limitations :=
            "Current implementation focuses on text analysis only";
          rr_citations := [];
          rr_learnings := learnings;
          rr_visitedUrls := visitedUrls;
          rr_firecrawlResults :=
            {| data := Some [];
               metadata := Some (false, "Firecrawl disabled") |};
          rr_analysis := EmptyString |}.

(** The body of [deepResearch]; [recurse] is [deepResearch] itself. *)
Definition deepResearch_body
    (recurse : DeepResearchOptions -> M (ResearchResult * task))
    (o : DeepResearchOptions) : M (ResearchResult * task) :=
  (* default parameters: [learnings = []], [visitedUrls = []] *)
  initialLearnings ← match learnings o with
                     | Some l => mret l
                     | None => alloc []
                     end;
  initialVisitedUrls ← match visitedUrls o with
                       | Some l => mret l
                       | None => alloc []
                       end;
  let initialQuery := default (query o) (initialQuery o) in
  let researchGoal := default "Deep dive research" (researchGoal o) in
  (* let visitedUrls = [...initialVisitedUrls]; let learnings = [...initialLearnings] *)
  vs0 ← read initialVisitedUrls;
  visitedUrls ← alloc vs0;
  ls0 ← read initialLearnings;
  learnings ← alloc ls0;
  let node := Task (query o) (depth o) (breadth o) ls0 vs0 in
  let progress := {| currentQuery := None;
                     currentDepth := depth o; totalDepth := depth o;
                     currentBreadth := breadth o; totalBreadth := breadth o;
                     totalQueries := breadth o * depth o;
                     completedQueries := 0 |} in
  if depth o <=? 0 then
    r ← emptyResearchResult; mret (r, node [])
  else
    vs ← read visitedUrls;
    if (20 <? length vs)%nat then
      r ← emptyResearchResult; mret (r, node [])
    else
      ls ← read learnings;
      let args := {| rawQuery := query o; numQueries := breadth o;
                     sa_learnings := ls; sa_researchGoal := researchGoal;
                     sa_initialQuery := Some initialQuery;
                     sa_depth := depth o; sa_breadth := breadth o |} in
      _ ← emit (EGenerateSerpQueries args);
      let serpQueries := generateSerpQueries args in
      let fr := {| f_depth := depth o; f_breadth := breadth o;
                   f_learnings := learnings; f_visitedUrls := visitedUrls;
                   f_initialQuery := initialQuery;
                   f_researchGoal := researchGoal |} in
      '(results, children) ← dispatch recurse fr serpQueries progress;
      r ← aggregation results;
      mret (r, node children).

(** [deepResearch]: every recursive call lowers [depth] by one and is
    made only while the new depth is positive, so [depth] calls deep
    is as far as it goes. *)
Fixpoint deepResearch_fuel (fuel : nat) (o : DeepResearchOptions)
  : M (ResearchResult * task) :=
  match fuel with
  | O => deepResearch_body (fun _ _ => None) o
  | S f => deepResearch_body (deepResearch_fuel f) o
  end.

Definition deepResearch (o : DeepResearchOptions) : M (ResearchResult * task) :=
  deepResearch_fuel (Z.to_nat (depth o)) o.

End Controller.

(** *** Predicates on computations and on task trees *)

(** Cells below [n] are untouched and the heap has not shrunk. *)
Definition preserves (n : nat) (w w' : world) : Prop :=
  (length (heap w) <= length (heap w'))%nat
  /\ forall l, (l < n)%nat -> heap w' !! l = heap w !! l.

(** Started on a heap with at least [n] cells, [m] leaves the first
    [n] cells alone and returns a value satisfying [P]. *)
Definition spec {A} (n : nat) (m : M A) (P : A -> Prop) : Prop :=
  forall w a w', (n <= length (heap w))%nat -> m w = Some (a, w') ->
                 preserves n w w' /\ P a.

Definition total {A} (m : M A) : Prop := forall w, is_Some (m w).

(** The array at [l] exists and is empty. *)
Definition blank (w : world) (l : loc) : Prop := heap w !! l = Some [].

(** A result whose learnings are at [l] and whose URLs are at [v]
    carries neither a learning nor a URL. *)
Definition reports_nothing (w : world) (l v : loc) : Prop :=
  blank w l /\ blank w v.

(** What is known of a task a worker of [fr] has spawned. *)
Definition child_ok (d b : Z) (c : task) : Prop :=
  0 < d - 1 /\ task_depth c = d - 1 /\ task_breadth c = ceil_div b 2
  /\ budgeted c /\ Z.of_nat (nesting c) <= Z.max 0 (d - 2).

(** What is known of the task an invocation returns. *)
Definition task_ok (o : DeepResearchOptions) (rt : ResearchResult * task) : Prop :=
  task_depth rt.2 = depth o /\ task_breadth rt.2 = breadth o
  /\ budgeted rt.2 /\ Z.of_nat (nesting rt.2) <= Z.max 0 (depth o - 1).

(** *** Examples *)

(** Collaborators that answer nothing: no sub-queries, every request
    rejected, callbacks that return. *)
Definition silent : Research.Collaborators :=
  {| generateSerpQueries := fun _ => [];
     generateGeminiPrompt := fun q _ _ => q;
     learningPrompt := fun _ _ chunk => chunk;
     Research.callGeminiProConfigurable := fun _ => None;
     generateContentInternal := fun _ => None;
     processGeminiResponse := fun _ => None;
     parseLearnings := fun _ => None;
     onProgress := None;
     reportProgress := fun _ => true;
     concurrency := 5 |}.

Definition exhausted_task : DeepResearchOptions :=
  {| query := "q"; breadth := 3; depth := 0; learnings := None;
     visitedUrls := None; initialQuery := None; researchGoal := None |}.

Definition empty_world : world := {| heap := []; log := [] |}.

Definition two_workers_world : world :=
  {| heap := [["a"]; []; ["a"; "b"]; ["u"]]; log := [] |}.

Definition worker_result (l v : loc) : ProcessResult :=
  {| pr_analysis := "No analysis available"; pr_content := EmptyString;
     pr_sources := []; pr_methodology := EmptyString;
     pr_limitations := EmptyString; pr_citations := [];
     pr_learnings := l; pr_visitedUrls := v;
     pr_firecrawlResults := no_metadata |}.

Definition two_results : list ProcessResult :=
  [worker_result 0%nat 1%nat; worker_result 2%nat 3%nat].

End Research.

(* ===================================================================== *)
(** ** src/deep-research.ts: the cache key of generateSerpQueries *)
(* ===================================================================== *)

Module SerpCache.
Import Js Research.

Definition quote : ascii := ascii_of_nat 34.
Definition backslash : ascii := ascii_of_nat 92.

Definition hex_digit (n : nat) : ascii :=
  if (n <? 10)%nat then ascii_of_nat (48 + n) else ascii_of_nat (87 + n).

(** [JSON.stringify] of one code unit of a string. *)
Definition escape_char (c : ascii) : string :=
  let n := nat_of_ascii c in
  if (n =? 34)%nat then String backslash (String quote EmptyString)
  else if (n =? 92)%nat then String backslash (String backslash EmptyString)
  else if (n =? 8)%nat then String backslash "b"
  else if (n =? 9)%nat then String backslash "t"
  else if (n =? 10)%nat then String backslash "n"
  else if (n =? 12)%nat then String backslash "f"
  else if (n =? 13)%nat then String backslash "r"
  else if (n <? 32)%nat
       then String backslash
              ("u00" +:+ String (hex_digit (n / 16))
                            (String (hex_digit (n mod 16)) EmptyString))
  else String c EmptyString.

Fixpoint escape (s : string) : string :=
  match s with
  | EmptyString => EmptyString
  | String c r => escape_char c +:+ escape r
  end.

(** [JSON.stringify(s)] for a string [s]. *)
Definition json_string (s : string) : string :=
  String quote (escape s +:+ String quote EmptyString).

(** [String(n)] and [JSON.stringify(n)] for an integer. *)
Definition string_of_Z (n : Z) : string :=
  NilEmpty.string_of_int (Z.to_int n).

Inductive json := JStr (s : string) | JNum (n : Z).

Definition stringify_value (v : json) : string :=
  match v with
  | JStr s => json_string s
  | JNum n => string_of_Z n
  end.

(** An object is the list of its properties in insertion order; the
    value [undefined] is [None]. *)
Definition object := list (string * option json).

Definition keys (o : object) : list string := map fst o.

(** [delete o.k] *)
Definition delete (k : string) (o : object) : object :=
  filter (fun p => p.1 <> k) o.

(** [o.k = v] *)
Fixpoint set (k : string) (v : option json) (o : object) : object :=
  match o with
  | [] => [(k, v)]
  | (k', v') :: rest =>
      if decide (k' = k) then (k, v) :: rest else (k', v') :: set k v rest
  end.

Definition member (p : string * option json) : option string :=
  v ← p.2; Some (json_string p.1 +:+ ":" +:+ stringify_value v).

(** [JSON.stringify(o)]: properties whose value is [undefined] are
    left out. *)
Definition stringify (o : object) : string :=
  "{" +:+ join "," (omap member o) +:+ "}".

Definition DEFAULT_NUM_QUERIES : Z := 3.

(** [learnings.reduce((acc, val) => acc + val.charCodeAt(0), 0)];
    [None] is NaN, which an empty learning brings in and nothing
    removes. *)
Definition sum_codes (learnings : list string) : option Z :=
  fold_left (fun acc val => a ← acc; c ← charCodeAt0 val; Some (a + c))
            learnings (Some 0).

Definition learningsHash (learnings : list string) : string :=
  match learnings with
  | [] => EmptyString
  | _ => match sum_codes learnings with
         | Some n => string_of_Z n
         | None => "NaN"
         end
  end.

(** The key object before [learningsHash] is added. *)
Definition descriptor (a : SerpQueryArgs) : object :=
  let o : object :=
    [("rawQuery", Some (JStr (rawQuery a)));
     ("numQueries", Some (JNum (numQueries a)));
     ("researchGoal", Some (JStr (sa_researchGoal a)));
     ("initialQuery", JStr <$> sa_initialQuery a);
     ("depth", Some (JNum (sa_depth a)));
     ("breadth", Some (JNum (sa_breadth a)))] in
  let o := if numQueries a =? DEFAULT_NUM_QUERIES then delete "numQueries" o else o in
  let o := if decide (sa_researchGoal a = "Initial query")
           then delete "researchGoal" o else o in
  let o := if decide (sa_initialQuery a = Some (rawQuery a))
           then delete "initialQuery" o else o in
  let o := if sa_depth a =? 1 then delete "depth" o else o in
  if sa_breadth a =? 1 then delete "breadth" o else o.

Definition keyObject (a : SerpQueryArgs) : object :=
  set "learningsHash" (Some (JStr (learningsHash (sa_learnings a)))) (descriptor a).

Definition cacheKey (a : SerpQueryArgs) : string := stringify (keyObject a).

Definition with_learnings (ls : list string) (a : SerpQueryArgs) : SerpQueryArgs :=
  {| rawQuery := rawQuery a; numQueries := numQueries a; sa_learnings := ls;
     sa_researchGoal := sa_researchGoal a; sa_initialQuery := sa_initialQuery a;
     sa_depth := sa_depth a; sa_breadth := sa_breadth a |}.

(** Reads one escaped code unit back; a closing quote reads as nothing. *)
Definition hex_value (c : ascii) : nat :=
  let n := nat_of_ascii c in
  if (n <? 58)%nat then n - 48 else n - 87.

Definition unescape_one (s : string) : option (ascii * string) :=
  match s with
  | EmptyString => None
  | String c r =>
      if (nat_of_ascii c =? 34)%nat then None
      else if (nat_of_ascii c =? 92)%nat then
        match r with
        | String d r' =>
            let n := nat_of_ascii d in
            if (n =? 34)%nat then Some (quote, r')
            else if (n =? 92)%nat then Some (backslash, r')
            else if (n =? 98)%nat then Some (ascii_of_nat 8, r')
            else if (n =? 116)%nat then Some (ascii_of_nat 9, r')
            else if (n =? 110)%nat then Some (ascii_of_nat 10, r')
            else if (n =? 102)%nat then Some (ascii_of_nat 12, r')
            else if (n =? 114)%nat then Some (ascii_of_nat 13, r')
            else match r' with
                 | String _ (String _ (String h1 (String h2 r''))) =>
                     Some (ascii_of_nat (16 * hex_value h1 + hex_value h2), r'')
                 | _ => None
                 end
        | EmptyString => None
        end
      else Some (c, r)
  end.

Definition sample_args : SerpQueryArgs :=
  {| rawQuery := "what is x"; numQueries := 3; sa_learnings := ["ab"];
     sa_researchGoal := "Initial query"; sa_initialQuery := Some "what is x";
     sa_depth := 1; sa_breadth := 1 |}.

End SerpCache.

(* ===================================================================== *)
(** ** JavaScript numbers: IEEE 754 binary64 *)
(* ===================================================================== *)

(** A Number is a [spec_float] of the Standard Library with 53 bits of
    precision; every operation rounds to the nearest value, ties to
    even, as the operators of JavaScript do.  The counters and the
    clock of the program are integers ([Z]); a sum or a difference of
    them is taken in [Z], where JavaScript is exact below 2^53, and
    every division and product is the one of Numbers. *)
Module Double.
Import SpecFloat.

Definition double : Type := spec_float.

Definition prec : Z := 53.
Definition emax : Z := 1024.

Definition NaN : double := S754_nan.
Definition zero : double := S754_zero false.

(** The Number nearest to an integer; exact up to 2^53. *)
Definition of_Z (z : Z) : double := binary_normalize prec emax z 0 false.

(** [x / y], [x * y], [x - y] *)
Definition div : double -> double -> double := SFdiv prec emax.
Definition mul : double -> double -> double := SFmul prec emax.
Definition sub : double -> double -> double := SFsub prec emax.

(** [x < y], [x <= y]; both are false when an operand is NaN. *)
Definition ltb : double -> double -> bool := SFltb.

(** [x > 0] and [x < 0] *)
Definition is_positive (x : double) : bool := ltb zero x.

(** The literal [0.001]: the Number nearest to 1/1000. *)
Definition milli : double := div (of_Z 1) (of_Z 1000).

(** [Math.max(a, b)]: NaN if an operand is, and [+0] above [-0]. *)
Definition Math_max (a b : double) : double :=
  match SFcompare a b with
  | None => NaN
  | Some Lt => b
  | Some Gt => a
  | Some Eq => match a with S754_zero true => b | _ => a end
  end.

(** The integer [m] with the sign [s]. *)
Definition signed (s : bool) (m : positive) : Z :=
  if s then Zneg m else Zpos m.

(** [floor(x)] and [floor(x + 1/2)] for [x = signed s m * 2^e]. *)
Definition floor_of (s : bool) (m : positive) (e : Z) : Z :=
  match e with
  | Zneg k => signed s m / 2 ^ Zpos k
  | _ => signed s m * 2 ^ e
  end.

Definition round_of (s : bool) (m : positive) (e : Z) : Z :=
  match e with
  | Zneg k => (2 * signed s m + 2 ^ Zpos k) / 2 ^ (Zpos k + 1)
  | _ => signed s m * 2 ^ e
  end.

(** [Math.floor(x)]: an integral value, an infinity or NaN is
    returned as it is; between 0 and 1 the result is [+0]. *)
Definition Math_floor (x : double) : double :=
  match x with
  | S754_finite s m (Zneg k) =>
      let n := floor_of s m (Zneg k) in
      if n =? 0 then zero else of_Z n
  | _ => x
  end.

(** [Math.round(x)]: the integer nearest to [x], a tie going up; a
    result of zero keeps the sign of [x]. *)
Definition Math_round (x : double) : double :=
  match x with
  | S754_finite s m (Zneg k) =>
      let n := round_of s m (Zneg k) in
      if n =? 0 then S754_zero s else of_Z n
  | _ => x
  end.

(** [x % y]: the remainder of the division truncated towards zero; it
    is exact and has the sign of [x]. *)
Definition rem (x y : double) : double :=
  match x, y with
  | S754_nan, _ | _, S754_nan => NaN
  | S754_infinity _, _ => NaN
  | _, S754_zero _ => NaN
  | S754_zero _, _ => x
  | _, S754_infinity _ => x
  | S754_finite sx mx ex, S754_finite _ my ey =>
      let e := Z.min ex ey in
      let nx := Zpos mx * 2 ^ (ex - e) in
      let ny := Zpos my * 2 ^ (ey - e) in
      let r := nx mod ny in
      binary_normalize prec emax (if sx then - r else r) e sx
  end.


(** [s.repeat(count)] throws a RangeError for a count that is
    negative once truncated, or infinite; NaN counts as 0.  (A count
    too large for a string throws a RangeError as well; in
    [drawProgressBar] the other bar then has a negative count.) *)
Definition repeat_throws (count : double) : bool :=
  match count with
  | S754_infinity _ => true
  | S754_finite true m e => negb (floor_of false m e =? 0)
  | _ => false
  end.

End Double.

(* ===================================================================== *)
(** ** src/progress-manager.ts: ProgressManager *)
(* ===================================================================== *)

Module Progress.
Import Research Double.

(** An entry of [rateWindow]: [Date.now()] in milliseconds and the
    number of completed queries. *)
Record sample := { t : Z; completed : Z }.

(** The progress records are objects of the caller: a call hands over
    a reference, and [objects] tells what each reference holds when
    the call is made. *)
Definition ref : Type := nat.
Definition objects : Type := ref -> ResearchProgress.

(** [lastProgress] is the object of the last update that was not
    ignored, not a copy of it. *)
Record ProgressManager := {
  initialized : bool;
  lastProgress : option ref;
  rateWindow : list sample
}.

Definition maxWindow : nat := 20.

(** [etaStr]: the default ['ETA: —'], or [`ETA: ${mm}m ${ss}s`]. *)
Inductive eta :=
| Unknown
| Eta (mm ss : double).

(** [Math.max(0.001, (last.t - first.t) / 1000)] *)
Definition dTimeSec (first last : sample) : double :=
  Math_max milli (div (of_Z (t last - t first)) (of_Z 1000)).

(** [Math.max(0, last.completed - first.completed)] *)
Definition dCompleted (first last : sample) : Z :=
  Z.max 0 (completed last - completed first).

(** Queries per second. *)
Definition rate (first last : sample) : double :=
  div (of_Z (dCompleted first last)) (dTimeSec first last).

(** [Math.max(0, progress.totalQueries - progress.completedQueries)] *)
Definition remaining (p : ResearchProgress) : Z :=
  Z.max 0 (totalQueries p - completedQueries p).

(** [rate > 0 ? Math.round(remaining / rate) : 0] *)
Definition etaSec (first last : sample) (p : ResearchProgress) : double :=
  if is_positive (rate first last)
  then Math_round (div (of_Z (remaining p)) (rate first last))
  else zero.

(** [Math.floor(etaSec / 60)] and [etaSec % 60] *)
Definition minutes (e : double) : double := Math_floor (div e (of_Z 60)).
Definition seconds (e : double) : double := rem e (of_Z 60).

(** The ETA shown for a window and a progress record. *)
Definition estimate (window : list sample) (p : ResearchProgress) : eta :=
  if (2 <=? length window)%nat && (0 <? totalQueries p) then
    match head window, last window with
    | Some first, Some last =>
        let e := etaSec first last p in
        Eta (minutes e) (seconds e)
    | _, _ => Unknown
    end
  else Unknown.

(** [process.stdout.columns ? Math.min(30, columns - 20) : 30] *)
Definition bar_width (columns : option Z) : Z :=
  match columns with
  | Some c => if c =? 0 then 30 else Z.min 30 (c - 20)
  | None => 30
  end.

(** [total > 0 ? (value / total) * 100 : 0] *)
Definition percent (value total : Z) : double :=
  if 0 <? total then mul (div (of_Z value) (of_Z total)) (of_Z 100) else zero.

(** [Math.round((width * percent) / 100)] and [width - filled] *)
Definition filled (columns : option Z) (value total : Z) : double :=
  Math_round (div (mul (of_Z (bar_width columns)) (percent value total))
                  (of_Z 100)).
Definition empty (columns : option Z) (value total : Z) : double :=
  sub (of_Z (bar_width columns)) (filled columns value total).

(** [drawProgressBar(label, value, total, char)] throws when
    [char.repeat(filled)] or [' '.repeat(empty)] does. *)
Definition drawProgressBar_throws (columns : option Z) (value total : Z) : bool :=
  repeat_throws (filled columns value total)
  || repeat_throws (empty columns value total).

(** The three bars of [lines], built outside the [try]. *)
Definition lines_throw (columns : option Z) (p : ResearchProgress) : bool :=
  drawProgressBar_throws columns (totalDepth p - currentDepth p) (totalDepth p)
  || drawProgressBar_throws columns (totalBreadth p - currentBreadth p)
       (totalBreadth p)
  || drawProgressBar_throws columns (completedQueries p) (totalQueries p).

(** No change in any tracked dimension since the last draw. *)
Definition unchanged (l p : ResearchProgress) : bool :=
  bool_decide (completedQueries l = completedQueries p)
  && bool_decide (currentDepth l = currentDepth p)
  && bool_decide (currentBreadth l = currentBreadth p)
  && bool_decide (currentQuery l = currentQuery p).

(** [this.rateWindow.push(...)], then [shift()] beyond [maxWindow]. *)
Definition push_sample (s : sample) (window : list sample) : list sample :=
  let window := window ++ [s] in
  if (maxWindow <? length window)%nat then drop 1 window else window.

(** How a call of [updateProgress] ends: it returns at once, it
    builds its lines with the ETA [e] and writes them (a failure of
    the write is caught and logged), or it throws the RangeError of
    [drawProgressBar]. *)
Inductive outcome :=
| Ignored
| Drawn (e : eta)
| RangeError.

(** The calls that took a sample. *)
Definition taken (o : outcome) : bool :=
  match o with Ignored => false | _ => true end.

(** [updateProgress(progress)] when the clock reads [now] and the
    terminal has [columns] columns: the new state and how the call
    ends.  The object is stored and the sample pushed before the bars
    are built, so a call that throws has changed the state as well. *)
Definition updateProgress (pm : ProgressManager) (heap : objects)
    (progress : ref) (now : Z) (columns : option Z)
  : ProgressManager * outcome :=
  let p := heap progress in
  let suppressed :=
    match lastProgress pm with
    | Some l => unchanged (heap l) p
    | None => false
    end in
  if negb (initialized pm) then (pm, Ignored)
  else if suppressed then (pm, Ignored)
  else
    let window := push_sample {| t := now; completed := completedQueries p |}
                    (rateWindow pm) in
    ({| initialized := true; lastProgress := Some progress;
        rateWindow := window |},
     if lines_throw columns p then RangeError
     else Drawn (estimate window p)).

(** A call as the manager sees it: what the references hold, the
    object handed over, the clock and the width of the terminal. *)
Record call := {
  c_heap : objects;
  c_progress : ref;
  c_now : Z;
  c_columns : option Z
}.

(** A sequence of calls and how each of them ends; a caller that
    catches the RangeError goes on with the state the call has left. *)
Fixpoint run (pm : ProgressManager) (calls : list call)
  : ProgressManager * list outcome :=
  match calls with
  | [] => (pm, [])
  | c :: rest =>
      let '(pm', o) :=
        updateProgress pm (c_heap c) (c_progress c) (c_now c) (c_columns c) in
      let '(pm'', os) := run pm' rest in
      (pm'', o :: os)
  end.

Definition fresh : ProgressManager :=
  {| initialized := true; lastProgress := None; rateWindow := [] |}.

Definition progress_at (c d : Z) : ResearchProgress :=
  {| currentQuery := None; currentDepth := d; totalDepth := 2;
     currentBreadth := 2; totalBreadth := 2;
     totalQueries := 10; completedQueries := c |}.

(** The objects of a list of records, one reference each. *)
Definition objects_of (ps : list ResearchProgress) : objects :=
  fun r => nth r ps (progress_at 0 0).

(** A call on a terminal of 80 columns. *)
Definition call_on (heap : objects) (r : ref) (now : Z) : call :=
  {| c_heap := heap; c_progress := r; c_now := now; c_columns := Some 80 |}.

End Progress.

(* ===================================================================== *)
(** ** src/feedback.ts: generateFeedback and its repair pass *)
(* ===================================================================== *)

Module Feedback.
Import Js.

Record FeedbackResponse := {
  analysis : string;
  followUpQuestions : list string
}.

Record FeedbackOptions := {
  fo_query : string;
  fo_numQuestions : Z;
  fo_researchGoal : string;
  fo_depth : Z;
  fo_breadth : Z;
  fo_existingLearnings : list string
}.

(** How a call of [generateFeedback] ends. *)
Inductive completion :=
| Throws (message : string)
| Returns (value : FeedbackResponse).

(** *** The two validators of deep-research.ts *)

Definition is_digit (c : ascii) : bool :=
  let n := nat_of_ascii c in (48 <=? n)%nat && (n <=? 57)%nat.

(** The longest prefix of digits, and what follows it. *)
Fixpoint span_digits (s : string) : string * string :=
  match s with
  | String c r =>
      if is_digit c
      then let '(ds, rest) := span_digits r in (String c ds, rest)
      else (EmptyString, s)
  | EmptyString => (EmptyString, EmptyString)
  end.

(** A match of [\[\[\d+\]\]] at the start of [s]: its digits. *)
Definition match_reference (s : string) : option string :=
  match s with
  | String a (String b r) =>
      if (nat_of_ascii a =? 91)%nat && (nat_of_ascii b =? 91)%nat then
        let '(ds, rest) := span_digits r in
        match ds, rest with
        | String _ _, String c (String d _) =>
            if (nat_of_ascii c =? 93)%nat && (nat_of_ascii d =? 93)%nat
            then Some ds else None
        | _, _ => None
        end
      else None
  | _ => None
  end.

(** [text.match(/\[\[\d+\]\]/g)]: the digits of the matches, found from
    the left and not overlapping; [skip] characters of the current
    match are still to be passed. *)
Fixpoint references_from (skip : nat) (s : string) : list string :=
  match s with
  | EmptyString => []
  | String _ r =>
      match skip with
      | S k => references_from k r
      | O =>
          match match_reference s with
          | Some ds => ds :: references_from (String.length ds + 3) r
          | None => references_from 0 r
          end
      end
  end.

Definition references (s : string) : list string := references_from 0 s.

(** [text.split(/\s+/).length]: one more than the runs of white space. *)
Fixpoint count_runs (inrun : bool) (s : string) : nat :=
  match s with
  | EmptyString => 0
  | String c r =>
      if is_space c
      then (if inrun then count_runs true r else S (count_runs true r))
      else count_runs false r
  end.

Definition split_ws_length (s : string) : nat := S (count_runs false s).

(** [Number.parseInt(digits, 10)] *)
Definition parseInt (ds : string) : Z :=
  match NilEmpty.uint_of_string ds with
  | Some u => Z.of_uint u
  | None => 0
  end.

Definition validateAcademicInput (input : string) : bool :=
  (10 <? String.length input)%nat && (3 <=? split_ws_length (trim input))%nat.

(** [text.match(/\[\[\d{4}\]\]/g)] picks the references of four digits. *)
Definition validateAcademicOutput (text : string) : bool :=
  let citationDensity :=
    ((Z.of_nat (length (references text)) # 1)
     / ((Z.of_nat (split_ws_length text) # 1) / 100))%Q in
  let recentSources :=
    length (filter (fun yr => 2019 < parseInt yr)
              (filter (fun ds => String.length ds = 4%nat) (references text))) in
  let conflictDisclosures := if includes "Conflict Disclosure:" text then 1 else 0 in
  negb (Qle_bool citationDensity (15 # 10))
  && (3 <? recentSources)%nat && (conflictDisclosures =? 1).

(** Some character is not white space. *)
Fixpoint has_nonspace (s : string) : bool :=
  match s with
  | EmptyString => false
  | String c r => negb (is_space c) || has_nonspace r
  end.

(** *** The fallback values *)

Definition repair_failed : FeedbackResponse :=
  {| analysis := "Failed to parse feedback response after repair.";
     followUpQuestions := [] |}.

Definition invalid_feedback : FeedbackResponse :=
  {| analysis := "Unable to generate valid feedback"; followUpQuestions := [] |}.

Definition api_error : FeedbackResponse :=
  {| analysis := "Error generating feedback. Please check API key and logs.";
     followUpQuestions := [] |}.

(** [researchResult?.analysis?.trim() || query], the text given to
    [analyzePastFeedback]. *)
Definition analysisText (o : FeedbackOptions) (researchAnalysis : string) : string :=
  if truthy (trim researchAnalysis) then trim researchAnalysis else fo_query o.

Class Collaborators := {
  (** The generative capability: the response text, or a rejection. *)
  callGeminiProConfigurable : string -> option string;
  (** [JSON.parse] followed by [FeedbackResponseSchema.parse]; [None]
      when either throws. *)
  parseFeedback : string -> option FeedbackResponse;
  (** [conductResearch(query, depth)]: the [analysis] of its result, or
      a rejection. *)
  conductResearch : string -> Z -> option string;
  (** The key under which a request is cached. *)
  cacheKeyOf : FeedbackOptions -> string;
  (** The wording of the first request and of the repair request, the
      latter quoting the previous output. *)
  firstPrompt : FeedbackOptions -> string -> string;
  repairPrompt : string -> string
}.

Section GenerateFeedback.
Context `{Collaborators}.

(** From the first response on: the first parse attempt and, when it
    fails, the single repair pass.  The result is the value of
    [feedbackResponse] and the repair requests sent; [None] is an
    exception of the repair call, for the outer [catch]. *)
Definition parse_or_repair (jsonText : string)
  : option FeedbackResponse * list string :=
  match parseFeedback jsonText with
  | Some parsed => (Some parsed, [])
  | None =>
      let request := repairPrompt jsonText in
      match callGeminiProConfigurable request with
      | None => (None, [request])
      | Some repaired =>
          match parseFeedback repaired with
          | Some parsed => (Some parsed, [request])
          | None => (Some repair_failed, [request])
          end
      end
  end.

(** [generateFeedback(options)]: how the call ends, the prompts the
    function itself passes to [callGeminiProConfigurable], and the
    cache afterwards.  The requests that [conductResearch] sends are
    made inside that collaborator and are not listed.  The terminal is
    taken to be at least 20 columns wide, or of no known width, so
    that the progress bar of [analyzePastFeedback] does not throw. *)
Definition generateFeedback (o : FeedbackOptions)
    (feedbackCache : gmap string FeedbackResponse)
  : completion * list string * gmap string FeedbackResponse :=
  if negb (validateAcademicInput (fo_query o))
  then (Throws "Query fails academic validation checks", [], feedbackCache)
  else
    let cacheKey := cacheKeyOf o in
    match feedbackCache !! cacheKey with
    | Some cachedFeedback => (Returns cachedFeedback, [], feedbackCache)
    | None =>
        match conductResearch (fo_query o) (fo_depth o) with
        | None => (Throws "conductResearch", [], feedbackCache)
        | Some researchAnalysis =>
            let text := analysisText o researchAnalysis in
            (* analyzePastFeedback *)
            if negb (truthy (trim text))
            then (Throws "Invalid query: Must be a non-empty string", [],
                  feedbackCache)
            else
              let request := firstPrompt o text in
              match callGeminiProConfigurable request with
              | None => (Returns api_error, [request], feedbackCache)
              | Some jsonText =>
                  let '(parsed, repairs) := parse_or_repair jsonText in
                  match parsed with
                  | None => (Returns api_error, request :: repairs, feedbackCache)
                  | Some feedbackResponse =>
                      if negb (validateAcademicOutput (analysis feedbackResponse))
                      then (Returns invalid_feedback, request :: repairs,
                            feedbackCache)
                      else (Returns feedbackResponse, request :: repairs,
                            <[cacheKey := feedbackResponse]> feedbackCache)
                  end
              end
        end
    end.
End GenerateFeedback.

(** *** Examples *)

(** A model that never answers in the schema. *)
Definition stubborn : Feedback.Collaborators :=
  {| Feedback.callGeminiProConfigurable := fun _ => Some "not json";
     parseFeedback := fun _ => None;
     conductResearch := fun _ _ => Some EmptyString;
     cacheKeyOf := fun o => fo_query o;
     firstPrompt := fun o _ => fo_query o;
     repairPrompt := fun previous => "Repair: " +:+ previous |}.

Definition a_question : FeedbackOptions :=
  {| fo_query := "what is the meaning of life"; fo_numQuestions := 3;
     fo_researchGoal := "Understand the user's query";
     fo_depth := 1; fo_breadth := 1; fo_existingLearnings := [] |}.

End Feedback.

(* ===================================================================== *)
(** ** Examples for the workers of deepResearch *)
(* ===================================================================== *)

Module ResearchExamples.
Import Js Research.

(** Collaborators whose model always answers and whose answer can be
    processed, with nothing in it. *)
Definition answering : Research.Collaborators :=
  {| generateSerpQueries := fun _ => [];
     generateGeminiPrompt := fun q _ _ => q;
     learningPrompt := fun _ _ chunk => chunk;
     Research.callGeminiProConfigurable := fun _ => Some "{}";
     generateContentInternal := fun _ => Some "{}";
     processGeminiResponse := fun _ =>
       Some {| g_analysis := EmptyString; g_learnings := [];
               g_urls := []; g_citations := [] |};
     parseLearnings := fun _ => Some None;
     onProgress := None;
     reportProgress := fun _ => true;
     concurrency := 5 |}.

(** A heap with the learnings of a round at 0 and its visited URLs,
    the query ["q"] among them, at 1. *)
Definition visited_world : world := {| heap := [[]; ["q"]]; log := [] |}.

Definition a_frame : frame :=
  {| f_depth := 1; f_breadth := 1; f_learnings := 0%nat; f_visitedUrls := 1%nat;
     f_initialQuery := "q"; f_researchGoal := "Deep dive research" |}.

Definition a_query : SerpQuery := {| sq_query := "q"; sq_researchGoal := "goal" |}.


Definition first_progress : ResearchProgress :=
  {| currentQuery := None; currentDepth := 1; totalDepth := 1;
     currentBreadth := 1; totalBreadth := 1; totalQueries := 1;
     completedQueries := 0 |}.

End ResearchExamples.

(* ===================================================================== *)
(** ** White space in normalised text *)
(* ===================================================================== *)

Module Whitespace.
Import Js.

(** Every white-space character of [s] is a SPACE that follows a
    character which is not white space; [after] tells that the
    character before [s] was white space. *)
Fixpoint tidy_from (after : bool) (s : string) : Prop :=
  match s with
  | EmptyString => True
  | String c r =>
      if is_space c then c = " "%char /\ after = false /\ tidy_from true r
      else tidy_from false r
  end.

(** Single spaces only, none at either end. *)
Definition tidy (s : string) : Prop := tidy_from true s /\ trimEnd s = s.

End Whitespace.

(* ===================================================================== *)
(** ** JavaScript array primitives *)
(* ===================================================================== *)

Module JsArray.
Import Js.

(** [xs.slice(start, end)] with integer arguments. *)
Definition slice {A} (xs : list A) (start stop : Z) : list A :=
  let len := Z.of_nat (length xs) in
  let from := rel_index len start in
  let to := rel_index len stop in
  take (Z.to_nat (Z.max (to - from) 0)) (drop (Z.to_nat from) xs).

(** [Array.from(new Set(xs))]: the first occurrence of every element,
    in order. *)
Fixpoint unique (seen xs : list string) : list string :=
  match xs with
  | [] => []
  | x :: rest =>
      if bool_decide (x ∈ seen) then unique seen rest
      else x :: unique (x :: seen) rest
  end.

Definition set_of (xs : list string) : list string := unique [] xs.

End JsArray.

(* ===================================================================== *)
(** ** src/ai/text-splitter.ts: SemanticTextSplitter, TiktokenTextSplitter *)
(* ===================================================================== *)

Module SplitterVariants.
Import Js.

(** *** SemanticTextSplitter: the structural splitter behind a
    normalisation of line ends *)

(** The constructor builds [this.base] from its own three parameters;
    the exception of that constructor is [None]. *)
Definition Semantic_new (size overlap : option Z) (seps : option (list string))
  : option Splitter.TextSplitterParams :=
  Splitter.new (Some (default 50 size)) (Some (default 10 overlap)) seps.

Definition Semantic_splitText (base : Splitter.TextSplitterParams)
    (text : string) : list string :=
  if negb (truthy text) then []
  else Splitter.splitText base (Semantic.normalize_newlines text).

(** *** TiktokenTextSplitter *)

Record TiktokenTextSplitter := {
  chunkSize : Z;
  chunkOverlap : Z
}.

Definition Tiktoken_new (size overlap : option Z) : option TiktokenTextSplitter :=
  let cs := default 1500 size in
  let co := default 200 overlap in
  if co >=? cs then None
  else Some {| chunkSize := cs; chunkOverlap := co |}.

Section Tiktoken.
(** The tokenizer: [getEncoding(enc)], or the byte-wise fallback. *)
Variable encode : string -> list Z.
Variable decode : list Z -> string.
Variable self : TiktokenTextSplitter.

Definition stride : Z := Z.max 1 (chunkSize self - chunkOverlap self).

(** The slices [ids.slice(i, i + this.chunkSize)] of
    [for (let i = 0; i < ids.length; i += stride)]; the loop runs at
    most [ids.length] times, which is the fuel. *)
Fixpoint windows (fuel : nat) (ids : list Z) (i : Z) : list (list Z) :=
  match fuel with
  | O => []
  | S f =>
      if i <? Z.of_nat (length ids)
      then JsArray.slice ids i (i + chunkSize self) :: windows f ids (i + stride)
      else []
  end.

Definition Tiktoken_splitText (text : string) : list string :=
  if negb (truthy text) then []
  else
    let ids := encode text in
    filter (fun c => truthy c = true)
           (map (fun w => trim (decode w)) (windows (length ids) ids 0)).
End Tiktoken.

(** A tokenizer of one token per character, for the examples. *)
Definition encode_chars (s : string) : list Z :=
  map (fun c => Z.of_nat (nat_of_ascii c)) (list_ascii_of_string s).
Definition decode_chars (ids : list Z) : string :=
  string_of_list_ascii (map (fun n => ascii_of_nat (Z.to_nat n)) ids).

End SplitterVariants.

(* ===================================================================== *)
(** ** Examples for the semantic splitter *)
(* ===================================================================== *)

Module SemanticExamples.

(** An embedding capability that answers every request with the same
    vector of one component, and a similarity defined on vectors of
    equal length. *)
Definition unit_embedding (_ : string) : option (list Q) := Some [1%Q].
Definition unit_similarity (a b : list Q) : option Q :=
  if (length a =? length b)%nat then Some 1%Q else None.

End SemanticExamples.

(* ===================================================================== *)
(** ** src/feedback.ts: analyzePastFeedback *)
(* ===================================================================== *)

Module PastFeedback.
Import Js.

(** [c.toLowerCase()] for a code unit below 256: the letters A-Z and
    the capital letters of Latin-1 (all of 192-222 but the
    multiplication sign 215) move up by 32. *)
Definition toLowerCase_char (c : ascii) : ascii :=
  let n := nat_of_ascii c in
  if ((65 <=? n)%nat && (n <=? 90)%nat)
     || ((192 <=? n)%nat && (n <=? 222)%nat && negb (n =? 215)%nat)
  then ascii_of_nat (n + 32) else c.

Fixpoint toLowerCase (s : string) : string :=
  match s with
  | EmptyString => EmptyString
  | String c r => String (toLowerCase_char c) (toLowerCase r)
  end.

Definition DEFAULT_KEYWORDS : list string := ["example"; "test"; "dummy"].

(** [Math.max(baseScore - penalty, 0)] *)
Definition calculateFeedbackScore (keywords : list string) : Z :=
  Z.max (100 - Z.of_nat (length keywords) * 10) 0.

(** The fields of [FeedbackAnalysis] other than the date. *)
Record FeedbackAnalysis := {
  score : Z;
  keywords : list string;
  suggestions : list string
}.

Inductive result :=
| RangeError
| Error (message : string)
| Analysis (a : FeedbackAnalysis).

(** [getTerminalDimensions().width]: [process.stdout.columns || 80]. *)
Definition terminal_width (columns : option Z) : Z :=
  match columns with
  | Some c => if c =? 0 then 80 else c
  | None => 80
  end.

(** [analyzePastFeedback(query)] on a terminal of [columns] columns.
    The progress bar is built before the [try]: with [current = 0]
    nothing is filled and [' '.repeat(width - 20)] throws a RangeError
    when the count is negative. *)
Definition analyzePastFeedback (columns : option Z) (query : string) : result :=
  if terminal_width columns - 20 <? 0 then RangeError
  else if (String.length (trim query) =? 0)%nat
  then Error "Invalid query: Must be a non-empty string"
  else
    let foundKeyword :=
      List.find (fun keyword => includes (toLowerCase keyword) (toLowerCase query))
                DEFAULT_KEYWORDS in
    let matchedKeywords := match foundKeyword with Some k => [k] | None => [] end in
    let suggestions :=
      match foundKeyword with
      | Some k => ["Consider refining the query to be more specific than " +:+
                   String (ascii_of_nat 34) (k +:+ String (ascii_of_nat 34) EmptyString)]
      | None => []
      end in
    Analysis {| score := calculateFeedbackScore matchedKeywords;
                keywords := matchedKeywords;
                suggestions := suggestions |}.

End PastFeedback.

(* ===================================================================== *)
(** ** src/utils/json.ts and the body of generateSerpQueries *)
(* ===================================================================== *)

Module SerpQueries.
Import Js Research.

(** A value [JSON.parse] may return. *)
Inductive jsvalue :=
| JNull
| JBool (b : bool)
| JNumber (n : Q)
| JString (s : string)
| JArray (items : list jsvalue)
| JObject (fields : list (string * jsvalue)).

(** [Array.isArray(v)] *)
Definition isArray (v : jsvalue) : bool :=
  match v with JArray _ => true | _ => false end.

(** The character of code [n] occurs in [s]. *)
Definition has_char (n : nat) (s : string) : Prop :=
  Exists (fun c => nat_of_ascii c = n) (list_ascii_of_string s).

(** The shortest prefix of [s] that ends with a closing brace. *)
Fixpoint until_brace (s : string) : option string :=
  match s with
  | EmptyString => None
  | String c r =>
      if (nat_of_ascii c =? 125)%nat then Some (String c EmptyString)
      else String c <$> until_brace r
  end.

(** [text.match(/\{[\s\S]*?\}/)]: the leftmost match, which runs from
    an opening brace to the first closing brace after it. *)
Fixpoint first_object (text : string) : option string :=
  match text with
  | EmptyString => None
  | String c r =>
      if (nat_of_ascii c =? 123)%nat then
        match until_brace r with
        | Some m => Some (String c m)
        | None => first_object r
        end
      else first_object r
  end.

(** The cache [new LRUCache({ max })] of the package lru-cache: the
    entries from the most to the least recently used. *)
Definition lru (V : Type) := list (string * V).

Definition lru_get {V} (k : string) (c : lru V) : option V * lru V :=
  match list_find (fun e => e.1 = k) c with
  | Some (_, (_, v)) => (Some v, (k, v) :: filter (fun e => e.1 <> k) c)
  | None => (None, c)
  end.

Definition lru_set {V} (max : nat) (k : string) (v : V) (c : lru V) : lru V :=
  take max ((k, v) :: filter (fun e => e.1 <> k) c).

Section WithModel.
(** [JSON.parse]: [None] when it throws. *)
Variable JSON_parse : string -> option jsvalue.
(** [String(v)] *)
Variable to_string : jsvalue -> string.
(** The wording of the request, and the generative capability. *)
Variable serpPrompt : SerpQueryArgs -> string.
Variable callGeminiProConfigurable : string -> option string.

(** [extractJsonFromText(text)]: every failure is answered with [{}]. *)
Definition extractJsonFromText (text : string) : jsvalue :=
  if negb (truthy text) then JObject []
  else
    match first_object text with
    | Some jsonString =>
        match JSON_parse jsonString with
        | Some v => v
        | None => JObject []
        end
    | None => JObject []
    end.

(** [isValidJSON(jsonString)] *)
Definition isValidJSON (jsonString : string) : bool :=
  bool_decide (is_Some (JSON_parse jsonString)).

(** [safeParseJSON(jsonString, defaultValue)] *)
Definition safeParseJSON (jsonString : string) (defaultValue : jsvalue) : jsvalue :=
  default defaultValue (JSON_parse jsonString).

(** The [query] read from one element of the model's array. *)
Definition queryValue (rawQuery : jsvalue) : jsvalue :=
  match rawQuery with
  | JObject fields =>
      match list_find (fun f => f.1 = "query") (reverse fields) with
      | Some (_, (_, q)) =>
          match q with
          | JString _ => q
          | JNull => JString EmptyString
          | _ => JString (to_string q)
          end
      | None => rawQuery
      end
  | _ => rawQuery
  end.

(** [SerpQuerySchema.safeParse({ query: ..., researchGoal })], which
    succeeds as both fields are strings. *)
Definition toSerpQuery (researchGoal : string) (rawQuery : jsvalue) : SerpQuery :=
  {| sq_query := match queryValue rawQuery with
                 | JString s => s
                 | JNull => EmptyString
                 | v => to_string v
                 end;
     sq_researchGoal := researchGoal |}.

Definition serpQueryCache_max : nat := 50.

(** [generateSerpQueries(args)] with the cache as it stands: the
    queries returned, the requests sent to the model, and the cache
    afterwards. *)
Definition generateSerpQueries (a : SerpQueryArgs) (cache : lru (list SerpQuery))
  : list SerpQuery * list string * lru (list SerpQuery) :=
  let cacheKey := SerpCache.cacheKey a in
  match lru_get cacheKey cache with
  | (Some cachedResult, cache') => (cachedResult, [], cache')
  | (None, cache') =>
      let finalPrompt := serpPrompt a in
      let jsonString := default "{}" (callGeminiProConfigurable finalPrompt) in
      let rawQueriesJSON := extractJsonFromText jsonString in
      let serpQueries :=
        match rawQueriesJSON with
        | JArray items =>
            map (toSerpQuery (sa_researchGoal a))
                (JsArray.slice items 0 (numQueries a))
        | _ => []
        end in
      (serpQueries, [finalPrompt],
       lru_set serpQueryCache_max cacheKey serpQueries cache')
  end.

(** A sequence of calls on one cache: the results, in order. *)
Fixpoint calls (cache : lru (list SerpQuery)) (args : list SerpQueryArgs)
  : list (list SerpQuery) :=
  match args with
  | [] => []
  | a :: rest =>
      let '(r, _, cache') := generateSerpQueries a cache in
      r :: calls cache' rest
  end.
End WithModel.

(** A parser that knows two texts, for the examples. *)
Definition tiny_parse (s : string) : option jsvalue :=
  if String.eqb s "{}" then Some (JObject [])
  else if String.eqb s "[]" then Some (JArray [])
  else None.

End SerpQueries.

(* ===================================================================== *)
(** ** Regular expressions of the form [head.*?stop] *)
(* ===================================================================== *)

Module Scan.
Import Js.

(** The line terminators, which [.] does not match unless the flag
    [s] is given (restricted to code units below 256): LF and CR. *)
Definition is_line_terminator (c : ascii) : bool :=
  let n := nat_of_ascii c in (n =? 10)%nat || (n =? 13)%nat.

(** [s] without its first [n] characters. *)
Fixpoint skip_chars (n : nat) (s : string) : string :=
  match n, s with
  | S k, String _ r => skip_chars k r
  | _, _ => s
  end.

(** The first [n] characters of [s]. *)
Fixpoint take_chars (n : nat) (s : string) : string :=
  match n, s with
  | S k, String c r => String c (take_chars k r)
  | _, _ => EmptyString
  end.

(** [.*?stop] at the start of [s]: the length of the match, which ends
    with the first [stop] that only characters matched by [.] come
    before. *)
Fixpoint lazy_until (dotall : bool) (stop : string) (s : string) : option nat :=
  if String.prefix stop s then Some (String.length stop)
  else
    match s with
    | EmptyString => None
    | String c r =>
        if dotall || negb (is_line_terminator c)
        then S <$> lazy_until dotall stop r
        else None
    end.

(** A literal at the start of [s]. *)
Definition literal (x : string) (s : string) : option nat :=
  if String.prefix x s then Some (String.length x) else None.

(** [head.*?stop] at the start of [s]: the length of the match. *)
Definition span (head : string -> option nat) (dotall : bool) (stop : string)
    (s : string) : option nat :=
  n ← head s;
  k ← lazy_until dotall stop (skip_chars n s);
  Some (n + k)%nat.

(** [s.replace(re, '')] for a global [re] given by its matcher [m],
    whose matches are not empty: the matches are found from the left
    and do not overlap.  [skip] counts the characters of the current
    match still to be dropped. *)
Fixpoint remove_matches (m : string -> option nat) (skip : nat) (s : string)
  : string :=
  match s with
  | EmptyString => EmptyString
  | String c r =>
      match skip with
      | S k => remove_matches m k r
      | O =>
          match m s with
          | Some (S n) => remove_matches m n r
          | _ => String c (remove_matches m 0 r)
          end
      end
  end.

(** [Array.from(s.matchAll(re))] for a global [re]: the matched texts. *)
Fixpoint find_matches (m : string -> option nat) (skip : nat) (s : string)
  : list string :=
  match s with
  | EmptyString => []
  | String c r =>
      match skip with
      | S k => find_matches m k r
      | O =>
          match m s with
          | Some (S n) => take_chars (S n) s :: find_matches m n r
          | _ => find_matches m 0 r
          end
      end
  end.

End Scan.

(* ===================================================================== *)
(** ** src/utils/sanitize.ts *)
(* ===================================================================== *)

Module Sanitize.
Import Js Scan.

Definition nl : string := String (ascii_of_nat 10) EmptyString.

(** [Step \d+:] at the start of [s]. *)
Definition step_head (s : string) : option nat :=
  if String.prefix "Step " s then
    let '(ds, rest) := Feedback.span_digits (skip_chars 5 s) in
    match ds, rest with
    | String _ _, String c _ =>
        if (nat_of_ascii c =? 58)%nat then Some (5 + String.length ds + 1)%nat
        else None
    | _, _ => None
    end
  else None.

(** [/Thinking process:.*?\n\n/gs] *)
Definition thinking : string -> option nat :=
  span (literal "Thinking process:") true (nl +:+ nl).
(** [/Outline:.*?\n\n/gs] *)
Definition outline : string -> option nat :=
  span (literal "Outline:") true (nl +:+ nl).
(** [/Step \d+:.*?\n/g] *)
Definition step : string -> option nat := span step_head false nl.
(** [/\[Internal Note:.*?\]/g] *)
Definition internal_note : string -> option nat :=
  span (literal "[Internal Note:") false "]".

Definition sanitizeReportContent (content : string) : string :=
  remove_matches internal_note 0
    (remove_matches step 0
       (remove_matches outline 0
          (remove_matches thinking 0 content))).

End Sanitize.

(* ===================================================================== *)
(** ** src/ai/providers.ts: extractCitations *)
(* ===================================================================== *)

Module Citations.
Import Js Scan.



(** The text of a match of [\[\[(\d+)\]\]] with digits [ds]. *)
Definition bracketed (ds : string) : string := "[[" +:+ ds +:+ "]]".

Record citations := { urls : list string; refs : list string }.


(** What a reference of the text is: [[[], digits, []]], found in it. *)
Definition is_reference (text r : string) : Prop :=
  includes r text = true
  /\ exists ds, r = bracketed ds /\ ds <> EmptyString
     /\ Forall (fun c => Feedback.is_digit c = true) (list_ascii_of_string ds).


End Citations.

(* ===================================================================== *)
(** ** src/deep-research.ts: processGeminiResponse *)
(* ===================================================================== *)

Module GeminiResponse.
Import Js Scan Research.

(** [interface GeminiItem] *)
Record GeminiItem := {
  learning : option string;
  learnings : option (list string);
  url : option string
}.

(** The filter on [item.learning]: not empty, without
    [INTERNAL PROCESS:], not starting with [OUTLINE:] or [Step n:]. *)
Definition keeps (l : string) : bool :=
  truthy l
  && negb (includes "INTERNAL PROCESS:" l)
  && negb (String.prefix "OUTLINE:" l)
  && negb (bool_decide (is_Some (Sanitize.step_head l))).

(** What one turn of [responseData.items.forEach] pushes. *)
Definition item_learnings (item : GeminiItem) : list string :=
  match learning item with
  | Some l => if keeps l then [trim l] else []
  | None => []
  end
  ++ default [] (learnings item).

Definition item_urls (item : GeminiItem) : list string :=
  match url item with
  | Some u => if truthy u then [trim u] else []
  | None => []
  end.

(** [/\[.*?\]/g] *)
Definition bracket_span : string -> option nat := span (literal "[") false "]".

(** [l.replace(/\[.*?\]/g, '').trim()] *)
Definition sanitize_learning (l : string) : string :=
  trim (remove_matches bracket_span 0 l).

(** The citation of one match [m] of [\[\[\d+\]\]]: its context is
    [text.split(m)[1]?.split('.')[0] || '']. *)
Definition citation_of (text ds : string) : Citation :=
  let m := Citations.bracketed ds in
  {| reference := m;
     context := Some (default EmptyString
                        (split m text !! 1%nat ≫= fun after => head (split "." after))) |}.

(** What [JSON.parse] makes of the answer, read at the declared type
    [GeminiResponse]. *)
Inductive answer :=
| NoJson
    (* [JSON.parse] throws: [safeParseJSON] gives [{ items: [] }] *)
| Response (items : option (list GeminiItem))
    (* [items] is an array of [GeminiItem], or no array at all *)
| Other.
    (* [null], or fields of other types than the declared ones: not
       modelled, the code may throw a [TypeError] there *)

Section WithParser.
Variable JSON_parse : string -> answer.

(** The result for the items that were read; without an array of
    items [sanitizedLearnings] stays undefined and the empty
    [learnings] is returned. *)
Definition result_of (geminiResponseText : string)
    (items : option (list GeminiItem)) : ProcessedGeminiResponse :=
  let learnings := concat (map item_learnings (default [] items)) in
  let urls := concat (map item_urls (default [] items)) in
  let sanitizedLearnings :=
    filter (fun l => (0 < String.length l)%nat) (map sanitize_learning learnings) in
  {| g_analysis := EmptyString;
     g_learnings := take 10 sanitizedLearnings;
     g_urls := JsArray.set_of urls;
     g_citations := map (citation_of geminiResponseText)
                        (Feedback.references geminiResponseText) |}.

(** [None] stands for the answers that are not modelled. *)
Definition processGeminiResponse (geminiResponseText : string)
  : option ProcessedGeminiResponse :=
  match JSON_parse geminiResponseText with
  | NoJson => Some (result_of geminiResponseText (Some []))
  | Response items => Some (result_of geminiResponseText items)
  | Other => None
  end.
End WithParser.

(** No bracketed span is left in [l]. *)
Definition bracket_free (l : string) : Prop := find_matches bracket_span 0 l = [].

(** [.*?\]] at the start of a text. *)
Definition closes : string -> option nat := lazy_until false "]".

(** A learning as [processGeminiResponse] lets it through. *)
Definition clean (l : string) : Prop :=
  l <> EmptyString /\ trim l = l /\ bracket_free l.

End GeminiResponse.

(* ===================================================================== *)
(** ** src/ai/providers.ts: clampNumber, generateBatch, trimPrompt *)
(* ===================================================================== *)

Module Providers.
Import Js.

(** [parseInt(s, 10)]: white space, a sign, then the longest run of
    digits; [None] is NaN.  The value is exact up to 2^53, the only
    range that the clamps below tell apart. *)
Definition parseInt (s : string) : option Z :=
  let t := trimStart s in
  let '(sign, u) :=
    match t with
    | String c r =>
        if (nat_of_ascii c =? 45)%nat then (-1, r)
        else if (nat_of_ascii c =? 43)%nat then (1, r)
        else (1, t)
    | EmptyString => (1, t)
    end in
  match Feedback.span_digits u with
  | (EmptyString, _) => None
  | (ds, _) => Some (sign * Feedback.parseInt ds)
  end.

(** [clampNumber(n, min, max)] *)
Definition clampNumber (n : option Z) (min max : Z) : Z :=
  match n with
  | None => min
  | Some v => Z.max min (Z.min max v)
  end.

(** [process.env.NAME || fallback] *)
Definition env_or (value : option string) (fallback : string) : string :=
  match value with
  | Some v => if truthy v then v else fallback
  | None => fallback
  end.

(** The default of the parameter [concurrency] of [generateBatch] and
    [generateBatchWithTools], from [process.env.CONCURRENCY_LIMIT]. *)
Definition concurrency (CONCURRENCY_LIMIT : option string) : Z :=
  clampNumber (parseInt (env_or CONCURRENCY_LIMIT "5")) 1 64.

Section GenerateBatch.
Context {P W E : Type}.
Variable CONCURRENCY_LIMIT : option string.
(** How [generateContentInternal(p, extra)] settles for a prompt. *)
Variable generateContentInternal : P -> E + W.

(** [generateBatch(prompts, extra)] after the workers of [schedule]
    have settled; a prompt is never [undefined]. *)
Definition generateBatch (prompts : list P) (schedule : list nat)
  : @Pool.state W E :=
  Pool.settle_in_order (map Some prompts) (concurrency CONCURRENCY_LIMIT)
    (fun p _ => generateContentInternal p) schedule.
End GenerateBatch.

Section TrimPrompt.
(** [countTokens] for the one user message that holds the prompt;
    [None] when the request fails. *)
Variable countTokens : string -> option Z.

Definition trimPrompt (prompt : string) (maxTokens : Z) : option string :=
  if negb (truthy prompt) then Some EmptyString
  else
    tokenLength ← countTokens prompt;
    if tokenLength <=? maxTokens then Some prompt
    else
      let length := Z.of_nat (String.length prompt) in
      let overflowTokens := tokenLength - maxTokens in
      let approxCharsPerToken := Z.max 2 (length / Z.max 1 tokenLength) in
      let sliceLen := Z.max 140 (length - overflowTokens * approxCharsPerToken) in
      Some (slice prompt 0 sliceLen).
End TrimPrompt.

End Providers.

(* ===================================================================== *)
(** ** src/deep-research.ts: writeFinalReport *)
(* ===================================================================== *)

Module Report.
Import Js SerpCache SerpQueries.

(** The requests of the four helpers and the file written at the end,
    in the order they happen. *)
Inductive event :=
| EOutline (prompt : string) (learnings : list string)
| EReport (outline : string) (learnings : list string)
| ESummary (learnings : list string)
| ETitle (prompt : string) (learnings : list string)
| ESaved (report : string).

(** [reportCache], an [LRUCache] with [max: 20], and what has happened
    so far. *)
Record world := { reportCache : lru string; events : list event }.

Definition reportCache_max : nat := 20.

(** [xs.map(x => `- ${x}`).join('\n')] *)
Definition bullets (xs : list string) : string :=
  join Sanitize.nl (map (fun x => "- " +:+ x) xs).

Section WriteFinalReport.
(** What the helpers resolve with; each of them catches its own
    failures and answers with a fixed text instead. *)
Variable generateOutline : string -> list string -> string.
Variable writeReportFromOutline : string -> list string -> string.
Variable generateSummary : list string -> string.
Variable generateTitle : string -> list string -> string.

(** [JSON.stringify({ prompt, learningsHash, visitedUrlsHash })] *)
Definition reportKey (prompt : string) (learnings visitedUrls : list string)
  : string :=
  stringify [("prompt", Some (JStr prompt));
             ("learningsHash", Some (JStr (learningsHash learnings)));
             ("visitedUrlsHash", Some (JStr (learningsHash visitedUrls)))].

Definition finalReport (title summary outline prompt report : string)
    (learnings visitedUrls : list string) : string :=
  let nl := Sanitize.nl in
  nl +:+ "# " +:+ title +:+ nl +:+ nl
  +:+ "## Abstract" +:+ nl +:+ summary +:+ nl +:+ nl
  +:+ "## Table of Contents" +:+ nl +:+ outline +:+ nl +:+ nl
  +:+ "## Introduction" +:+ nl
  +:+ "This report investigates the query: " +:+ String quote prompt
  +:+ String quote " using grounded web research with Gemini. The following sections synthesize findings, with citations inline where provided."
  +:+ nl +:+ nl
  +:+ "## Body" +:+ nl +:+ report +:+ nl +:+ nl
  +:+ "## Methodology" +:+ nl
  +:+ "Semantic chunking, grounded generation (Google Search tool), and schema-guided synthesis. Learnings were extracted from source content, deduplicated, and compiled."
  +:+ nl +:+ nl
  +:+ "## Limitations" +:+ nl
  +:+ "Automated extraction may miss nuance or context from sources. Some links may be unavailable or rate-limited at retrieval time."
  +:+ nl +:+ nl
  +:+ "## Key Learnings" +:+ nl +:+ bullets learnings +:+ nl +:+ nl
  +:+ "## References" +:+ nl +:+ bullets visitedUrls +:+ nl.

Definition writeFinalReport (prompt : string) (learnings visitedUrls : list string)
    (w : world) : string * world :=
  let cacheKey := reportKey prompt learnings visitedUrls in
  match lru_get cacheKey (reportCache w) with
  | (Some cachedReport, cache) =>
      (cachedReport, {| reportCache := cache; events := events w |})
  | (None, cache) =>
      let outline := generateOutline prompt learnings in
      let report := writeReportFromOutline outline learnings in
      let summary := generateSummary learnings in
      let title := generateTitle prompt learnings in
      let finalReportContent :=
        finalReport title summary outline prompt report learnings visitedUrls in
      (finalReportContent,
       {| reportCache := lru_set reportCache_max cacheKey finalReportContent cache;
          events := events w
                    ++ [EOutline prompt learnings; EReport outline learnings;
                        ESummary learnings; ETitle prompt learnings;
                        ESaved finalReportContent] |})
  end.

End WriteFinalReport.

Definition no_reports : world := {| reportCache := []; events := [] |}.

End Report.

(* ===================================================================== *)
(** ** src/deep-research.ts: conductResearch *)
(* ===================================================================== *)

Module ConductResearch.
Import Js Research.

(** The result of [conductResearch], its arrays by value. *)
Record ResearchResult := {
  content : string;
  sources : list string;
  methodology : string;
  limitations : string;
  citations : list Citation;
  learnings : list string;
  visitedUrls : list string;
  firecrawlResults : SearchResponse;
  analysis : string
}.

(** How the promise of [conductResearch] stands: a rejection carries
    the reason of the failed request, or nothing for an exception of
    the code itself. *)
Inductive settled (E : Type) :=
| Unsettled
| Rejects (reason : option E)
| Returns (r : ResearchResult).
Arguments Unsettled {E}.
Arguments Rejects {E} reason.
Arguments Returns {E} r.

(** [(r.match(/\[\[\d+\]\]/g) || []).map(ref => ({ reference: ref }))] *)
Definition citations_of (r : string) : list Citation :=
  map (fun ds => {| reference := Citations.bracketed ds; context := None |})
      (Feedback.references r).

Section ConductResearch.
Context {E : Type}.
Variable CONCURRENCY_LIMIT : option string.
(** [generateContentInternal] for the one user message that holds a
    chunk: the text of the answer, or the reason of the rejection. *)
Variable generateContentInternal : string -> E + string.

(** [chunks.slice(0, Math.max(1, depth))] of the chunks of the query. *)
Definition limitedChunks (splitter : Splitter.TextSplitterParams)
    (query : string) (depth : Z) : list string :=
  JsArray.slice (SplitterVariants.Semantic_splitText splitter query)
                0 (Z.max 1 depth).

(** [conductResearch(query, depth)] once the requests of [schedule]
    have settled. *)
Definition conductResearch (query : string) (depth : Z) (schedule : list nat)
  : settled E :=
  match SplitterVariants.Semantic_new None None None with
  | None => Rejects None
  | Some splitter =>
      let st := Providers.generateBatch CONCURRENCY_LIMIT generateContentInternal
                  (limitedChunks splitter query depth) schedule in
      match Pool.outcome st with
      | Pool.Pending => Unsettled
      | Pool.Rejected e => Rejects (Some e)
      | Pool.Resolved batch =>
          (* a hole of [batch] would have no [response] to read *)
          match mapM id batch with
          | None => Rejects None
          | Some results =>
              Returns
                {| content := join (Sanitize.nl +:+ Sanitize.nl) results;
                   sources := [];
                   methodology := "Semantic chunking with Gemini Flash 2.0";
                   limitations :=
                     "Current implementation focuses on text analysis only";
                   citations := concat (map citations_of results);
                   learnings := [];
                   visitedUrls := [];
                   firecrawlResults :=
                     {| data := Some [];
                        metadata := Some (false, "Firecrawl disabled") |};
                   analysis := EmptyString |}
          end
      end
  end.
End ConductResearch.

(** The splitter that [new SemanticTextSplitter()] builds. *)
Definition default_splitter : Splitter.TextSplitterParams :=
  {| Splitter.chunkSize := 50; Splitter.chunkOverlap := 10;
     Splitter.separators := Splitter.default_separators |}.

(** The chunks that are sent: the first [max(1, depth)] of the query. *)
Definition requested (query : string) (depth : Z) : list string :=
  take (Z.to_nat (Z.max 1 depth))
       (SplitterVariants.Semantic_splitText default_splitter query).

End ConductResearch.

(* ===================================================================== *)
(** * Properties *)
(* ===================================================================== *)

(** ** Lengths of the string primitives *)

Module JsFacts.
Import Js.

Lemma length_trimStart s : (String.length (trimStart s) <= String.length s)%nat.
Proof.
  induction s as [|c r IH]; simpl; [lia|].
  destruct (is_space c); simpl; lia.
Qed.

Lemma length_trimEnd s : (String.length (trimEnd s) <= String.length s)%nat.
Proof.
  induction s as [|c r IH]; simpl; [lia|].
  destruct (is_space c && negb (truthy (trimEnd r))); simpl; lia.
Qed.

Lemma length_trim s : (String.length (trim s) <= String.length s)%nat.
Proof.
  unfold trim.
  pose proof (length_trimEnd (trimStart s)).
  pose proof (length_trimStart s). lia.
Qed.

Lemma length_collapse_from b s :
  (String.length (collapse_from b s) <= String.length s)%nat.
Proof.
  revert b; induction s as [|c r IH]; intros b; simpl; [lia|].
  pose proof (IH true); pose proof (IH false).
  destruct (is_space c); [destruct b|]; simpl; lia.
Qed.

Lemma length_collapse s : (String.length (collapse s) <= String.length s)%nat.
Proof. apply length_collapse_from. Qed.

Lemma length_substring n m s : (String.length (String.substring n m s) <= m)%nat.
Proof.
  revert n m; induction s as [|c r IH]; intros [|n] [|m]; simpl; try lia.
  - specialize (IH 0%nat m). lia.
  - apply (IH n 0%nat).
  - apply (IH n (S m)).
Qed.

(** A slice that starts at a valid index and stops at most [target]
    further on is at most [target] long. *)
Lemma length_slice_window s i target :
  0 <= i -> 0 <= target ->
  Z.of_nat (String.length
              (slice s i (Z.min (i + target) (Z.of_nat (String.length s)))))
    <= target.
Proof.
  intros Hi Ht. unfold slice.
  set (len := Z.of_nat (String.length s)).
  set (from := rel_index len i).
  set (to := rel_index len (Z.min (i + target) len)).
  pose proof (length_substring (Z.to_nat from)
                (Z.to_nat (Z.max (to - from) 0)) s) as Hsub.
  assert (Hlen : 0 <= len) by (unfold len; lia).
  assert (to - from <= target); [|lia].
  unfold to, from, rel_index.
  destruct (Z.ltb_spec i 0); [lia|].
  destruct (Z.ltb_spec (Z.min (i + target) len) 0); lia.
Qed.

Lemma truthy_true s : truthy s = true <-> s <> EmptyString.
Proof. destruct s; simpl; split; congruence. Qed.

End JsFacts.

(** ** The structural splitter keeps its size bound *)

Module SplitterFacts.
Import Js JsFacts Splitter.

Lemma strlen_trim s : strlen (trim s) <= strlen s.
Proof. unfold strlen. pose proof (length_trim s). lia. Qed.

Lemma hardCut_fits fuel target step trimmed i :
  0 <= target -> 1 <= step -> 0 <= i ->
  Forall (fits target) (hardCut fuel target step trimmed i).
Proof.
  intros Ht Hs. revert i.
  induction fuel as [|f IH]; intros i Hi; simpl; [constructor|].
  destruct (i <? strlen trimmed); [|constructor].
  apply Forall_app; split; [|apply IH; lia].
  destruct (truthy _) eqn:Hp; constructor; [|constructor].
  split; [|exact Hp].
  etransitivity; [apply strlen_trim|].
  apply length_slice_window; assumption.
Qed.

Lemma merge_part_inv target deeper st part :
  (forall p, Forall (fits target) (deeper p)) ->
  0 <= target ->
  merge_inv target st -> merge_inv target (merge_part target deeper st part).
Proof.
  intros Hdeep Ht [Hc Hb]. destruct st as [chunks buffer]; simpl in *.
  unfold merge_part.
  destruct (Z.leb_spec (strlen (if truthy buffer
                                then trim (buffer +:+ " " +:+ part)
                                else part)) target) as [Hle|Hgt].
  - split; simpl; assumption.
  - assert (Hc' : Forall (fits target)
                    (if truthy buffer then chunks ++ [buffer] else chunks)).
    { destruct (truthy buffer) eqn:Hb'; [|assumption].
      apply Forall_app; split; [assumption|].
      constructor; [split; assumption|constructor]. }
    destruct (Z.gtb_spec (strlen part) target).
    + split; simpl; [|unfold strlen; simpl; lia].
      apply Forall_app; split; [assumption|apply Hdeep].
    + split; simpl; [assumption|lia].
Qed.

Lemma fold_merge_inv target deeper parts st :
  (forall p, Forall (fits target) (deeper p)) ->
  0 <= target ->
  merge_inv target st ->
  merge_inv target (fold_left (merge_part target deeper) parts st).
Proof.
  intros Hdeep Ht. revert st.
  induction parts as [|p ps IH]; intros st Hst; simpl; [assumption|].
  apply IH, merge_part_inv; assumption.
Qed.

Lemma splitRecursive_from_fits target step seps t :
  0 <= target -> 1 <= step ->
  Forall (fits target) (splitRecursive_from target step seps t).
Proof.
  intros Ht Hs. revert t.
  induction seps as [|sep rest IH]; intros t; simpl.
  - destruct (truthy (trim t)) eqn:Htr; simpl; [|constructor].
    destruct (Z.leb_spec (strlen (trim t)) target).
    + constructor; [split; assumption|constructor].
    + apply hardCut_fits; lia.
  - destruct (truthy (trim t)) eqn:Htr; simpl; [|constructor].
    destruct (Z.leb_spec (strlen (trim t)) target).
    { constructor; [split; assumption|constructor]. }
    destruct (truthy sep); simpl; [|apply hardCut_fits; lia].
    pose proof (fold_merge_inv target (splitRecursive_from target step rest)
                  (filter (fun p => truthy p = true)
                     (map trim (split sep (trim t))))
                  ([], EmptyString) IH Ht) as Hinv.
    destruct (fold_left _ _ _) as [chunks buffer].
    destruct Hinv as [Hc Hb]; [split; simpl; [constructor|unfold strlen; simpl; lia]|].
    simpl in *.
    destruct (truthy buffer) eqn:Hb'; [|assumption].
    apply Forall_app; split; [assumption|].
    constructor; [split; assumption|constructor].
Qed.

Lemma strlen_normalize c : strlen (normalize c) <= strlen c.
Proof.
  unfold normalize, strlen.
  pose proof (length_trim (collapse c)).
  pose proof (length_collapse c). lia.
Qed.

End SplitterFacts.

Module SplitterTheorems.
Import Js JsFacts Splitter SplitterFacts.

(** The hard-cut loop has reached its exit test when the fuel is spent:
    more fuel does not change the result. *)
Lemma hardCut_fuel_enough fuel target step trimmed i :
  1 <= step -> strlen trimmed - i <= Z.of_nat fuel ->
  hardCut (S fuel) target step trimmed i = hardCut fuel target step trimmed i.
Proof.
  intros Hs. revert i.
  induction fuel as [|f IH]; intros i Hf.
  - simpl. destruct (Z.ltb_spec i (strlen trimmed)); [lia|reflexivity].
  - change (hardCut (S (S f)) target step trimmed i)
      with (if i <? strlen trimmed then
              (if truthy (trim (slice trimmed i (Z.min (i + target) (strlen trimmed))))
               then [trim (slice trimmed i (Z.min (i + target) (strlen trimmed)))]
               else []) ++ hardCut (S f) target step trimmed (i + step)
            else []).
    rewrite IH by lia. reflexivity.
Qed.

(** C4, as stated, fails for a negative chunk size: the constructor
    accepts [chunkSize = -1, chunkOverlap = -2], and on ["ab"] the hard
    cut [slice(0, -1)] yields the chunk ["a"], longer than [-1]. *)
Lemma splitText_negative_size_counterexample :
  exists sp,
    new (Some (-1)) (Some (-2)) None = Some sp /\
    chunkOverlap sp < chunkSize sp /\
    splitText sp "ab" = ["a"] /\
    ~ Forall (fun c => strlen (normalize c) <= chunkSize sp) (splitText sp "ab").
Proof.
  eexists. split; [reflexivity|].
  split; [simpl; lia|].
  split; [reflexivity|].
  intros H. vm_compute in H. inversion H as [|? ? Hc _]; subst.
  apply Hc. reflexivity.
Qed.

(** C4 (amended): for integer sizes, a non-negative [chunkSize] and
    [chunkOverlap < chunkSize], every chunk [splitText] returns is
    non-empty and at most [chunkSize] long, as returned and after
    white-space normalisation. *)
Theorem splitText_chunks_fit sp text :
  0 <= chunkSize sp -> chunkOverlap sp < chunkSize sp ->
  Forall (fun c => strlen c <= chunkSize sp
                   /\ strlen (normalize c) <= chunkSize sp
                   /\ c <> EmptyString)
         (splitText sp text).
Proof.
  intros Hsize _. unfold splitText.
  destruct (truthy text); simpl; [|constructor].
  apply Forall_forall. intros c Hin.
  apply list_elem_of_filter in Hin as [Htruthy Hin].
  apply list_elem_of_fmap in Hin as (c0 & -> & Hin0).
  pose proof (splitRecursive_from_fits (chunkSize sp)
                (Z.max 1 (chunkSize sp - chunkOverlap sp))
                (drop 0 (separators sp)) text Hsize ltac:(lia)) as Hall.
  rewrite Forall_forall in Hall.
  destruct (Hall c0) as [Hlen _]; [exact Hin0|].
  pose proof (strlen_normalize c0).
  pose proof (strlen_normalize (normalize c0)).
  repeat split; [lia|lia|].
  apply truthy_true; exact Htruthy.
Qed.

Lemma splitText_chunks_fit_witness :
  let sp := {| chunkSize := 10; chunkOverlap := 2;
               separators := default_separators |} in
  0 <= chunkSize sp /\ chunkOverlap sp < chunkSize sp /\
  Forall (fun c => strlen c <= chunkSize sp
                   /\ strlen (normalize c) <= chunkSize sp
                   /\ c <> EmptyString)
         (splitText sp "hello world. this is a test of abcdefghijklmnopqrstuvwxyz").
Proof.
  intros sp.
  assert (H1 : 0 <= chunkSize sp) by (simpl; lia).
  assert (H2 : chunkOverlap sp < chunkSize sp) by (simpl; lia).
  split; [exact H1|]. split; [exact H2|].
  exact (splitText_chunks_fit sp _ H1 H2).
Defined.

End SplitterTheorems.

Module SemanticTheorems.
Import Js Semantic.

Section WithEmbeddings.
Variable generateTextEmbedding : string -> option (list Q).
Variable cosineSimilarity : list Q -> list Q -> option Q.
Variable tokenCount : string -> Z.

Let splitter_of := SemanticTextSplitter_TextSplitter
                     generateTextEmbedding cosineSimilarity tokenCount.

(** An embedding request that rejects makes [splitText] reject. *)
Lemma splitText_rejects self text s :
  truthy (trim text) = true ->
  (1 < length (sentences_of text))%nat ->
  s ∈ sentences_of text ->
  generateTextEmbedding s = None ->
  splitText generateTextEmbedding cosineSimilarity tokenCount self text = None.
Proof.
  intros Hblank Hmany Hin Hfail. unfold splitText.
  rewrite Hblank. simpl. fold (sentences_of text).
  destruct (Nat.leb_spec (length (sentences_of text)) 1); [lia|].
  destruct (mapM generateTextEmbedding (sentences_of text)) as [embs|] eqn:Hm;
    [|reflexivity].
  assert (Hsome : is_Some (mapM generateTextEmbedding (sentences_of text)))
    by (rewrite Hm; eauto).
  apply mapM_is_Some in Hsome.
  rewrite Forall_forall in Hsome.
  destruct (Hsome s Hin) as [v Hv]. simpl in Hv. congruence.
Qed.

(** With at most one sentence no embedding is requested and the text
    goes to the structural splitter. *)
Lemma splitText_few_sentences self text rc :
  truthy (trim text) = true ->
  (length (sentences_of text) <= 1)%nat ->
  Splitter.new (Some (chunkSize self)) (Some (chunkOverlap self)) None = Some rc ->
  splitText generateTextEmbedding cosineSimilarity tokenCount self text
  = Some (Splitter.splitText rc (normalize_newlines text)).
Proof.
  intros Hblank Hfew Hrc. unfold splitText.
  rewrite Hblank. simpl. fold (sentences_of text).
  destruct (Nat.leb_spec (length (sentences_of text)) 1); [|lia].
  rewrite Hrc. reflexivity.
Qed.

(** C8 (amended): when the embedding capability rejects for one of
    the sentences of a text with more than one sentence,
    [semanticChunking] does not fail: it returns the input text
    itself as the only chunk. *)
Theorem semanticChunking_embedding_failure self text s :
  truthy (trim text) = true ->
  (1 < length (sentences_of text))%nat ->
  s ∈ sentences_of text ->
  generateTextEmbedding s = None ->
  semanticChunking (H := splitter_of) self text = [text].
Proof.
  intros Hblank Hmany Hin Hfail. unfold semanticChunking. simpl.
  rewrite (splitText_rejects self text s Hblank Hmany Hin Hfail).
  reflexivity.
Qed.
End WithEmbeddings.

(** Whatever splitter is in effect, a rejected [splitText] is answered
    with the unsplit text. *)
Lemma semanticChunking_catch {S} `{TextSplitter S} (sp : S) text :
  splitTextOf sp text = None -> semanticChunking sp text = [text].
Proof. unfold semanticChunking. intros ->. reflexivity. Qed.

Lemma semanticChunking_embedding_failure_witness :
  let text := "Hi.  Yo." in
  let self := default_splitter None in
  truthy (trim text) = true /\
  (1 < length (sentences_of text))%nat /\
  "Yo." ∈ sentences_of text /\
  failing_embedding "Yo." = None /\
  semanticChunking
    (H := SemanticTextSplitter_TextSplitter failing_embedding no_similarity char_count)
    self text = [text].
Proof.
  intros text self.
  assert (H1 : truthy (trim text) = true) by reflexivity.
  assert (H2 : (1 < length (sentences_of text))%nat) by (vm_compute; lia).
  assert (H3 : "Yo." ∈ sentences_of text)
    by (apply list_elem_of_In; vm_compute; auto).
  assert (H4 : failing_embedding "Yo." = None) by reflexivity.
  repeat (split; [assumption|]).
  exact (semanticChunking_embedding_failure failing_embedding no_similarity
           char_count self text "Yo." H1 H2 H3 H4).
Defined.

(** C8, as stated, fails: with the embedding capability down, the text
    ["Hi.  Yo."] comes back whole, while the structural splitter
    collapses the double space. *)
Lemma semanticChunking_not_structural_counterexample :
  let text := "Hi.  Yo." in
  let self := default_splitter None in
  exists rc,
    Splitter.new (Some (chunkSize self)) (Some (chunkOverlap self)) None = Some rc /\
    splitText failing_embedding no_similarity char_count self text = None /\
    semanticChunking
      (H := SemanticTextSplitter_TextSplitter failing_embedding no_similarity char_count)
      self text = ["Hi.  Yo."] /\
    Splitter.splitText rc text = ["Hi. Yo."] /\
    semanticChunking
      (H := SemanticTextSplitter_TextSplitter failing_embedding no_similarity char_count)
      self text <> Splitter.splitText rc text.
Proof.
  intros text self. eexists.
  split; [reflexivity|].
  split; [reflexivity|].
  split; [reflexivity|].
  split; [reflexivity|].
  vm_compute. discriminate.
Qed.

End SemanticTheorems.

(** ** The concurrency pool *)

Module PoolFacts.
Import Pool.

Section RunWithConcurrency.
Context {T R E : Type}.
Variable items : list (option T).
Variable limit : Z.
Variable worker : T -> nat -> E + R.

Abbreviation state := (@state R E).
Abbreviation launch := (launch items limit).
Abbreviation next := (next items limit).
Abbreviation complete := (complete items limit worker).
Abbreviation reachable := (reachable items limit worker).
Abbreviation inv := (@inv T R E items worker).
Abbreviation saturated := (@saturated T R E items limit).
Abbreviation trace_of := (@trace_of T R E worker).

Lemma launch_inv fuel st : inv st -> inv (launch fuel st).
Proof.
  revert st. induction fuel as [|f IH]; intros st Hinv; simpl; [assumption|].
  destruct ((inFlight st <? limit) && (index st <? length items)%nat) eqn:Hc;
    [|assumption].
  apply andb_true_iff in Hc as [_ Hlt]. apply Nat.ltb_lt in Hlt.
  destruct Hinv as [Hfl Hidx Hlen Hnd Hrun Hdone Hrej Hres].
  destruct (items !! index st) as [[it|]|] eqn:Hit; apply IH.
  - constructor; simpl.
    + rewrite length_app. simpl. lia.
    + lia.
    + assumption.
    + apply NoDup_app. split; [assumption|]. split; [|apply NoDup_singleton].
      intros j Hj Hj'. apply list_elem_of_singleton in Hj'. subst.
      apply Hrun in Hj as [? _]. lia.
    + intros j Hj. apply elem_of_app in Hj as [Hj|Hj].
      * apply Hrun in Hj as [? ?]. split; [lia|assumption].
      * apply list_elem_of_singleton in Hj. subst. split; [lia|eauto].
    + intros j it' Hj Hnot Hit'.
      assert (j <> index st)
        by (intros ->; apply Hnot, elem_of_app; right; apply list_elem_of_singleton; reflexivity).
      assert (j ∉ running st) by (intros ?; apply Hnot, elem_of_app; auto).
      specialize (Hdone j it' ltac:(lia) ltac:(assumption) Hit').
      unfold trace_of in *. simpl. exact Hdone.
    + assumption.
    + intros rs Hrs. specialize (Hres rs Hrs). lia.
  - constructor; simpl.
    + lia.
    + lia.
    + assumption.
    + assumption.
    + intros j Hj. apply Hrun in Hj as [? ?]. split; [lia|assumption].
    + intros j it' Hj Hnot Hit'.
      assert (j <> index st) by (intros ->; congruence).
      specialize (Hdone j it' ltac:(lia) Hnot Hit').
      unfold trace_of in *. simpl. exact Hdone.
    + assumption.
    + intros rs Hrs. specialize (Hres rs Hrs). lia.
  - apply lookup_ge_None in Hit. lia.
Qed.

Lemma launch_saturated fuel st :
  (length items <= index st + fuel)%nat -> saturated (launch fuel st).
Proof.
  revert st. induction fuel as [|f IH]; intros st Hf; simpl.
  - unfold saturated. apply andb_false_iff. right. apply Nat.ltb_ge. lia.
  - destruct ((inFlight st <? limit) && (index st <? length items)%nat) eqn:Hc;
      [|exact Hc].
    destruct (items !! index st) as [[it|]|]; apply IH; simpl; lia.
Qed.

Lemma settle_rejected_inv st e j it :
  inv st -> running st <> [] ->
  items !! j = Some (Some it) -> worker it j = inl e ->
  inv (settle (Rejected e) st)
  /\ exists e', outcome (settle (Rejected e) st) = Rejected e'.
Proof.
  intros Hinv Hrun Hit Hw. unfold settle.
  destruct (outcome st) as [|rs|e0] eqn:Ho.
  - split; [|simpl; eauto].
    destruct Hinv as [Hfl Hidx Hlen Hnd Hrn Hdone Hrej Hres].
    constructor; simpl; try assumption.
    + intros j' it' Hj' Hnot Hit'. specialize (Hdone j' it' Hj' Hnot Hit').
      unfold trace_of in *. simpl. destruct (worker it' j'); [eauto|assumption].
    + intros e1 [= <-]. eauto.
    + intros rs [=].
  - destruct (inv_resolved _ _ _ Hinv rs Ho) as (_ & Hnil & _). contradiction.
  - split; [assumption|eauto].
Qed.

Lemma next_inv st : inv st -> inv (next st).
Proof.
  intros Hinv. unfold next.
  destruct ((length items <=? index st)%nat && (inFlight st =? 0)) eqn:Hc;
    [|apply launch_inv; assumption].
  apply andb_true_iff in Hc as [Hge Hz].
  apply Nat.leb_le in Hge. apply Z.eqb_eq in Hz.
  unfold settle. destruct (outcome st) eqn:Ho; [|assumption|assumption].
  pose proof Hinv as [Hfl Hidx Hlen Hnd Hrn Hdone Hrej Hres].
  assert (Hnil : running st = [])
    by (destruct (running st); [reflexivity|simpl in Hfl; lia]).
  constructor; simpl; try assumption.
  - intros j it Hj Hnot Hit. specialize (Hdone j it Hj Hnot Hit).
    unfold trace_of in *. simpl. destruct (worker it j); [|assumption].
    destruct Hdone as [e' He']. congruence.
  - intros e [=].
  - intros rs [= <-]. repeat split; [assumption|lia].
Qed.

Lemma next_saturated st : inv st -> saturated (next st).
Proof.
  intros Hinv. unfold next.
  destruct ((length items <=? index st)%nat && (inFlight st =? 0)) eqn:Hc.
  - apply andb_true_iff in Hc as [Hge _]. apply Nat.leb_le in Hge.
    unfold saturated, settle.
    destruct (outcome st); simpl; apply andb_false_iff; right;
      apply Nat.ltb_ge; lia.
  - apply launch_saturated. pose proof (inv_index _ _ _ Hinv). lia.
Qed.

Lemma length_filter_remove (l : list nat) i :
  NoDup l -> i ∈ l ->
  length (filter (fun j => j <> i) l) = (length l - 1)%nat.
Proof.
  induction 1 as [|x l Hx Hnd IH]; intros Hin; [inversion Hin|].
  rewrite filter_cons. destruct (decide (x <> i)) as [Hne|Heq].
  - simpl. apply elem_of_cons in Hin as [->|Hin]; [contradiction|].
    rewrite IH by assumption.
    destruct l; [inversion Hin|simpl; lia].
  - assert (x = i) by (destruct (decide (x = i)); [assumption|contradiction]).
    subst. simpl. rewrite Nat.sub_0_r.
    f_equal. clear IH Hin Hnd Heq.
    induction l as [|y l IHl]; [reflexivity|].
    rewrite filter_cons. apply not_elem_of_cons in Hx as [Hy Hx].
    destruct (decide (y <> i)) as [|Hn]; [|exfalso; apply Hn; congruence].
    f_equal. apply IHl. assumption.
Qed.

Lemma settle_same (st : state) (p : @promise R E) :
  running (settle p st) = running st
  /\ index (settle p st) = index st
  /\ inFlight (settle p st) = inFlight st
  /\ results (settle p st) = results st.
Proof. unfold settle; destruct (outcome st); simpl; auto. Qed.

(** The state handed to [next()] by the [finally] handler. *)
Lemma handlers_inv st i it :
  inv st -> i ∈ running st -> items !! i = Some (Some it) ->
  inv (handlers worker it i st).
Proof.
  intros Hinv Hin Hit.
  pose proof Hinv as [Hfl Hidx Hlen Hnd Hrn Hdone Hrej Hres].
  destruct (Hrn i Hin) as [Hlt _].
  unfold handlers.
  assert (Hne : running st <> []) by (intros Hnil; rewrite Hnil in Hin; inversion Hin).
  destruct (worker it i) as [e|r] eqn:Hw.
  - destruct (settle_rejected_inv st e i it Hinv Hne Hit Hw) as [Hinv' [e' He']].
    destruct (settle_same st (Rejected e)) as (Hr1 & Hr2 & Hr3 & Hr4).
    destruct Hinv' as [Hfl' Hidx' Hlen' Hnd' Hrn' Hdone' Hrej' Hres'].
    constructor; simpl; rewrite ?Hr1, ?Hr2, ?Hr3, ?Hr4.
    + rewrite length_filter_remove by assumption.
      destruct (running st); [contradiction|simpl in *; lia].
    + assumption.
    + assumption.
    + apply NoDup_filter. assumption.
    + intros j Hj. apply list_elem_of_filter in Hj as [_ Hj]. auto.
    + intros j it' Hj Hnot Hit'.
      destruct (decide (j = i)) as [->|Hji].
      * assert (it' = it) by congruence. subst.
        unfold trace_of. rewrite Hw. simpl. eauto.
      * assert (Hnr : j ∉ running st)
          by (intros ?; apply Hnot, list_elem_of_filter; auto).
        rewrite <- Hr1 in Hnr. rewrite <- Hr2 in Hj.
        specialize (Hdone' j it' Hj Hnr Hit').
        unfold trace_of in *. simpl. rewrite ?Hr4 in Hdone'. exact Hdone'.
    + assumption.
    + intros rs Hrs. rewrite He' in Hrs. discriminate.
  - constructor; simpl.
    + rewrite length_filter_remove by assumption.
      destruct (running st); [contradiction|simpl in *; lia].
    + assumption.
    + rewrite length_insert. assumption.
    + apply NoDup_filter. assumption.
    + intros j Hj. apply list_elem_of_filter in Hj as [_ Hj]. auto.
    + intros j it' Hj Hnot Hit'.
      destruct (decide (j = i)) as [->|Hji].
      * assert (it' = it) by congruence. subst.
        unfold trace_of. rewrite Hw. simpl.
        apply list_lookup_insert_eq. lia.
      * assert (j ∉ running st)
          by (intros ?; apply Hnot, list_elem_of_filter; auto).
        specialize (Hdone j it' Hj ltac:(assumption) Hit').
        unfold trace_of in *. simpl.
        destruct (worker it' j); [assumption|].
        rewrite list_lookup_insert_ne by auto. assumption.
    + assumption.
    + intros rs Hrs. destruct (Hres rs Hrs) as (_ & Hnil & _). contradiction.
Qed.

Lemma initial_inv :
  inv {| results := replicate (length items) None;
         inFlight := 0; index := 0; running := []; outcome := Pending |}.
Proof.
  constructor; simpl.
  - reflexivity.
  - lia.
  - apply length_replicate.
  - constructor.
  - intros j Hj. inversion Hj.
  - intros j it Hj. lia.
  - intros e [=].
  - intros rs [=].
Qed.

Lemma reachable_inv st : reachable st -> inv st /\ saturated st.
Proof.
  induction 1 as [|st i Hreach [Hinv Hsat] Hin].
  - split; [apply next_inv|apply next_saturated]; apply initial_inv.
  - destruct (inv_running _ _ _ Hinv i Hin) as [Hlt [it Hit]].
    unfold complete. rewrite Hit.
    split; [apply next_inv|apply next_saturated];
      apply handlers_inv; assumption.
Qed.

(** Once nothing is in flight, every item has been taken. *)
Lemma idle_all_taken st :
  1 <= limit -> reachable st -> running st = [] -> index st = length items.
Proof.
  intros Hlimit Hreach Hidle.
  destruct (reachable_inv st Hreach) as [Hinv Hsat].
  pose proof (inv_inflight _ _ _ Hinv) as Hfl. rewrite Hidle in Hfl. simpl in Hfl.
  pose proof (inv_index _ _ _ Hinv).
  unfold saturated in Hsat. apply andb_false_iff in Hsat as [Hsat|Hsat].
  - apply Z.ltb_ge in Hsat. lia.
  - apply Nat.ltb_ge in Hsat. lia.
Qed.

(** A failing worker rejects the whole call; the other workers have
    run all the same and their results sit in [results]. *)
Lemma failure_rejects_batch st i it e :
  1 <= limit -> reachable st -> running st = [] ->
  items !! i = Some (Some it) -> worker it i = inl e ->
  (exists e' j it', outcome st = Rejected e'
                    /\ items !! j = Some (Some it') /\ worker it' j = inl e')
  /\ (forall j it' r, items !! j = Some (Some it') -> worker it' j = inr r ->
                      results st !! j = Some (Some r)).
Proof.
  intros Hlimit Hreach Hidle Hit Hw.
  destruct (reachable_inv st Hreach) as [Hinv _].
  pose proof (idle_all_taken st Hlimit Hreach Hidle) as Hall.
  assert (Hdone : forall j it', items !! j = Some (Some it') -> trace_of st j it').
  { intros j it' Hj. apply (inv_done _ _ _ Hinv); [|rewrite Hidle; apply not_elem_of_nil|exact Hj].
    rewrite Hall. apply lookup_lt_Some in Hj. exact Hj. }
  split.
  - pose proof (Hdone i it Hit) as Hi. unfold trace_of in Hi. rewrite Hw in Hi.
    destruct Hi as [e' He'].
    destruct (inv_rejected _ _ _ Hinv e' He') as (j & it' & Hj & Hwj).
    exists e', j, it'. auto.
  - intros j it' r Hj Hwj. pose proof (Hdone j it' Hj) as Hd.
    unfold trace_of in Hd. rewrite Hwj in Hd. exact Hd.
Qed.

Lemma launch_keeps_running fuel (s : state) :
  running s <> [] -> running (launch fuel s) <> [].
Proof.
  revert s. induction fuel as [|f IH]; intros s Hs; simpl; [assumption|].
  destruct ((inFlight s <? limit) && (index s <? length items)%nat);
    [|assumption].
  destruct (items !! index s) as [[?|]|]; apply IH; simpl;
    [destruct (running s); discriminate|assumption|assumption].
Qed.

(** With a positive limit and no [undefined] item, a call that is
    still pending after [next()] has a worker in flight. *)
Lemma next_pending_busy (s : state) :
  1 <= limit -> Forall (fun x => exists it, x = Some it) items ->
  inv s -> outcome (next s) = Pending -> running (next s) <> [].
Proof.
  intros Hlimit Hdef Hinv. unfold next.
  destruct ((length items <=? index s)%nat && (inFlight s =? 0)) eqn:Hc.
  { unfold settle. destruct (outcome s) eqn:Ho; simpl; congruence. }
  intros _.
  destruct (running s) as [|x l] eqn:Hrun;
    [|apply launch_keeps_running; rewrite Hrun; discriminate].
  pose proof (inv_inflight _ _ _ Hinv) as Hfl. rewrite Hrun in Hfl. simpl in Hfl.
  pose proof (inv_index _ _ _ Hinv) as Hidx.
  assert (Hlt : (index s < length items)%nat).
  { apply andb_false_iff in Hc as [Hc|Hc];
      [apply Nat.leb_gt in Hc|apply Z.eqb_neq in Hc]; lia. }
  destruct (length items - index s)%nat as [|f] eqn:Hfuel; [lia|].
  simpl.
  destruct (Z.ltb_spec (inFlight s) limit); [|lia].
  destruct (Nat.ltb_spec (index s) (length items)); [|lia].
  simpl.
  destruct (items !! index s) as [[it|]|] eqn:Hit.
  - apply launch_keeps_running. simpl. rewrite Hrun. discriminate.
  - rewrite Forall_forall in Hdef.
    destruct (Hdef None) as [? Hx]; [|discriminate].
    apply list_elem_of_lookup. eauto.
  - apply lookup_ge_None in Hit. lia.
Qed.

(** When every item is defined and no worker fails, the call resolves,
    and it does so with every result in the place of its item. *)
Lemma success_resolves st :
  1 <= limit -> reachable st -> running st = [] ->
  Forall (fun x => exists it, x = Some it) items ->
  (forall j it, items !! j = Some (Some it) -> exists r, worker it j = inr r) ->
  outcome st = Resolved (results st)
  /\ forall j it, items !! j = Some (Some it) ->
       exists r, worker it j = inr r /\ results st !! j = Some (Some r).
Proof.
  intros Hlimit Hreach Hidle Hdef Hok.
  destruct (reachable_inv st Hreach) as [Hinv _].
  pose proof (idle_all_taken st Hlimit Hreach Hidle) as Hall.
  split.
  - destruct (outcome st) as [|rs|e] eqn:Ho.
    + exfalso. destruct Hreach as [|s i Hs Hin].
      * apply (next_pending_busy _ Hlimit Hdef initial_inv Ho Hidle).
      * destruct (reachable_inv s Hs) as [Hinvs _].
        destruct (inv_running _ _ _ Hinvs i Hin) as [_ [it Hit]].
        unfold complete in Ho, Hidle. rewrite Hit in Ho, Hidle.
        apply (next_pending_busy _ Hlimit Hdef
                 (handlers_inv s i it Hinvs Hin Hit) Ho Hidle).
    + destruct (inv_resolved _ _ _ Hinv rs Ho) as [-> _]. reflexivity.
    + destruct (inv_rejected _ _ _ Hinv e Ho) as (j & it & Hj & Hw).
      destruct (Hok j it Hj) as [r Hr]. congruence.
  - intros j it Hj. destruct (Hok j it Hj) as [r Hr]. exists r. split; [exact Hr|].
    pose proof (inv_done _ _ _ Hinv j it) as Hd. unfold trace_of in Hd.
    rewrite Hr in Hd. apply Hd; [|rewrite Hidle; apply not_elem_of_nil|exact Hj].
    rewrite Hall. apply lookup_lt_Some in Hj. exact Hj.
Qed.

(** *** Every call comes to rest *)

Lemma launch_remaining_work fuel (s : state) :
  (remaining_work items (launch fuel s) <= remaining_work items s)%nat.
Proof.
  revert s. induction fuel as [|f IH]; intros s; simpl; [lia|].
  destruct ((inFlight s <? limit) && (index s <? length items)%nat) eqn:Hc; [|lia].
  apply andb_true_iff in Hc as [_ Hlt]. apply Nat.ltb_lt in Hlt.
  destruct (items !! index s) as [[?|]|];
    (etransitivity; [apply IH|]); unfold remaining_work; simpl;
    rewrite ?length_app; simpl; lia.
Qed.

Lemma next_remaining_work (s : state) :
  (remaining_work items (next s) <= remaining_work items s)%nat.
Proof.
  unfold next. destruct (_ && _); [|apply launch_remaining_work].
  unfold settle. destruct (outcome s); unfold remaining_work; simpl; lia.
Qed.

Lemma complete_remaining_work st i :
  inv st -> i ∈ running st ->
  (remaining_work items (complete i st) < remaining_work items st)%nat.
Proof.
  intros Hinv Hin.
  destruct (inv_running _ _ _ Hinv i Hin) as [_ [it Hit]].
  unfold complete. rewrite Hit.
  eapply Nat.le_lt_trans; [apply next_remaining_work|].
  unfold handlers, remaining_work. cbn [index running].
  assert (Hlen : length (filter (fun j => j <> i) (running st))
                 = (length (running st) - 1)%nat)
    by (apply length_filter_remove; [apply (inv_nodup _ _ _ Hinv)|exact Hin]).
  assert (Hpos : (0 < length (running st))%nat)
    by (destruct (running st); [inversion Hin|simpl; lia]).
  destruct (worker it i) as [e|r].
  - destruct (settle_same st (Rejected e)) as (-> & -> & _). lia.
  - cbn [index running]. lia.
Qed.

(** From any state of the call, letting the workers in flight settle
    leads to a state where none is in flight. *)
Lemma comes_to_rest st :
  reachable st -> exists st', reachable st' /\ running st' = [].
Proof.
  remember (remaining_work items st) as k eqn:Hk.
  revert st Hk. induction (lt_wf k) as [k _ IH]. intros st -> Hreach.
  destruct (running st) as [|i rest] eqn:Hrun; [eauto|].
  assert (Hin : i ∈ running st) by (rewrite Hrun; left).
  destruct (reachable_inv st Hreach) as [Hinv _].
  apply (IH _ (complete_remaining_work st i Hinv Hin) (complete i st) eq_refl).
  apply reachable_complete; assumption.
Qed.

End RunWithConcurrency.
End PoolFacts.

Module PoolTheorems.
Import Pool PoolFacts.

Section RunWithConcurrency.
Context {T R E : Type}.
Variable items : list (option T).
Variable limit : Z.
Variable worker : T -> nat -> E + R.

(** Every state a schedule leads to is a state of the call. *)
Lemma settle_in_order_reachable schedule :
  reachable items limit worker (settle_in_order items limit worker schedule).
Proof.
  unfold settle_in_order.
  induction schedule as [|i schedule IH] using rev_ind.
  - apply reachable_start.
  - rewrite fold_left_app. simpl.
    destruct (decide (i ∈ running _)); [|exact IH].
    apply reachable_complete; assumption.
Qed.

(** C1 (amended): with a positive limit, once no worker is in flight
    every successful worker has stored its result at the index of its
    item, whatever the other workers did; the failure of a worker,
    however, is not kept as a per-item error: it rejects the whole
    call with the failure of one of the workers.  The call resolves,
    with the results, when every item is defined and no worker fails. *)
Theorem runWithConcurrency_outcome st :
  1 <= limit -> reachable items limit worker st -> running st = [] ->
  (forall j it r, items !! j = Some (Some it) -> worker it j = inr r ->
                  results st !! j = Some (Some r))
  /\ ((exists i it e, items !! i = Some (Some it) /\ worker it i = inl e) ->
      exists e' j it', outcome st = Rejected e'
                       /\ items !! j = Some (Some it') /\ worker it' j = inl e')
  /\ (Forall (fun x => exists it, x = Some it) items ->
      (forall j it, items !! j = Some (Some it) -> exists r, worker it j = inr r) ->
      outcome st = Resolved (results st)).
Proof.
  intros Hlimit Hreach Hidle. split; [|split].
  - intros j it r Hj Hw.
    destruct (reachable_inv items limit worker st Hreach) as [Hinv _].
    pose proof (idle_all_taken items limit worker st Hlimit Hreach Hidle) as Hall.
    pose proof (inv_done _ _ _ Hinv j it) as Hd. unfold trace_of in Hd.
    rewrite Hw in Hd. apply Hd; [|rewrite Hidle; apply not_elem_of_nil|exact Hj].
    rewrite Hall. apply lookup_lt_Some in Hj. exact Hj.
  - intros (i & it & e & Hi & Hw).
    apply (failure_rejects_batch items limit worker st i it e); assumption.
  - intros Hdef Hok.
    apply (success_resolves items limit worker st); assumption.
Qed.
End RunWithConcurrency.

Lemma runWithConcurrency_outcome_witness :
  let st := settle_in_order two_items 2 fails_on_one [0%nat; 1%nat] in
  1 <= 2 /\ reachable two_items 2 fails_on_one st /\ running st = []
  /\ (forall j it r, two_items !! j = Some (Some it) -> fails_on_one it j = inr r ->
                     results st !! j = Some (Some r))
  /\ ((exists i it e, two_items !! i = Some (Some it) /\ fails_on_one it i = inl e) ->
      exists e' j it', outcome st = Rejected e'
                       /\ two_items !! j = Some (Some it')
                       /\ fails_on_one it' j = inl e')
  /\ (Forall (fun x => exists it, x = Some it) two_items ->
      (forall j it, two_items !! j = Some (Some it) ->
                    exists r, fails_on_one it j = inr r) ->
      outcome st = Resolved (results st)).
Proof.
  intros st.
  assert (H1 : 1 <= 2) by lia.
  assert (H2 : reachable two_items 2 fails_on_one st)
    by apply settle_in_order_reachable.
  assert (H3 : running st = []) by reflexivity.
  split; [exact H1|]. split; [exact H2|]. split; [exact H3|].
  exact (runWithConcurrency_outcome two_items 2 fails_on_one st H1 H2 H3).
Defined.

(** C1, as stated, fails: with the worker failing on the first of two
    items, the call is rejected as a whole, although the second item
    has produced its result. *)
Lemma runWithConcurrency_rejects_counterexample :
  let st := settle_in_order two_items 2 fails_on_one [0%nat; 1%nat] in
  running st = []
  /\ results st = [None; Some 20%nat]
  /\ outcome st = Rejected "boom"
  /\ ~ exists rs, outcome st = Resolved rs.
Proof.
  intros st. split; [reflexivity|]. split; [reflexivity|].
  split; [reflexivity|]. intros [rs Hrs]. vm_compute in Hrs. discriminate.
Qed.

End PoolTheorems.

(** ** The recursion controller *)

Module ResearchFacts.
Import Js Research.

(** *** Reasoning about computations *)

Lemma preserves_refl n w : preserves n w w.
Proof. split; [lia|auto]. Qed.

Lemma preserves_trans n w1 w2 w3 : preserves n w1 w2 -> preserves n w2 w3 -> preserves n w1 w3.
Proof.
  intros [H1 H2] [H3 H4]. split; [lia|].
  intros l Hl. rewrite H4, H2 by assumption. reflexivity.
Qed.

Section Rules.
Context {A B : Type}.
Variable n : nat.

Lemma spec_ret (a : A) (P : A -> Prop) : P a -> spec n (mret a) P.
Proof.
  intros HP w a' w' _ [= <- <-]. split; [apply preserves_refl|assumption].
Qed.

Lemma spec_bind (m : M A) (f : A -> M B) (Q : A -> Prop) (P : B -> Prop) :
  spec n m Q -> (forall a, Q a -> spec n (f a) P) -> spec n (m ≫= f) P.
Proof.
  intros Hm Hf w b w'' Hn Hrun.
  unfold mbind, M_bind in Hrun.
  destruct (m w) as [[a w']|] eqn:Hmw; [|discriminate].
  destruct (Hm w a w' Hn Hmw) as [Hfr HQ].
  destruct (Hf a HQ w' b w'' ltac:(destruct Hfr; lia) Hrun) as [Hfr' HP].
  split; [eapply preserves_trans; eassumption|assumption].
Qed.

Lemma spec_weaken (m : M A) (P Q : A -> Prop) :
  spec n m P -> (forall a, P a -> Q a) -> spec n m Q.
Proof.
  intros Hm HPQ w a w' Hn Hrun.
  destruct (Hm w a w' Hn Hrun). auto.
Qed.

Lemma spec_out_of_fuel (P : A -> Prop) : spec n (fun _ => None) P.
Proof. intros w a w' _ [=]. Qed.

Lemma total_ret (a : A) : total (mret a).
Proof. intros w. eexists. reflexivity. Qed.

Lemma total_bind (m : M A) (f : A -> M B) :
  total m -> (forall a, total (f a)) -> total (m ≫= f).
Proof.
  intros Hm Hf w. unfold mbind, M_bind.
  destruct (Hm w) as [[a w'] ->]. apply Hf.
Qed.
End Rules.

Lemma spec_alloc n xs : spec n (alloc xs) (fun l => (n <= l)%nat).
Proof.
  intros w l w' Hn [= <- <-]. split; [split|assumption]; simpl.
  - rewrite length_app. lia.
  - intros l Hl. apply lookup_app_l. lia.
Qed.

Lemma spec_ret_any {A} n (a : A) : spec n (mret a) (fun _ => True).
Proof. apply spec_ret. exact I. Qed.

Lemma spec_read n l : spec n (read l) (fun _ => True).
Proof. intros w a w' _ [= <- <-]. split; [apply preserves_refl|exact I]. Qed.

Lemma spec_emit n e : spec n (emit e) (fun _ => True).
Proof.
  intros w a w' _ [= <- <-]. split; [split; simpl; [lia|auto]|exact I].
Qed.

(** A push on an array created after the first [n] cells. *)
Lemma spec_push n l ys : (n <= l)%nat -> spec n (push l ys) (fun _ => True).
Proof.
  intros Hl w a w' _ [= <- <-]. split; [split|exact I]; simpl.
  - rewrite length_alter. lia.
  - intros l' Hl'. apply list_lookup_alter_ne. lia.
Qed.

Lemma total_alloc xs : total (alloc xs).
Proof. intros w. eexists. reflexivity. Qed.
Lemma total_read l : total (read l).
Proof. intros w. eexists. reflexivity. Qed.
Lemma total_emit e : total (emit e).
Proof. intros w. eexists. reflexivity. Qed.
Lemma total_push l ys : total (push l ys).
Proof. intros w. eexists. reflexivity. Qed.

Create HintDb total.
#[local] Hint Resolve total_alloc total_read total_emit total_push
  total_ret : total.

(** One step of a proof of [spec]: a primitive followed by the rest. *)
Ltac spec_prim :=
  first [ apply spec_alloc | apply spec_read | apply spec_emit
        | apply spec_ret_any ].
Ltac spec_step :=
  eapply spec_bind; [spec_prim | cbv beta; intros ? ?].
Ltac total_step :=
  apply total_bind; [auto with total | intros ?].

Lemma spec_mapM_read n (f : ProcessResult -> loc) rs :
  spec n (mapM (fun r => read (f r)) rs) (fun _ => True).
Proof.
  induction rs as [|r rs IH]; simpl.
  - apply spec_ret. exact I.
  - spec_step. eapply spec_bind; [exact IH|]. intros ? _.
    apply spec_ret. exact I.
Qed.

Lemma total_mapM_read (f : ProcessResult -> loc) rs :
  total (mapM (fun r => read (f r)) rs).
Proof.
  induction rs as [|r rs IH]; simpl; [apply total_ret|].
  total_step. apply total_bind; [exact IH|]. intros ?. apply total_ret.
Qed.

Lemma spec_emptyProcessResult n : spec n emptyProcessResult (fun _ => True).
Proof. unfold emptyProcessResult. do 2 spec_step. apply spec_ret. exact I. Qed.

Lemma spec_emptyResearchResult n : spec n emptyResearchResult (fun _ => True).
Proof. unfold emptyResearchResult. do 2 spec_step. apply spec_ret. exact I. Qed.

Lemma total_emptyProcessResult : total emptyProcessResult.
Proof. unfold emptyProcessResult. do 2 total_step. apply total_ret. Qed.

Lemma total_emptyResearchResult : total emptyResearchResult.
Proof. unfold emptyResearchResult. do 2 total_step. apply total_ret. Qed.

(** *** Task trees *)

Lemma budgeted_Task q d b ls vs cs :
  budgeted (Task q d b ls vs cs) <->
  Forall (fun c => task_depth c = d - 1 /\ task_breadth c = ceil_div b 2
                   /\ budgeted c) cs.
Proof.
  simpl. induction cs as [|c cs IH]; simpl.
  - split; [constructor|auto].
  - rewrite Forall_cons. tauto.
Qed.

Lemma nesting_Task q d b ls vs cs k :
  Forall (fun c => (S (nesting c) <= k)%nat) cs ->
  (nesting (Task q d b ls vs cs) <= k)%nat.
Proof.
  simpl. induction 1 as [|c cs Hc _ IH]; simpl; lia.
Qed.

(** *** The workers and the recursion *)

Section Controller.
Context `{Collaborators}.
Variable n : nat.

Lemma spec_collect_learnings l batch :
  (n <= l)%nat -> spec n (collect_learnings l batch) (fun _ => True).
Proof.
  intros Hl. induction batch as [|text rest IH]; simpl.
  - apply spec_ret. exact I.
  - destruct (parseLearnings text) as [[ls|]|].
    + eapply spec_bind; [apply spec_push; exact Hl|]. intros _ _. exact IH.
    + eapply spec_bind; [apply spec_ret_any|]. intros _ _. exact IH.
    + apply spec_ret. exact I.
Qed.

Lemma spec_processSerpResult q result k :
  spec n (processSerpResult q result k) (fun _ => True).
Proof.
  unfold processSerpResult.
  destruct (generateBatchWithTools _) as [batch|]; [|apply spec_ret; exact I].
  eapply spec_bind; [apply spec_alloc|]. intros l Hl.
  eapply spec_bind; [apply spec_collect_learnings; exact Hl|]. intros [|] _.
  - do 2 spec_step. apply spec_ret. exact I.
  - apply spec_ret. exact I.
Qed.

Lemma spec_finally r p :
  spec n (finally r p) (fun out => out.1.2 = r.2).
Proof.
  unfold finally. spec_step.
  destruct (reportProgress (bump p)).
  - apply spec_ret. reflexivity.
  - eapply spec_bind; [apply spec_emptyProcessResult|]. intros e _.
    apply spec_ret. reflexivity.
Qed.

Section Worker.
Variable recurse : DeepResearchOptions -> M (ResearchResult * task).
Variable fr : frame.
Hypothesis recurse_ok : forall o, spec n (recurse o) (task_ok o).

Lemma spec_research_deeper q g p :
  spec n (research_deeper recurse fr q g p)
    (fun out => match out.1 with
                | inl _ => True
                | inr (_, cs) => Forall (child_ok (f_depth fr) (f_breadth fr)) cs
                end).
Proof.
  unfold research_deeper. spec_step.
  eapply spec_bind; [apply spec_processSerpResult|]. intros [newLearnings|] _;
    [|apply spec_ret; exact I].
  do 6 spec_step.
  destruct (Z.gtb_spec (f_depth fr - 1) 0) as [Hpos|Hleaf].
  - eapply spec_bind.
    + instantiate (1 := fun _ => True).
      destruct onProgress as [cb|].
      * spec_step. apply spec_ret. exact I.
      * apply spec_ret. exact I.
    + intros [|] _; [apply spec_ret; exact I|].
      eapply spec_bind; [apply recurse_ok|].
      intros [deeper child] (Hd & Hb & Hbud & Hnest). simpl in *.
      apply spec_ret. simpl. constructor; [|constructor].
      unfold child_ok. repeat split; try assumption; lia.
  - apply spec_ret. simpl. constructor.
Qed.

Lemma spec_limitedProcessResult q p :
  spec n (limitedProcessResult recurse fr q p)
    (fun out => Forall (child_ok (f_depth fr) (f_breadth fr)) out.1.2).
Proof.
  unfold limitedProcessResult. do 2 spec_step.
  destruct (callGeminiProConfigurable _ ≫= processGeminiResponse) as [g|].
  - spec_step. destruct (bool_decide _).
    + eapply spec_bind; [apply spec_emptyProcessResult|]. intros e _.
      apply spec_ret. constructor.
    + eapply spec_bind; [apply spec_research_deeper|].
      intros [[[]|[r cs]] p'] Hcs; simpl in Hcs.
      * eapply spec_bind; [apply spec_emptyProcessResult|]. intros e _.
        eapply spec_weaken; [apply spec_finally|].
        intros out ->. constructor.
      * eapply spec_weaken; [apply spec_finally|].
        intros out ->. exact Hcs.
  - eapply spec_bind; [apply spec_emptyProcessResult|]. intros e _.
    apply spec_ret. constructor.
Qed.

Lemma spec_dispatch qs p :
  spec n (dispatch recurse fr qs p)
    (fun out => length out.1 = length qs
                /\ Forall (child_ok (f_depth fr) (f_breadth fr)) out.2).
Proof.
  revert p. induction qs as [|q rest IH]; intros p; simpl.
  - apply spec_ret. split; [reflexivity|constructor].
  - eapply spec_bind; [apply spec_limitedProcessResult|].
    intros [[r cs] p'] Hcs. simpl in Hcs.
    eapply spec_bind; [apply IH|].
    intros [rs cs'] [Hlen Hcs']. simpl in *.
    apply spec_ret. simpl. split; [lia|].
    apply Forall_app. auto.
Qed.
End Worker.

Lemma spec_aggregation results :
  spec n (aggregation results) (fun _ => True).
Proof.
  unfold aggregation.
  eapply spec_bind; [apply spec_mapM_read|]. intros ? _.
  spec_step.
  eapply spec_bind; [apply spec_mapM_read|]. intros ? _.
  do 2 spec_step. apply spec_ret. exact I.
Qed.

Lemma task_ok_leaf o r ls vs :
  task_ok o (r, Task (query o) (depth o) (breadth o) ls vs []).
Proof. unfold task_ok. simpl. repeat split; lia. Qed.

Lemma task_ok_node o r ls vs cs :
  Forall (child_ok (depth o) (breadth o)) cs ->
  task_ok o (r, Task (query o) (depth o) (breadth o) ls vs cs).
Proof.
  intros Hcs. unfold task_ok. cbn [snd task_depth task_breadth].
  repeat split.
  - apply budgeted_Task. eapply Forall_impl; [exact Hcs|].
    intros c (_ & ? & ? & ? & _). auto.
  - assert (Hk : (nesting (Task (query o) (depth o) (breadth o) ls vs cs)
                  <= Z.to_nat (Z.max 0 (depth o - 1)))%nat); [|lia].
    apply nesting_Task. eapply Forall_impl; [exact Hcs|].
    intros c (? & _ & _ & _ & ?). lia.
Qed.

Lemma spec_deepResearch_body recurse o :
  (forall o', spec n (recurse o') (task_ok o')) ->
  spec n (deepResearch_body recurse o) (task_ok o).
Proof.
  intros Hrec. unfold deepResearch_body.
  eapply spec_bind.
  { instantiate (1 := fun _ => True).
    destruct (learnings o); [apply spec_ret; exact I|].
    eapply spec_weaken; [apply spec_alloc|auto]. }
  intros initialLearnings _.
  eapply spec_bind.
  { instantiate (1 := fun _ => True).
    destruct (visitedUrls o); [apply spec_ret; exact I|].
    eapply spec_weaken; [apply spec_alloc|auto]. }
  intros initialVisitedUrls _.
  do 4 spec_step.
  destruct (depth o <=? 0).
  { eapply spec_bind; [apply spec_emptyResearchResult|]. intros r _.
    apply spec_ret. apply task_ok_leaf. }
  spec_step.
  destruct (20 <? length _)%nat.
  { eapply spec_bind; [apply spec_emptyResearchResult|]. intros r _.
    apply spec_ret. apply task_ok_leaf. }
  do 2 spec_step.
  eapply spec_bind; [apply spec_dispatch; exact Hrec|].
  intros [results children] [_ Hcs]. simpl in Hcs.
  eapply spec_bind; [apply spec_aggregation|]. intros r _.
  apply spec_ret. apply task_ok_node. exact Hcs.
Qed.

Lemma spec_deepResearch_fuel fuel o :
  spec n (deepResearch_fuel fuel o) (task_ok o).
Proof.
  revert o. induction fuel as [|f IH]; intros o; simpl;
    apply spec_deepResearch_body; [|exact IH].
  intros o'. apply spec_out_of_fuel.
Qed.

(** *** Every call returns *)

Lemma total_collect_learnings l batch : total (collect_learnings l batch).
Proof.
  induction batch as [|text rest IH]; simpl; [apply total_ret|].
  destruct (parseLearnings text) as [[ls|]|]; [| |apply total_ret];
    (apply total_bind; [auto with total|intros _; exact IH]).
Qed.

Lemma total_processSerpResult q result k : total (processSerpResult q result k).
Proof.
  unfold processSerpResult.
  destruct (generateBatchWithTools _); [|apply total_ret].
  total_step. apply total_bind; [apply total_collect_learnings|].
  intros [|]; [|apply total_ret].
  do 2 total_step. apply total_ret.
Qed.

Lemma total_finally r p : total (finally r p).
Proof.
  unfold finally. total_step. destruct (reportProgress _); [apply total_ret|].
  apply total_bind; [apply total_emptyProcessResult|]. intros ?. apply total_ret.
Qed.

Section WorkerTotal.
Variable recurse : DeepResearchOptions -> M (ResearchResult * task).
Variable fr : frame.
Hypothesis recurse_total :
  0 < f_depth fr - 1 ->
  forall o, depth o = f_depth fr - 1 -> total (recurse o).

Lemma total_research_deeper q g p : total (research_deeper recurse fr q g p).
Proof.
  unfold research_deeper. total_step.
  apply total_bind; [apply total_processSerpResult|].
  intros [newLearnings|]; [|apply total_ret].
  do 6 total_step.
  destruct (Z.gtb_spec (f_depth fr - 1) 0) as [Hpos|Hleaf]; [|apply total_ret].
  apply total_bind.
  - destruct onProgress; [total_step|]; apply total_ret.
  - intros [|]; [apply total_ret|].
    apply total_bind; [apply recurse_total; [lia|reflexivity]|].
    intros [deeper child]. apply total_ret.
Qed.

Lemma total_limitedProcessResult q p : total (limitedProcessResult recurse fr q p).
Proof.
  unfold limitedProcessResult. do 2 total_step.
  destruct (callGeminiProConfigurable _ ≫= processGeminiResponse) as [g|].
  - total_step. destruct (bool_decide _).
    + apply total_bind; [apply total_emptyProcessResult|]. intros ?. apply total_ret.
    + apply total_bind; [apply total_research_deeper|].
      intros [[[]|done] p']; [|apply total_finally].
      apply total_bind; [apply total_emptyProcessResult|]. intros ?.
      apply total_finally.
  - apply total_bind; [apply total_emptyProcessResult|]. intros ?. apply total_ret.
Qed.

Lemma total_dispatch qs p : total (dispatch recurse fr qs p).
Proof.
  revert p. induction qs as [|q rest IH]; intros p; simpl; [apply total_ret|].
  apply total_bind; [apply total_limitedProcessResult|].
  intros [[r cs] p']. apply total_bind; [apply IH|].
  intros [rs cs']. apply total_ret.
Qed.
End WorkerTotal.

Lemma total_aggregation results : total (aggregation results).
Proof.
  unfold aggregation.
  apply total_bind; [apply total_mapM_read|]. intros ?. total_step.
  apply total_bind; [apply total_mapM_read|]. intros ?. do 2 total_step.
  apply total_ret.
Qed.

Lemma total_deepResearch_body recurse o :
  (0 < depth o - 1 -> forall o', depth o' = depth o - 1 -> total (recurse o')) ->
  total (deepResearch_body recurse o).
Proof.
  intros Hrec. unfold deepResearch_body.
  apply total_bind; [destruct (learnings o); auto with total|]. intros ?.
  apply total_bind; [destruct (visitedUrls o); auto with total|]. intros ?.
  do 4 total_step.
  destruct (depth o <=? 0).
  { apply total_bind; [apply total_emptyResearchResult|]. intros ?. apply total_ret. }
  total_step.
  destruct (20 <? length _)%nat.
  { apply total_bind; [apply total_emptyResearchResult|]. intros ?. apply total_ret. }
  do 2 total_step.
  apply total_bind; [apply total_dispatch; exact Hrec|].
  intros [results children].
  apply total_bind; [apply total_aggregation|]. intros ?. apply total_ret.
Qed.

(** The budget of the model is never used up: [depth] levels are
    enough for a call at [depth]. *)
Lemma total_deepResearch_fuel fuel o :
  depth o <= Z.of_nat fuel -> total (deepResearch_fuel fuel o).
Proof.
  revert o. induction fuel as [|f IH]; intros o Hd; simpl;
    apply total_deepResearch_body.
  - intros Hpos. lia.
  - intros _ o' Ho'. apply IH. lia.
Qed.

Lemma total_deepResearch o : total (deepResearch o).
Proof. apply total_deepResearch_fuel. lia. Qed.

Lemma deepResearch_returns o w :
  exists r t w', deepResearch o w = Some (r, t, w').
Proof.
  destruct (total_deepResearch o w) as [[[r t] w'] Hrun]. eauto.
Qed.

End Controller.

(** *** Reading the heap after allocations *)

Lemma contents_new h g xs :
  contents {| heap := h ++ [xs]; log := g |} (length h) = xs.
Proof.
  unfold contents. simpl.
  rewrite list_lookup_middle by reflexivity. reflexivity.
Qed.

Lemma contents_new2 h g xs ys :
  contents {| heap := (h ++ [xs]) ++ [ys]; log := g |} (length h) = xs.
Proof.
  unfold contents. simpl. rewrite <- app_assoc. simpl.
  rewrite list_lookup_middle by reflexivity. reflexivity.
Qed.

Lemma contents_old w g ys l :
  (l < length (heap w))%nat ->
  contents {| heap := heap w ++ ys; log := g |} l = contents w l.
Proof.
  intros Hl. unfold contents. simpl.
  rewrite lookup_app_l by assumption. reflexivity.
Qed.

Lemma contents_valid w l : contents w l <> [] -> (l < length (heap w))%nat.
Proof.
  unfold contents. intros Hne. destruct (heap w !! l) eqn:Hl.
  - apply lookup_lt_Some in Hl. exact Hl.
  - contradiction.
Qed.

Lemma mapM_read_run (f : ProcessResult -> loc) rs w :
  mapM (fun r => read (f r)) rs w = Some (map (fun r => contents w (f r)) rs, w).
Proof.
  induction rs as [|r rs IH]; simpl; [reflexivity|].
  unfold mbind, M_bind in *. unfold read at 1. rewrite IH. reflexivity.
Qed.

Lemma emptyResearchResult_run w :
  exists r w', emptyResearchResult w = Some (r, w')
               /\ log w' = log w /\ is_empty_result w' r.
Proof.
  eexists _, _. split; [reflexivity|]. split; [reflexivity|].
  unfold is_empty_result. simpl. repeat split.
  - apply contents_new2.
  - apply contents_new.
Qed.

Section TerminalCheck.
Context `{Collaborators}.

Lemma deepResearch_body_terminal recurse o w :
  depth o <= 0
  \/ (exists l, visitedUrls o = Some l /\ (20 < length (contents w l))%nat) ->
  exists r t w', deepResearch_body recurse o w = Some (r, t, w')
    /\ log w' = log w /\ task_children t = [] /\ is_empty_result w' r.
Proof.
  intros Hc. unfold deepResearch_body.
  assert (Hend : forall node (w1 : world), log w1 = log w ->
            exists r t w',
              (r ← emptyResearchResult;
               mret (r, Task (query o) (depth o) (breadth o) node.1 node.2 [])) w1
              = Some (r, t, w')
              /\ log w' = log w /\ task_children t = [] /\ is_empty_result w' r).
  { intros node w1 Hlog. unfold mbind, M_bind.
    destruct (emptyResearchResult_run w1) as (r & w' & -> & Hlog' & Hr).
    eexists _, _, _. split; [reflexivity|]. simpl. split; [congruence|auto]. }
  unfold mbind at 1 2 3 4 5 6. unfold M_bind at 1 2 3 4 5 6.
  destruct (learnings o) as [lL|] eqn:HL, (visitedUrls o) as [lV|] eqn:HV; simpl.
  all: destruct (Z.leb_spec (depth o) 0) as [Hd|Hd].
  all: try (apply (Hend (_, _)); reflexivity).
  all: destruct Hc as [Hc|(l & Hl & Hc)]; [lia|].
  all: try discriminate.
  all: injection Hl as <-.
  all: unfold mbind at 1; unfold M_bind at 1; unfold read at 1; cbv beta iota.
  all: assert (Hvalid : (lV < length (heap w))%nat)
         by (apply contents_valid; intros Hnil; rewrite Hnil in Hc;
             simpl in Hc; lia).
  all: rewrite ?contents_new2, ?(contents_old w _ _ lV Hvalid).
  all: match goal with
       | Hlen : (20 < length ?c)%nat |- _ =>
           destruct (Nat.ltb_spec 20 (length c)); [|lia]
       end.
  all: apply (Hend (_, _)); reflexivity.
Qed.
End TerminalCheck.

(** *** What the workers report

    [limitedProcessResult] hands [processSerpResult] the constant
    [{ data: [] }] (Firecrawl is disabled): there is no content to
    split, no prompt, and the learnings and the URLs of every worker
    are empty arrays. *)

Lemma blank_preserved w w' l :
  blank w l -> preserves (length (heap w)) w w' -> blank w' l.
Proof.
  unfold blank. intros Hl [_ Hp]. rewrite Hp; [exact Hl|].
  apply lookup_lt_Some in Hl. exact Hl.
Qed.

Lemma blank_contents w l : blank w l -> contents w l = [].
Proof. unfold blank, contents. intros ->. reflexivity. Qed.

Lemma bind_inv {A B} (m : M A) (f : A -> M B) w b w'' :
  (m ≫= f) w = Some (b, w'') ->
  exists a w', m w = Some (a, w') /\ f a w' = Some (b, w'').
Proof.
  unfold mbind, M_bind. destruct (m w) as [[a w']|]; [|discriminate].
  eauto.
Qed.

Section Reports.
Context `{Collaborators}.

(** [generateBatchWithTools([])]: [next()] resolves at once. *)
Lemma generateBatchWithTools_nil : generateBatchWithTools [] = Some [].
Proof. reflexivity. Qed.

(** [splitter.splitText('')], the text of no content at all. *)
Lemma no_chunks : Splitter.splitText createResearchSplitter (join (nl +:+ nl) (compact [])) = [].
Proof. reflexivity. Qed.


Lemma processSerpResult_nothing q k w r w' :
  processSerpResult q [] k w = Some (r, w') ->
  match r with Some l => blank w' l | None => True end.
Proof.
  unfold processSerpResult. simpl. intros [= <- <-].
  unfold blank. simpl. rewrite contents_new, take_nil.
  apply list_lookup_middle. rewrite length_app. simpl. lia.
Qed.

Lemma emptyProcessResult_nothing w e w' :
  emptyProcessResult w = Some (e, w') ->
  reports_nothing w' (pr_learnings e) (pr_visitedUrls e).
Proof.
  intros [= <- <-]. split; unfold blank; simpl.
  - rewrite <- app_assoc. apply list_lookup_middle. reflexivity.
  - apply list_lookup_middle. rewrite length_app. simpl. lia.
Qed.

Lemma emptyResearchResult_nothing w r w' :
  emptyResearchResult w = Some (r, w') ->
  reports_nothing w' (rr_learnings r) (rr_visitedUrls r).
Proof.
  intros [= <- <-]. split; unfold blank; simpl.
  - rewrite <- app_assoc. apply list_lookup_middle. reflexivity.
  - apply list_lookup_middle. rewrite length_app. simpl. lia.
Qed.

Lemma finally_nothing r cs p w out w' :
  reports_nothing w (pr_learnings r) (pr_visitedUrls r) ->
  finally (r, cs) p w = Some (out, w') ->
  reports_nothing w' (pr_learnings out.1.1) (pr_visitedUrls out.1.1).
Proof.
  intros Hr. unfold finally. intros Hrun.
  apply bind_inv in Hrun as ([] & w1 & [= <-] & Hrun).
  destruct (reportProgress (bump p)).
  - injection Hrun as <- <-. exact Hr.
  - apply bind_inv in Hrun as (e & w2 & He & [= <- <-]).
    apply emptyProcessResult_nothing in He. exact He.
Qed.


Lemma blank_app w l ys g :
  blank w l -> blank {| heap := heap w ++ ys; log := g |} l.
Proof. unfold blank. simpl. apply lookup_app_l_Some. Qed.

Lemma blank_spec {A} (m : M A) (P : A -> Prop) w a w' l :
  (forall n, spec n m P) -> m w = Some (a, w') -> blank w l -> blank w' l.
Proof.
  intros Hm Hrun Hl.
  destruct (Hm (length (heap w)) w a w' ltac:(lia) Hrun) as [Hp _].
  eapply blank_preserved; eassumption.
Qed.

Section WorkerReports.
Variable recurse : DeepResearchOptions -> M (ResearchResult * task).
Variable fr : frame.
Hypothesis recurse_ok : forall n o, spec n (recurse o) (task_ok o).
Hypothesis recurse_nothing : forall o w rt w',
  recurse o w = Some (rt, w') ->
  reports_nothing w' (rr_learnings rt.1) (rr_visitedUrls rt.1).

Lemma research_deeper_nothing q g p w out w' :
  research_deeper recurse fr q g p w = Some (out, w') ->
  match out.1 with
  | inl _ => True
  | inr (r, _) => reports_nothing w' (pr_learnings r) (pr_visitedUrls r)
  end.
Proof.
  unfold research_deeper. intros Hrun.
  apply bind_inv in Hrun as (newUrls & w1 & [= <- <-] & Hrun).
  apply bind_inv in Hrun as (processResult & w2 & Hserp & Hrun).
  assert (Hurls : blank w2 (length (heap w))).
  { eapply blank_spec; [intros n; apply spec_processSerpResult|exact Hserp|].
    unfold blank. simpl. apply list_lookup_middle. reflexivity. }
  apply processSerpResult_nothing in Hserp.
  destruct processResult as [newLearnings|]; [|injection Hrun as <- <-; exact I].
  apply bind_inv in Hrun as (ls & ? & [= <- <-] & Hrun).
  apply bind_inv in Hrun as (nls & ? & [= <- <-] & Hrun).
  apply bind_inv in Hrun as (allLearnings & w3 & [= <- <-] & Hrun).
  apply bind_inv in Hrun as (vs & ? & [= <- <-] & Hrun).
  apply bind_inv in Hrun as (nus & ? & [= <- <-] & Hrun).
  apply bind_inv in Hrun as (allUrls & w4 & [= <- <-] & Hrun).
  destruct (f_depth fr - 1 >? 0).
  - apply bind_inv in Hrun as (thrown & w5 & _ & Hrun).
    destruct thrown; [injection Hrun as <- <-; exact I|].
    apply bind_inv in Hrun as ([deeper child] & w6 & Hrec & [= <- <-]).
    apply recurse_nothing in Hrec. exact Hrec.
  - injection Hrun as <- <-. simpl.
    split; unfold blank in *; simpl; do 2 apply lookup_app_l_Some; assumption.
Qed.

Lemma limitedProcessResult_nothing q p w out w' :
  limitedProcessResult recurse fr q p w = Some (out, w') ->
  reports_nothing w' (pr_learnings out.1.1) (pr_visitedUrls out.1.1).
Proof.
  unfold limitedProcessResult. intros Hrun.
  apply bind_inv in Hrun as (ls & ? & [= <- <-] & Hrun).
  apply bind_inv in Hrun as ([] & w1 & _ & Hrun).
  destruct (callGeminiProConfigurable _ ≫= processGeminiResponse) as [g|].
  - apply bind_inv in Hrun as (vs & ? & [= <- <-] & Hrun).
    destruct (bool_decide _).
    + apply bind_inv in Hrun as (e & w2 & He & [= <- <-]).
      apply emptyProcessResult_nothing in He. exact He.
    + apply bind_inv in Hrun as ([r p'] & w2 & Hdeep & Hrun).
      apply research_deeper_nothing in Hdeep. simpl in Hdeep.
      destruct r as [[]|[r cs]].
      * apply bind_inv in Hrun as (e & w3 & He & Hrun).
        apply emptyProcessResult_nothing in He.
        eapply finally_nothing; eassumption.
      * eapply finally_nothing; eassumption.
  - apply bind_inv in Hrun as (e & w2 & He & [= <- <-]).
    apply emptyProcessResult_nothing in He. exact He.
Qed.

Lemma dispatch_nothing qs p w out w' :
  dispatch recurse fr qs p w = Some (out, w') ->
  Forall (fun r => reports_nothing w' (pr_learnings r) (pr_visitedUrls r)) out.1.
Proof.
  revert p w out w'. induction qs as [|q rest IH]; intros p w out w' Hrun; simpl in Hrun.
  - injection Hrun as <- <-. constructor.
  - apply bind_inv in Hrun as ([[r cs] p'] & w1 & Hone & Hrun).
    apply bind_inv in Hrun as ([rs cs'] & w2 & Hrest & [= <- <-]).
    simpl. constructor.
    + apply limitedProcessResult_nothing in Hone. simpl in Hone.
      destruct Hone as [Hl Hv].
      split; (eapply blank_spec;
              [intros n; apply (spec_dispatch n recurse fr (recurse_ok n))
              |exact Hrest|assumption]).
    + apply IH in Hrest. exact Hrest.
Qed.
End WorkerReports.

Lemma aggregate_nothing (per_worker : list (list string)) :
  Forall (fun xs => xs = []) per_worker -> aggregate per_worker = [].
Proof.
  induction 1 as [|xs rest -> _ IH]; [reflexivity|exact IH].
Qed.

Lemma aggregation_nothing results w r w' :
  Forall (fun r => reports_nothing w (pr_learnings r) (pr_visitedUrls r)) results ->
  aggregation results w = Some (r, w') ->
  reports_nothing w' (rr_learnings r) (rr_visitedUrls r).
Proof.
  intros Hres. unfold aggregation. intros Hrun.
  apply bind_inv in Hrun as (urls & w1 & Hurls & Hrun).
  rewrite mapM_read_run in Hurls. injection Hurls as <- <-.
  rewrite aggregate_nothing in Hrun.
  2:{ apply Forall_fmap. eapply Forall_impl; [exact Hres|].
      intros res [_ Hv]. apply blank_contents. exact Hv. }
  apply bind_inv in Hrun as (visitedUrls & w2 & [= <- <-] & Hrun).
  apply bind_inv in Hrun as (lss & w3 & Hlss & Hrun).
  rewrite mapM_read_run in Hlss. injection Hlss as <- <-.
  rewrite aggregate_nothing in Hrun.
  2:{ apply Forall_fmap. eapply Forall_impl; [exact Hres|].
      intros res [Hl _]. apply blank_contents, blank_app. exact Hl. }
  apply bind_inv in Hrun as (learnings & w4 & [= <- <-] & Hrun).
  apply bind_inv in Hrun as (ls & ? & [= <- <-] & [= <- <-]).
  split; unfold blank; simpl.
  - apply list_lookup_middle. reflexivity.
  - rewrite <- app_assoc. apply list_lookup_middle. reflexivity.
Qed.


Lemma deepResearch_body_nothing recurse o w rt w' :
  (forall n o', spec n (recurse o') (task_ok o')) ->
  (forall o' w1 rt1 w2, recurse o' w1 = Some (rt1, w2) ->
     reports_nothing w2 (rr_learnings rt1.1) (rr_visitedUrls rt1.1)) ->
  deepResearch_body recurse o w = Some (rt, w') ->
  reports_nothing w' (rr_learnings rt.1) (rr_visitedUrls rt.1).
Proof.
  intros Hok Hrec. unfold deepResearch_body. intros Hrun.
  apply bind_inv in Hrun as (initialLearnings & w1 & _ & Hrun).
  apply bind_inv in Hrun as (initialVisitedUrls & w2 & _ & Hrun).
  apply bind_inv in Hrun as (vs0 & ? & [= <- <-] & Hrun).
  apply bind_inv in Hrun as (visitedUrls & w3 & _ & Hrun).
  apply bind_inv in Hrun as (ls0 & w4 & _ & Hrun).
  apply bind_inv in Hrun as (learnings & w5 & _ & Hrun).
  destruct (depth o <=? 0).
  { apply bind_inv in Hrun as (r & w6 & Hr & [= <- <-]).
    apply emptyResearchResult_nothing in Hr. exact Hr. }
  apply bind_inv in Hrun as (vs & w6 & _ & Hrun).
  destruct (20 <? length vs)%nat.
  { apply bind_inv in Hrun as (r & w7 & Hr & [= <- <-]).
    apply emptyResearchResult_nothing in Hr. exact Hr. }
  apply bind_inv in Hrun as (ls & w7 & _ & Hrun).
  apply bind_inv in Hrun as ([] & w8 & _ & Hrun).
  apply bind_inv in Hrun as ([results children] & w9 & Hdisp & Hrun).
  apply bind_inv in Hrun as (r & w10 & Hagg & [= <- <-]).
  apply dispatch_nothing in Hdisp; [|exact Hok|exact Hrec].
  eapply aggregation_nothing; eassumption.
Qed.

Lemma deepResearch_fuel_nothing fuel o w rt w' :
  deepResearch_fuel fuel o w = Some (rt, w') ->
  reports_nothing w' (rr_learnings rt.1) (rr_visitedUrls rt.1).
Proof.
  revert o w rt w'. induction fuel as [|f IH]; intros o w rt w'; simpl;
    apply deepResearch_body_nothing.
  - intros n o'. apply spec_out_of_fuel.
  - discriminate.
  - intros n o'. apply spec_deepResearch_fuel.
  - exact IH.
Qed.

(** X12: with the scraper switched off, a call of [deepResearch] returns
    no learning and no URL, whatever its collaborators answer. *)
Lemma deepResearch_reports_nothing o w :
  exists r t w', deepResearch o w = Some (r, t, w')
    /\ contents w' (rr_learnings r) = []
    /\ contents w' (rr_visitedUrls r) = [].
Proof.
  destruct (deepResearch_returns o w) as (r & t & w' & Hrun).
  exists r, t, w'. split; [exact Hrun|].
  apply deepResearch_fuel_nothing in Hrun as [Hl Hv].
  split; apply blank_contents; assumption.
Qed.

End Reports.

Lemma ceil_div_2 b : 2 * (ceil_div b 2 - 1) < b <= 2 * ceil_div b 2.
Proof.
  unfold ceil_div.
  pose proof (Z.div_mod (- b) 2 ltac:(lia)).
  pose proof (Z.mod_pos_bound (- b) 2 ltac:(lia)). lia.
Qed.

End ResearchFacts.

Module ResearchTheorems.
Import Js Research ResearchFacts.

Section Controller.
Context `{Collaborators}.

(** C2: a call with [depth <= 0], or with more than 20 visited
    sources, returns at once with the empty result: nothing is asked
    of any collaborator (the log is as before), no task is spawned,
    and the returned object has empty learnings and visited URLs. *)
Theorem deepResearch_terminal_check o w :
  depth o <= 0
  \/ (exists l, visitedUrls o = Some l /\ (20 < length (contents w l))%nat) ->
  exists r t w', deepResearch o w = Some (r, t, w')
    /\ log w' = log w /\ task_children t = [] /\ is_empty_result w' r.
Proof.
  intros Hc. unfold deepResearch.
  destruct (Z.to_nat (depth o)); simpl; apply deepResearch_body_terminal;
    exact Hc.
Qed.

(** C3: in the tree of tasks of any call, every child has the depth
    of its parent less one and [ceil(breadth / 2)] of its parent's
    breadth, and the nesting of recursive calls stays below the
    depth the call was given.  ([pLimit] accepts the configured
    limit, as everywhere in this model of the controller.) *)
Theorem deepResearch_budget o w :
  exists r t w', deepResearch o w = Some (r, t, w')
    /\ task_depth t = depth o /\ task_breadth t = breadth o
    /\ budgeted t
    /\ Z.of_nat (nesting t) <= Z.max 0 (depth o - 1).
Proof.
  destruct (deepResearch_returns o w) as (r & t & w' & Hrun).
  exists r, t, w'. split; [exact Hrun|].
  destruct (spec_deepResearch_fuel 0 _ o w (r, t) w' ltac:(lia) Hrun)
    as [_ Hok].
  exact Hok.
Qed.

(** C10: a call returns, and every array that existed when it was
    made, the caller's [learnings] and [visitedUrls] among them,
    holds afterwards what it held before.  ([pLimit] accepts the
    configured limit, as everywhere in this model of the controller.) *)
Theorem deepResearch_inputs_unchanged o w :
  exists r t w', deepResearch o w = Some (r, t, w')
    /\ forall l, (l < length (heap w))%nat -> heap w' !! l = heap w !! l.
Proof.
  destruct (deepResearch_returns o w) as (r & t & w' & Hrun).
  exists r, t, w'. split; [exact Hrun|].
  destruct (spec_deepResearch_fuel (length (heap w)) _ o w (r, t) w'
              ltac:(lia) Hrun) as [[_ Hframe] _].
  exact Hframe.
Qed.
End Controller.

Lemma deepResearch_terminal_check_witness :
  (depth exhausted_task <= 0
   \/ (exists l, visitedUrls exhausted_task = Some l
                 /\ (20 < length (contents empty_world l))%nat))
  /\ exists r t w',
       deepResearch (H := silent) exhausted_task empty_world = Some (r, t, w')
       /\ log w' = log empty_world /\ task_children t = []
       /\ is_empty_result w' r.
Proof.
  assert (Hc : depth exhausted_task <= 0
               \/ (exists l, visitedUrls exhausted_task = Some l
                             /\ (20 < length (contents empty_world l))%nat))
    by (left; simpl; lia).
  split; [exact Hc|].
  exact (deepResearch_terminal_check (H := silent) exhausted_task empty_world Hc).
Defined.

End ResearchTheorems.

(** ** The cache key of generateSerpQueries *)

Module SerpCacheFacts.
Import Js Research SerpCache.

Lemma append_cons x (a b : string) : String x a +:+ b = String x (a +:+ b).
Proof. reflexivity. Qed.

Lemma append_nil_l (a : string) : EmptyString +:+ a = a.
Proof. reflexivity. Qed.

Lemma append_assoc (a b c : string) : (a +:+ b) +:+ c = a +:+ (b +:+ c).
Proof.
  induction a as [|x a IH]; [reflexivity|].
  rewrite !append_cons, IH. reflexivity.
Qed.

Lemma append_inv_head (a b c : string) : a +:+ b = a +:+ c -> b = c.
Proof.
  induction a as [|x a IH]; [auto|].
  rewrite !append_cons. intros [= Heq]. auto.
Qed.

(** Escaping can be read back, one code unit at a time. *)
Lemma unescape_escape c r : unescape_one (escape_char c +:+ r) = Some (c, r).
Proof. destruct c as [[] [] [] [] [] [] [] []]; reflexivity. Qed.

Lemma unescape_quote t : unescape_one (String quote t) = None.
Proof. reflexivity. Qed.

(** Two escaped strings, each closed by a quote, are equal only when
    the strings are. *)
Lemma escape_closed_inj s1 s2 t1 t2 :
  escape s1 +:+ String quote t1 = escape s2 +:+ String quote t2 ->
  s1 = s2 /\ t1 = t2.
Proof.
  revert s2. induction s1 as [|c1 r1 IH]; intros [|c2 r2]; cbn [escape];
    rewrite ?append_nil_l.
  - intros [= ->]. auto.
  - rewrite append_assoc. intros Heq.
    apply (f_equal unescape_one) in Heq.
    rewrite unescape_escape, unescape_quote in Heq. discriminate.
  - rewrite append_assoc. intros Heq.
    apply (f_equal unescape_one) in Heq.
    rewrite unescape_escape, unescape_quote in Heq. discriminate.
  - rewrite !append_assoc. intros Heq.
    apply (f_equal unescape_one) in Heq.
    rewrite !unescape_escape in Heq. injection Heq as -> Heq.
    destruct (IH _ Heq) as [-> ->]. auto.
Qed.

Lemma json_string_closed_inj s1 s2 t :
  json_string s1 +:+ t = json_string s2 +:+ t -> s1 = s2.
Proof.
  unfold json_string. rewrite !append_cons, !append_assoc, !append_cons.
  intros [= Heq]. apply escape_closed_inj in Heq as [-> _]. reflexivity.
Qed.

Lemma join_snoc sep xs x :
  join sep (xs ++ [x])
  = match xs with
    | [] => x
    | _ => join sep xs +:+ sep +:+ x
    end.
Proof.
  induction xs as [|y ys IH]; [reflexivity|].
  destruct ys as [|z zs]; [reflexivity|].
  change (join sep ((y :: z :: zs) ++ [x]))
    with (y +:+ sep +:+ join sep ((z :: zs) ++ [x])).
  rewrite IH.
  change (join sep (y :: z :: zs)) with (y +:+ sep +:+ join sep (z :: zs)).
  rewrite !append_assoc. reflexivity.
Qed.

Lemma set_fresh k v (o : object) : k ∉ keys o -> set k v o = o ++ [(k, v)].
Proof.
  induction o as [|[k' v'] o IH]; simpl; [reflexivity|].
  intros Hnot. apply not_elem_of_cons in Hnot as [Hne Hnot].
  destruct (decide (k' = k)); [congruence|].
  rewrite IH by exact Hnot. reflexivity.
Qed.

(** The keys of the descriptor, spelled out. *)
Lemma keys_descriptor a :
  keys (descriptor a)
  = ["rawQuery"]
    ++ (if numQueries a =? DEFAULT_NUM_QUERIES then [] else ["numQueries"])
    ++ (if decide (sa_researchGoal a = "Initial query") then [] else ["researchGoal"])
    ++ (if decide (sa_initialQuery a = Some (rawQuery a)) then [] else ["initialQuery"])
    ++ (if sa_depth a =? 1 then [] else ["depth"])
    ++ (if sa_breadth a =? 1 then [] else ["breadth"]).
Proof.
  unfold descriptor.
  destruct (numQueries a =? DEFAULT_NUM_QUERIES),
    (decide (sa_researchGoal a = "Initial query")),
    (decide (sa_initialQuery a = Some (rawQuery a))),
    (sa_depth a =? 1), (sa_breadth a =? 1); reflexivity.
Qed.

Lemma descriptor_no_hash a : "learningsHash" ∉ keys (descriptor a).
Proof.
  rewrite keys_descriptor.
  destruct (numQueries a =? DEFAULT_NUM_QUERIES),
    (decide (sa_researchGoal a = "Initial query")),
    (decide (sa_initialQuery a = Some (rawQuery a))),
    (sa_depth a =? 1), (sa_breadth a =? 1); simpl;
    rewrite ?not_elem_of_cons; repeat split; try discriminate;
    apply not_elem_of_nil.
Qed.

Lemma keyObject_snoc a :
  keyObject a
  = descriptor a ++ [("learningsHash", Some (JStr (learningsHash (sa_learnings a))))].
Proof. apply set_fresh, descriptor_no_hash. Qed.

Lemma descriptor_with_learnings ls a : descriptor (with_learnings ls a) = descriptor a.
Proof. reflexivity. Qed.

(** The key is a text that does not depend on the learnings, followed
    by the quoted hash and the closing brace. *)
Lemma cacheKey_shape a :
  exists head,
    forall ls, cacheKey (with_learnings ls a)
               = head +:+ (json_string (learningsHash ls) +:+ "}").
Proof.
  exists ("{" +:+ match omap member (descriptor a) with
                  | [] => EmptyString
                  | ms => join "," ms +:+ ","
                  end +:+ json_string "learningsHash" +:+ ":").
  intros ls. unfold cacheKey, stringify.
  rewrite keyObject_snoc, descriptor_with_learnings.
  rewrite omap_app. cbn [omap member mbind option_bind fst snd list_omap stringify_value].
  rewrite join_snoc.
  destruct (omap member (descriptor a)) as [|m ms];
    simpl; rewrite ?append_assoc; simpl; rewrite ?append_assoc; reflexivity.
Qed.

Lemma with_learnings_self a : with_learnings (sa_learnings a) a = a.
Proof. destruct a; reflexivity. Qed.

End SerpCacheFacts.

Module SerpCacheTheorems.
Import Js Research SerpCache SerpCacheFacts.

(** C7, as stated, fails: the histories [["ab"]] and [["ac"]] differ
    and get the same cache key, as both sum to the code of ["a"]. *)
Lemma cacheKey_collision_counterexample :
  sa_learnings sample_args <> ["ac"]
  /\ cacheKey (with_learnings ["ac"] sample_args) = cacheKey sample_args.
Proof. split; [discriminate|reflexivity]. Qed.

(** C7 (amended): the key object leaves out [numQueries], [researchGoal],
    [depth] and [breadth] when they have their default, and
    [initialQuery] when it is the query itself; it always ends with
    [learningsHash]; and two calls that differ in their learnings only
    get the same key exactly when their [learningsHash] is the same. *)
Theorem cacheKey_fingerprint a :
  keys (keyObject a)
  = ["rawQuery"]
    ++ (if numQueries a =? DEFAULT_NUM_QUERIES then [] else ["numQueries"])
    ++ (if decide (sa_researchGoal a = "Initial query") then [] else ["researchGoal"])
    ++ (if decide (sa_initialQuery a = Some (rawQuery a)) then [] else ["initialQuery"])
    ++ (if sa_depth a =? 1 then [] else ["depth"])
    ++ (if sa_breadth a =? 1 then [] else ["breadth"])
    ++ ["learningsHash"]
  /\ last (keyObject a)
     = Some ("learningsHash", Some (JStr (learningsHash (sa_learnings a))))
  /\ forall ls, cacheKey (with_learnings ls a) = cacheKey a
                <-> learningsHash ls = learningsHash (sa_learnings a).
Proof.
  split; [|split].
  - rewrite keyObject_snoc. unfold keys. rewrite map_app.
    fold (keys (descriptor a)). rewrite keys_descriptor.
    rewrite <- !app_assoc. reflexivity.
  - rewrite keyObject_snoc. apply last_snoc.
  - intros ls. destruct (cacheKey_shape a) as [head Hshape].
    rewrite <- (with_learnings_self a) at 2.
    rewrite !Hshape. split.
    + intros Heq. apply append_inv_head in Heq.
      apply json_string_closed_inj in Heq. exact Heq.
    + intros ->. reflexivity.
Qed.

End SerpCacheTheorems.

(** ** The progress tracker *)

(** ** Signs and comparisons of Numbers *)

Module DoubleFacts.
Import SpecFloat Double.












(** *** A division of finite Numbers is a Number *)












End DoubleFacts.

Module ProgressTheorems.
Import Research Double Progress DoubleFacts.





(** The quotient is the one of Numbers: with one query completed in
    220 ms and 25 to go, [25 / (1 / 0.22)] is just below 5.5 and the
    ETA shown is [0m 5s]; the exact quotient 5.5 would round to 6. *)
Example eta_rounding_example :
  let p c := {| currentQuery := None; currentDepth := 2; totalDepth := 2;
                currentBreadth := 2; totalBreadth := 2;
                totalQueries := 26; completedQueries := c |} in
  let heap := objects_of [p 0; p 1] in
  (run fresh [call_on heap 0%nat 0; call_on heap 1%nat 220]).2
  = [Drawn Unknown; Drawn (Eta zero (of_Z 5))].
Proof. vm_compute. reflexivity. Qed.

(** An update whose bar would be filled beyond its width, 12 queries
    completed of 10, throws the RangeError of [repeat]; the object and
    the sample are stored all the same. *)
Example over_filled_bar_example :
  updateProgress fresh (objects_of [progress_at 12 2]) 0%nat 1000 (Some 80)
  = ({| initialized := true; lastProgress := Some 0%nat;
        rateWindow := [{| t := 1000; completed := 12 |}] |}, RangeError).
Proof. vm_compute. reflexivity. Qed.


End ProgressTheorems.

(** ** The repair pass of generateFeedback *)

Module FeedbackTheorems.
Import Js Feedback.

Lemma truthy_trimEnd s : truthy (trimEnd s) = has_nonspace s.
Proof.
  induction s as [|c r IH]; [reflexivity|].
  cbn [trimEnd has_nonspace]. rewrite IH.
  destruct (is_space c), (has_nonspace r); reflexivity.
Qed.

Lemma has_nonspace_trimStart s : has_nonspace (trimStart s) = has_nonspace s.
Proof.
  induction s as [|c r IH]; [reflexivity|].
  cbn [trimStart]. destruct (is_space c) eqn:Hc.
  - rewrite IH. cbn [has_nonspace]. rewrite Hc. reflexivity.
  - reflexivity.
Qed.

Lemma has_nonspace_trimEnd s : has_nonspace (trimEnd s) = has_nonspace s.
Proof.
  induction s as [|c r IH]; [reflexivity|].
  cbn [trimEnd]. rewrite truthy_trimEnd.
  destruct (is_space c) eqn:Hc, (has_nonspace r) eqn:Hr;
    cbn [andb negb has_nonspace]; rewrite ?Hc, ?IH, ?Hr; reflexivity.
Qed.

Lemma truthy_trim s : truthy (trim s) = has_nonspace s.
Proof. unfold trim. rewrite truthy_trimEnd. apply has_nonspace_trimStart. Qed.

Lemma truthy_trim_trim s : truthy (trim (trim s)) = truthy (trim s).
Proof.
  rewrite (truthy_trim (trim s)), truthy_trim.
  unfold trim. rewrite has_nonspace_trimEnd. apply has_nonspace_trimStart.
Qed.

Lemma validateAcademicInput_nonblank q :
  validateAcademicInput q = true -> truthy (trim q) = true.
Proof.
  unfold validateAcademicInput. intros Hv.
  apply andb_true_iff in Hv as [_ Hw]. apply Nat.leb_le in Hw.
  destruct (trim q); [unfold split_ws_length in Hw; simpl in Hw; lia|reflexivity].
Qed.

Lemma repair_failed_invalid :
  validateAcademicOutput (analysis repair_failed) = false.
Proof. vm_compute. reflexivity. Qed.

Section RepairPass.
Context `{Collaborators}.

Lemma analysisText_nonblank o researchAnalysis :
  validateAcademicInput (fo_query o) = true ->
  truthy (trim (analysisText o researchAnalysis)) = true.
Proof.
  intros Hv. unfold analysisText.
  destruct (truthy (trim researchAnalysis)) eqn:Ha.
  - rewrite truthy_trim_trim. exact Ha.
  - apply validateAcademicInput_nonblank. exact Hv.
Qed.

(** C5: when the first response does not parse, exactly one repair
    request is sent, quoting that response.  If the repaired output
    does not parse either, the call returns the fixed value with no
    follow-up questions and the analysis "Unable to generate valid
    feedback"; if the repair request itself fails, it returns the
    fixed API-error value; in no case does it throw.  (The terminal
    is at least 20 columns wide or of no known width, as
    [generateFeedback] takes it to be.) *)
Theorem repair_pass o cache researchAnalysis r1 :
  validateAcademicInput (fo_query o) = true ->
  cache !! cacheKeyOf o = None ->
  conductResearch (fo_query o) (fo_depth o) = Some researchAnalysis ->
  callGeminiProConfigurable (firstPrompt o (analysisText o researchAnalysis))
    = Some r1 ->
  parseFeedback r1 = None ->
  let requests := [firstPrompt o (analysisText o researchAnalysis);
                   repairPrompt r1] in
  match callGeminiProConfigurable (repairPrompt r1) with
  | None => generateFeedback o cache = (Returns api_error, requests, cache)
  | Some r2 =>
      match parseFeedback r2 with
      | None =>
          generateFeedback o cache = (Returns invalid_feedback, requests, cache)
      | Some repaired =>
          (generateFeedback o cache).1
          = (Returns (if validateAcademicOutput (analysis repaired)
                      then repaired else invalid_feedback), requests)
      end
  end.
Proof.
  intros Hvalid Hmiss Hresearch Hfirst Hparse requests.
  unfold generateFeedback. rewrite Hvalid, Hmiss, Hresearch. cbn [negb].
  rewrite (analysisText_nonblank o researchAnalysis Hvalid). cbn [negb].
  rewrite Hfirst. unfold parse_or_repair. rewrite Hparse.
  destruct (callGeminiProConfigurable (repairPrompt r1)) as [r2|]; [|reflexivity].
  destruct (parseFeedback r2) as [repaired|].
  - destruct (validateAcademicOutput (analysis repaired)); reflexivity.
  - rewrite repair_failed_invalid. reflexivity.
Qed.
End RepairPass.

Lemma repair_pass_witness :
  validateAcademicInput (fo_query a_question) = true
  /\ (∅ : gmap string FeedbackResponse) !! cacheKeyOf (Collaborators := stubborn) a_question = None
  /\ generateFeedback (H := stubborn) a_question ∅
     = (Returns invalid_feedback,
        ["what is the meaning of life"; "Repair: not json"], ∅).
Proof.
  assert (H1 : validateAcademicInput (fo_query a_question) = true) by reflexivity.
  assert (H2 : (∅ : gmap string FeedbackResponse)
                 !! cacheKeyOf (Collaborators := stubborn) a_question = None)
    by apply lookup_empty.
  split; [exact H1|]. split; [exact H2|].
  exact (repair_pass (H := stubborn) a_question ∅ EmptyString "not json"
           H1 H2 eq_refl eq_refl eq_refl).
Defined.

End FeedbackTheorems.


Module DispatchTheorems.
Import Js Research ResearchFacts ResearchExamples.

Section Controller.
Context `{Collaborators}.

(** X13: a worker of the controller whose request to the generative
    capability is rejected, or whose response cannot be processed,
    answers with an empty result; it never fails. *)
Lemma limitedProcessResult_failure recurse fr q p w :
  callGeminiProConfigurable
    (generateGeminiPrompt (sq_query q) (sq_researchGoal q)
       (contents w (f_learnings fr)))
    ≫= processGeminiResponse = None ->
  exists r w', limitedProcessResult recurse fr q p w = Some (r, [], p, w')
    /\ contents w' (pr_learnings r) = []
    /\ contents w' (pr_visitedUrls r) = [].
Proof.
  intros Hfail. unfold limitedProcessResult.
  unfold mbind at 1. unfold M_bind at 1. unfold read at 1. cbv beta iota.
  unfold mbind at 1. unfold M_bind at 1. unfold emit at 1. cbv beta iota.
  rewrite Hfail.
  eexists _, _. split; [reflexivity|]. simpl. split.
  - apply contents_new2.
  - apply contents_new.
Qed.

(** The dispatch of a round returns one result per sub-query. *)
Lemma dispatch_all_results fuel fr qs p w :
  f_depth fr - 1 <= Z.of_nat fuel ->
  exists rs cs w', dispatch (deepResearch_fuel fuel) fr qs p w = Some (rs, cs, w')
    /\ length rs = length qs.
Proof.
  intros Hfuel.
  destruct (total_dispatch (deepResearch_fuel fuel) fr
              ltac:(intros _ o Ho; apply total_deepResearch_fuel; lia) qs p w)
    as [[[rs cs] w'] Hrun].
  exists rs, cs, w'. split; [exact Hrun|].
  destruct (spec_dispatch 0 (deepResearch_fuel fuel) fr
              (spec_deepResearch_fuel 0 fuel) qs p w (rs, cs) w'
              ltac:(lia) Hrun) as [_ [Hlen _]].
  exact Hlen.
Qed.
End Controller.

(** The aggregation step on its own does not remove duplicates: given
    two results that both hold the learning ["a"], which no worker of
    the program produces, it leaves ["a"] twice. *)
Lemma aggregation_keeps_duplicates :
  let w := {| heap := [["a"]; []; ["a"]; []]; log := [] |} in
  let worker_result l v :=
    {| pr_analysis := "No analysis available"; pr_content := "a";
       pr_sources := []; pr_methodology := EmptyString;
       pr_limitations := EmptyString; pr_citations := [];
       pr_learnings := l; pr_visitedUrls := v;
       pr_firecrawlResults := no_metadata |} in
  exists r w',
    aggregation [worker_result 0%nat 1%nat; worker_result 2%nat 3%nat] w = Some (r, w')
    /\ contents w' (rr_learnings r) = ["a"; "a"]
    /\ deduplicated_union [contents w 0%nat; contents w 2%nat] = ["a"]
    /\ ~ NoDup (contents w' (rr_learnings r)).
Proof.
  intros w worker_result. eexists _, _. split; [reflexivity|].
  split; [reflexivity|]. split; [reflexivity|].
  intros Hnd. vm_compute in Hnd.
  apply NoDup_cons in Hnd as [Hnot _]. apply Hnot. left.
Qed.

Lemma elem_of_aggregate x per_worker :
  x ∈ aggregate per_worker <-> x <> EmptyString /\ exists xs, xs ∈ per_worker /\ x ∈ xs.
Proof.
  unfold aggregate, compact. rewrite list_elem_of_filter, JsFacts.truthy_true.
  rewrite list_elem_of_In, in_concat.
  split; intros [Hne (xs & Hxs & Hx)]; (split; [exact Hne|]); exists xs;
    rewrite ?list_elem_of_In in *; auto.
Qed.

(** X28: the aggregation step on its own, for any results whose
    arrays exist: the learnings and the visited URLs it returns are
    those of the results, in their order, without the empty strings; a
    string held several times stays several times, so that the result
    has the non-empty elements of the deduplicated union but not its
    multiplicities. *)
Theorem aggregation_concatenates results w :
  Forall (fun r => (pr_learnings r < length (heap w))%nat
                   /\ (pr_visitedUrls r < length (heap w))%nat) results ->
  exists r w',
    aggregation results w = Some (r, w')
    /\ contents w' (rr_learnings r)
       = compact (concat (map (fun x => contents w (pr_learnings x)) results))
    /\ contents w' (rr_visitedUrls r)
       = compact (concat (map (fun x => contents w (pr_visitedUrls x)) results))
    /\ forall x, x ∈ contents w' (rr_learnings r) <->
                 x <> EmptyString
                 /\ x ∈ deduplicated_union
                         (map (fun res => contents w (pr_learnings res)) results).
Proof.
  intros Hvalid. unfold aggregation.
  unfold mbind at 1. unfold M_bind at 1. rewrite mapM_read_run.
  unfold mbind at 1. unfold M_bind at 1. unfold alloc at 1. cbv beta iota.
  unfold mbind at 1. unfold M_bind at 1. rewrite mapM_read_run.
  unfold mbind at 1. unfold M_bind at 1. unfold alloc at 1. cbv beta iota.
  unfold mbind at 1. unfold M_bind at 1. unfold read at 1. cbv beta iota.
  cbn [heap log].
  assert (Hsame : map (fun r => contents
                    {| heap := heap w ++
                         [aggregate (map (fun r0 => contents w (pr_visitedUrls r0)) results)];
                       log := log w |} (pr_learnings r)) results
                  = map (fun r => contents w (pr_learnings r)) results).
  { apply map_ext_Forall. eapply Forall_impl; [exact Hvalid|].
    intros r [Hl _]. apply contents_old. exact Hl. }
  rewrite Hsame.
  eexists _, _. split; [reflexivity|]. cbn [rr_learnings rr_visitedUrls].
  split; [|split].
  - rewrite length_app. cbn [length].
    replace (length (heap w) + 1)%nat with (length (heap w ++
      [aggregate (map (fun r0 => contents w (pr_visitedUrls r0)) results)]))
      by (rewrite length_app; reflexivity).
    apply contents_new.
  - apply contents_new2.
  - intros x.
    rewrite length_app. cbn [length].
    replace (length (heap w) + 1)%nat with (length (heap w ++
      [aggregate (map (fun r0 => contents w (pr_visitedUrls r0)) results)]))
      by (rewrite length_app; reflexivity).
    rewrite contents_new. unfold aggregate, compact, deduplicated_union.
    rewrite list_elem_of_filter, JsFacts.truthy_true, elem_of_remove_dups.
    reflexivity.
Qed.


Lemma aggregation_concatenates_witness :
  Forall (fun r => (pr_learnings r < length (heap two_workers_world))%nat
                   /\ (pr_visitedUrls r < length (heap two_workers_world))%nat)
         two_results
  /\ exists r w',
       aggregation two_results two_workers_world = Some (r, w')
       /\ contents w' (rr_learnings r)
          = compact (concat (map (fun x => contents two_workers_world (pr_learnings x))
                                 two_results))
       /\ contents w' (rr_visitedUrls r)
          = compact (concat (map (fun x => contents two_workers_world (pr_visitedUrls x))
                                 two_results))
       /\ forall x, x ∈ contents w' (rr_learnings r) <->
                    x <> EmptyString
                    /\ x ∈ deduplicated_union
                            (map (fun res => contents two_workers_world (pr_learnings res))
                                 two_results).
Proof.
  assert (Hvalid :
    Forall (fun r => (pr_learnings r < length (heap two_workers_world))%nat
                     /\ (pr_visitedUrls r < length (heap two_workers_world))%nat)
           two_results)
    by (repeat constructor; simpl; lia).
  split; [exact Hvalid|].
  exact (aggregation_concatenates two_results two_workers_world Hvalid).
Defined.


Section Round.
Context `{Collaborators}.

End Round.


End DispatchTheorems.

(** ** The pool: what is in flight, and how a call ends *)

Module PoolLiveness.
Import Pool PoolFacts.

Section RunWithConcurrency.
Context {T R E : Type}.
Variable items : list (option T).
Variable limit : Z.
Variable worker : T -> nat -> E + R.

Lemma launch_inFlight fuel (s : @state R E) :
  inFlight (launch items limit fuel s) <= Z.max (inFlight s) limit.
Proof.
  revert s. induction fuel as [|f IH]; intros s; simpl; [lia|].
  destruct ((inFlight s <? limit) && (index s <? length items)%nat) eqn:Hc; [|lia].
  apply andb_true_iff in Hc as [Hlt _]. apply Z.ltb_lt in Hlt.
  destruct (items !! index s) as [[?|]|];
    (etransitivity; [apply IH|]); simpl; lia.
Qed.

Lemma next_inFlight (s : @state R E) :
  inFlight (next items limit s) <= Z.max (inFlight s) limit.
Proof.
  unfold next. destruct (_ && _); [|apply launch_inFlight].
  unfold settle. destruct (outcome s); simpl; lia.
Qed.

Lemma reachable_inFlight st :
  reachable items limit worker st -> inFlight st <= Z.max 0 limit.
Proof.
  induction 1 as [|st i Hreach IH Hin].
  - etransitivity; [apply next_inFlight|]. simpl. lia.
  - destruct (reachable_inv items limit worker st Hreach) as [Hinv _].
    destruct (inv_running _ _ _ Hinv i Hin) as [_ [it Hit]].
    unfold complete. rewrite Hit.
    etransitivity; [apply next_inFlight|].
    unfold handlers. cbn [inFlight].
    destruct (worker it i) as [e|r].
    + destruct (settle_same st (Rejected e)) as (_ & _ & -> & _). lia.
    + cbn [inFlight]. lia.
Qed.

(** X1: at no moment are more than [limit] workers in flight: the
    counter [inFlight] is the number of started workers that have not
    settled, each for a different defined item, and it never exceeds
    the limit. *)
Theorem runWithConcurrency_bounded st :
  reachable items limit worker st ->
  inFlight st = Z.of_nat (length (running st))
  /\ Z.of_nat (length (running st)) <= Z.max 0 limit
  /\ NoDup (running st)
  /\ forall j, j ∈ running st -> exists it, items !! j = Some (Some it).
Proof.
  intros Hreach.
  destruct (reachable_inv items limit worker st Hreach) as [Hinv _].
  pose proof (reachable_inFlight st Hreach) as Hb.
  pose proof (inv_inflight _ _ _ Hinv) as Hfl.
  split; [exact Hfl|]. split; [lia|]. split; [apply (inv_nodup _ _ _ Hinv)|].
  intros j Hj. apply (inv_running _ _ _ Hinv j Hj).
Qed.

(** At rest with a positive limit and no [undefined] item, the
    promise is no longer pending. *)
Lemma idle_settled st :
  1 <= limit -> Forall (fun x => exists it, x = Some it) items ->
  reachable items limit worker st -> running st = [] -> outcome st <> Pending.
Proof.
  intros Hlimit Hdef Hreach Hidle Ho.
  destruct Hreach as [|s i Hs Hin].
  - eapply next_pending_busy; [exact Hlimit|exact Hdef|apply (initial_inv items worker)|exact Ho|exact Hidle].
  - destruct (reachable_inv items limit worker s Hs) as [Hinvs _].
    destruct (inv_running _ _ _ Hinvs i Hin) as [_ [it Hit]].
    unfold complete in Ho, Hidle. rewrite Hit in Ho, Hidle.
    eapply next_pending_busy;
      [exact Hlimit|exact Hdef|apply (handlers_inv items worker s i it Hinvs Hin Hit)
      |exact Ho|exact Hidle].
Qed.

Lemma settle_in_order_snoc schedule i :
  i ∈ running (settle_in_order items limit worker schedule) ->
  settle_in_order items limit worker (schedule ++ [i])
  = complete items limit worker i (settle_in_order items limit worker schedule).
Proof.
  intros Hin. unfold settle_in_order in *. rewrite fold_left_app. simpl.
  destruct (decide _); [reflexivity|contradiction].
Qed.

Lemma rest_from k schedule :
  (remaining_work items (settle_in_order items limit worker schedule) <= k)%nat ->
  exists more,
    running (settle_in_order items limit worker (schedule ++ more)) = [].
Proof.
  revert schedule. induction k as [|k IH]; intros schedule Hle.
  - exists []. rewrite app_nil_r. unfold remaining_work in Hle.
    destruct (running _); [reflexivity|simpl in Hle; lia].
  - destruct (running (settle_in_order items limit worker schedule))
      as [|i rest] eqn:Hrun.
    + exists []. rewrite app_nil_r. exact Hrun.
    + assert (Hin : i ∈ running (settle_in_order items limit worker schedule))
        by (rewrite Hrun; left).
      pose proof (PoolTheorems.settle_in_order_reachable items limit worker schedule) as Hreach.
      destruct (reachable_inv items limit worker _ Hreach) as [Hinv _].
      pose proof (complete_remaining_work items limit worker _ i Hinv Hin) as Hlt.
      destruct (IH (schedule ++ [i])) as [more Hrest].
      * rewrite settle_in_order_snoc by exact Hin. lia.
      * exists (i :: more). rewrite <- app_assoc in Hrest. exact Hrest.
Qed.

(** X2: with a positive limit and no [undefined] item a call always
    ends: whatever has settled so far, letting the workers in flight
    settle leads to a state where none is in flight, every item has
    been taken and the promise is resolved or rejected. *)
Theorem runWithConcurrency_settles schedule :
  1 <= limit -> Forall (fun x => exists it, x = Some it) items ->
  exists more,
    let st := settle_in_order items limit worker (schedule ++ more) in
    running st = [] /\ index st = length items /\ outcome st <> Pending.
Proof.
  intros Hlimit Hdef.
  destruct (rest_from _ schedule (Nat.le_refl _)) as [more Hrest].
  exists more. cbv zeta.
  pose proof (PoolTheorems.settle_in_order_reachable items limit worker (schedule ++ more)) as Hreach.
  split; [exact Hrest|]. split.
  - apply (idle_all_taken items limit worker); assumption.
  - apply idle_settled; assumption.
Qed.

(** X3: a limit that is not positive starts no worker: a call with at
    least one item never leaves its first state, and its promise stays
    pending. *)
Theorem runWithConcurrency_never_starts st :
  limit <= 0 -> items <> [] -> reachable items limit worker st ->
  st = start items limit /\ outcome st = Pending /\ running st = []
  /\ index st = 0%nat.
Proof.
  intros Hlimit Hne.
  assert (Hstart : start items limit
                   = {| results := replicate (length items) None; inFlight := 0;
                        index := 0; running := []; outcome := @Pending R E |}).
  { unfold start, next. cbn [index inFlight].
    destruct items as [|x xs]; [contradiction|].
    simpl. destruct (Z.ltb_spec 0 limit); [lia|]. reflexivity. }
  induction 1 as [|st i Hreach IH Hin].
  - rewrite Hstart. auto.
  - destruct IH as (_ & _ & Hrun & _). rewrite Hrun in Hin. inversion Hin.
Qed.
End RunWithConcurrency.

Lemma runWithConcurrency_bounded_witness :
  let st := settle_in_order two_items 2 fails_on_one [0%nat] in
  reachable two_items 2 fails_on_one st
  /\ inFlight st = Z.of_nat (length (running st))
  /\ Z.of_nat (length (running st)) <= Z.max 0 2
  /\ NoDup (running st)
  /\ forall j, j ∈ running st -> exists it, two_items !! j = Some (Some it).
Proof.
  intros st.
  assert (H : reachable two_items 2 fails_on_one st)
    by apply PoolTheorems.settle_in_order_reachable.
  split; [exact H|].
  exact (runWithConcurrency_bounded two_items 2 fails_on_one st H).
Defined.

Lemma runWithConcurrency_settles_witness :
  1 <= 2 /\ Forall (fun x => exists it : nat, x = Some it) two_items
  /\ exists more,
       let st := settle_in_order two_items 2 fails_on_one ([0%nat] ++ more) in
       running st = [] /\ index st = length two_items /\ outcome st <> Pending.
Proof.
  assert (H1 : 1 <= 2) by lia.
  assert (H2 : Forall (fun x => exists it : nat, x = Some it) two_items)
    by (repeat constructor; eauto).
  split; [exact H1|]. split; [exact H2|].
  exact (runWithConcurrency_settles two_items 2 fails_on_one [0%nat] H1 H2).
Defined.

Lemma runWithConcurrency_never_starts_witness :
  let st := @start nat nat string two_items 0 in
  0 <= 0 /\ two_items <> []
  /\ reachable two_items 0 fails_on_one st
  /\ st = start two_items 0 /\ outcome st = Pending /\ running st = []
  /\ index st = 0%nat.
Proof.
  intros st.
  assert (H1 : 0 <= 0) by lia.
  assert (H2 : two_items <> []) by discriminate.
  assert (H3 : reachable two_items 0 fails_on_one st) by apply reachable_start.
  split; [exact H1|]. split; [exact H2|]. split; [exact H3|].
  exact (runWithConcurrency_never_starts two_items 0 fails_on_one st H1 H2 H3).
Defined.

End PoolLiveness.

(** ** The workers of a round *)

Module WorkerTheorems.
Import Js Research ResearchFacts ResearchExamples.

Section Controller.
Context `{Collaborators}.

(** X14: a worker whose sub-query is already among the visited URLs
    stops after the model has answered: it returns an empty result,
    spawns no task, and, as the [finally] block is not reached, leaves
    the progress record as it was and reports nothing. *)
Theorem limitedProcessResult_already_visited recurse fr q p w g :
  callGeminiProConfigurable
    (generateGeminiPrompt (sq_query q) (sq_researchGoal q)
       (contents w (f_learnings fr)))
    ≫= processGeminiResponse = Some g ->
  sq_query q ∈ contents w (f_visitedUrls fr) ->
  exists r w', limitedProcessResult recurse fr q p w = Some (r, [], p, w')
    /\ contents w' (pr_learnings r) = []
    /\ contents w' (pr_visitedUrls r) = []
    /\ log w' = log w ++ [ECallGemini
                            (generateGeminiPrompt (sq_query q) (sq_researchGoal q)
                               (contents w (f_learnings fr)))].
Proof.
  intros Hok Hin. unfold limitedProcessResult.
  unfold mbind at 1. unfold M_bind at 1. unfold read at 1. cbv beta iota.
  unfold mbind at 1. unfold M_bind at 1. unfold emit at 1. cbv beta iota.
  rewrite Hok.
  unfold mbind at 1. unfold M_bind at 1. unfold read at 1. cbv beta iota.
  assert (Hc : contents {| heap := heap w; log := log w ++ [ECallGemini
                 (generateGeminiPrompt (sq_query q) (sq_researchGoal q)
                    (contents w (f_learnings fr)))] |} (f_visitedUrls fr)
               = contents w (f_visitedUrls fr)) by reflexivity.
  rewrite Hc. rewrite bool_decide_eq_true_2 by exact Hin.
  eexists _, _. split; [reflexivity|]. simpl. split; [|split].
  - apply contents_new2.
  - apply contents_new.
  - reflexivity.
Qed.
End Controller.

Lemma limitedProcessResult_already_visited_witness :
  let prompt := generateGeminiPrompt (Collaborators := answering)
                  (sq_query a_query) (sq_researchGoal a_query)
                  (contents visited_world (f_learnings a_frame)) in
  let g := {| g_analysis := EmptyString; g_learnings := [];
              g_urls := []; g_citations := [] |} in
  (Research.callGeminiProConfigurable (Collaborators := answering) prompt
     ≫= processGeminiResponse (Collaborators := answering) = Some g)
  /\ sq_query a_query ∈ contents visited_world (f_visitedUrls a_frame)
  /\ exists r w',
       limitedProcessResult (H := answering) (fun _ _ => None) a_frame a_query
         first_progress visited_world = Some (r, [], first_progress, w')
       /\ contents w' (pr_learnings r) = []
       /\ contents w' (pr_visitedUrls r) = []
       /\ log w' = log visited_world ++ [ECallGemini prompt].
Proof.
  intros prompt g.
  assert (H1 : Research.callGeminiProConfigurable (Collaborators := answering) prompt
                 ≫= processGeminiResponse (Collaborators := answering) = Some g)
    by reflexivity.
  assert (H2 : sq_query a_query ∈ contents visited_world (f_visitedUrls a_frame))
    by (vm_compute; left).
  split; [exact H1|]. split; [exact H2|].
  exact (limitedProcessResult_already_visited (H := answering) (fun _ _ => None)
           a_frame a_query first_progress visited_world g H1 H2).
Defined.

Lemma limitedProcessResult_failure_witness :
  (Research.callGeminiProConfigurable (Collaborators := silent)
     (generateGeminiPrompt (Collaborators := silent)
        (sq_query a_query) (sq_researchGoal a_query)
        (contents visited_world (f_learnings a_frame)))
     ≫= processGeminiResponse (Collaborators := silent) = None)
  /\ exists r w',
       limitedProcessResult (H := silent) (fun _ _ => None) a_frame a_query
         first_progress visited_world = Some (r, [], first_progress, w')
       /\ contents w' (pr_learnings r) = []
       /\ contents w' (pr_visitedUrls r) = [].
Proof.
  assert (H1 : Research.callGeminiProConfigurable (Collaborators := silent)
                 (generateGeminiPrompt (Collaborators := silent)
                    (sq_query a_query) (sq_researchGoal a_query)
                    (contents visited_world (f_learnings a_frame)))
                 ≫= processGeminiResponse (Collaborators := silent) = None)
    by reflexivity.
  split; [exact H1|].
  exact (DispatchTheorems.limitedProcessResult_failure (H := silent) (fun _ _ => None)
           a_frame a_query first_progress visited_world H1).
Defined.

End WorkerTheorems.

(** ** The chunks of the structural splitter are normalised *)

Module WhitespaceFacts.
Import Js JsFacts Whitespace.

Lemma tidy_collapse_from b s : tidy_from b (collapse_from b s).
Proof.
  revert b. induction s as [|c r IH]; intros b; simpl; [exact I|].
  destruct (is_space c) eqn:Hc.
  - destruct b; [apply IH|]. simpl. repeat split. apply IH.
  - simpl. rewrite Hc. apply IH.
Qed.

Lemma tidy_from_weaken b s : tidy_from true s -> tidy_from b s.
Proof.
  destruct s as [|c r]; simpl; [auto|].
  destruct (is_space c); [intros (_ & [=] & _)|auto].
Qed.

Lemma collapse_from_tidy b s : tidy_from b s -> collapse_from b s = s.
Proof.
  revert b. induction s as [|c r IH]; intros b; simpl; [reflexivity|].
  destruct (is_space c).
  - intros (-> & -> & Hr). f_equal. apply IH. exact Hr.
  - intros Hr. f_equal. apply IH. exact Hr.
Qed.

Lemma tidy_trimStart b s : tidy_from b s -> tidy_from true (trimStart s).
Proof.
  revert b. induction s as [|c r IH]; intros b; simpl; [auto|].
  destruct (is_space c) eqn:Hc.
  - intros (_ & _ & Hr). apply (IH true Hr).
  - intros Hr. simpl. rewrite Hc. exact Hr.
Qed.

Lemma tidy_trimEnd b s : tidy_from b s -> tidy_from b (trimEnd s).
Proof.
  revert b. induction s as [|c r IH]; intros b; simpl; [auto|].
  destruct (is_space c) eqn:Hc; simpl.
  - intros (-> & -> & Hr). destruct (truthy (trimEnd r)); simpl; [|exact I].
    repeat split. apply IH. exact Hr.
  - intros Hr. rewrite Hc. apply IH. exact Hr.
Qed.

Lemma trimEnd_idem s : trimEnd (trimEnd s) = trimEnd s.
Proof.
  induction s as [|c r IH]; simpl; [reflexivity|].
  destruct (is_space c && negb (truthy (trimEnd r))) eqn:Hc; [reflexivity|].
  simpl. rewrite IH, Hc. reflexivity.
Qed.

Lemma trimStart_tidy s : tidy_from true s -> trimStart s = s.
Proof.
  destruct s as [|c r]; simpl; [reflexivity|].
  destruct (is_space c); [intros (_ & [=] & _)|reflexivity].
Qed.

Lemma tidy_trim_collapse s : tidy (trim (collapse s)).
Proof.
  split.
  - unfold trim. apply tidy_trimEnd. eapply tidy_trimStart. apply tidy_collapse_from.
  - apply trimEnd_idem.
Qed.

Lemma tidy_fixed s : tidy s -> trim (collapse s) = s.
Proof.
  intros [Ht He]. unfold collapse.
  rewrite (collapse_from_tidy false s) by (apply tidy_from_weaken; exact Ht).
  unfold trim. rewrite trimStart_tidy by exact Ht. exact He.
Qed.

(** Trimming commutes with collapsing. *)
Lemma trimStart_collapse_from b s :
  trimStart (collapse_from b s) = collapse_from true s.
Proof.
  revert b. induction s as [|c r IH]; intros b; simpl; [reflexivity|].
  destruct (is_space c) eqn:Hc.
  - destruct b; simpl; apply IH.
  - simpl. rewrite Hc. reflexivity.
Qed.

Lemma collapse_from_trimStart b s :
  collapse_from b (trimStart s) = collapse_from true s.
Proof.
  induction s as [|c r IH]; simpl; [destruct b; reflexivity|].
  destruct (is_space c) eqn:Hc; [exact IH|].
  simpl. rewrite Hc. reflexivity.
Qed.

Lemma collapse_from_blank s :
  truthy (trimEnd s) = false -> collapse_from true s = EmptyString.
Proof.
  induction s as [|c r IH]; simpl; [reflexivity|].
  destruct (is_space c) eqn:Hc; simpl.
  - destruct (truthy (trimEnd r)); simpl; [discriminate|]. intros _. apply IH. reflexivity.
  - discriminate.
Qed.

Lemma trimEnd_cons c r r' :
  trimEnd r = trimEnd r' -> trimEnd (String c r) = trimEnd (String c r').
Proof. simpl. intros ->. reflexivity. Qed.

Lemma trimEnd_collapse_from b s :
  trimEnd (collapse_from b (trimEnd s)) = trimEnd (collapse_from b s).
Proof.
  revert b. induction s as [|c r IH]; intros b; [reflexivity|].
  cbn [trimEnd].
  destruct (is_space c && negb (truthy (trimEnd r))) eqn:Hc.
  - apply andb_true_iff in Hc as [Hc Hr]. apply negb_true_iff in Hr.
    cbn [collapse_from]. rewrite Hc, (collapse_from_blank r Hr).
    destruct b; reflexivity.
  - cbn [collapse_from]. destruct (is_space c).
    + destruct b; [apply IH|]. apply trimEnd_cons, IH.
    + apply trimEnd_cons, IH.
Qed.

Lemma trim_collapse_trim s : trim (collapse (trim s)) = trim (collapse s).
Proof.
  unfold trim, collapse.
  rewrite !trimStart_collapse_from.
  rewrite <- (collapse_from_trimStart true (trimEnd (trimStart s))).
  assert (Hst : trimStart (trimEnd (trimStart s)) = trimEnd (trimStart s)).
  { destruct s as [|c r]; [reflexivity|].
    generalize (String c r). intros u.
    induction u as [|d u IH]; simpl; [reflexivity|].
    destruct (is_space d) eqn:Hd; [exact IH|].
    simpl. rewrite Hd. simpl. rewrite Hd. reflexivity. }
  rewrite Hst, trimEnd_collapse_from, collapse_from_trimStart. reflexivity.
Qed.

Lemma truthy_trimEnd_collapse b s :
  truthy (trimEnd s) = true -> truthy (trimEnd (collapse_from b s)) = true.
Proof.
  revert b. induction s as [|c r IH]; intros b; simpl; [discriminate|].
  destruct (is_space c) eqn:Hc; simpl.
  - destruct (truthy (trimEnd r)) eqn:Hr; simpl; [|discriminate]. intros _.
    destruct b; [apply IH; reflexivity|].
    simpl. rewrite (IH true) by reflexivity. reflexivity.
  - intros _. rewrite Hc. reflexivity.
Qed.

Lemma truthy_trim_collapse s :
  truthy (trim s) = true -> truthy (trim (collapse s)) = true.
Proof.
  unfold trim, collapse. rewrite trimStart_collapse_from.
  rewrite <- (collapse_from_trimStart true s).
  apply truthy_trimEnd_collapse.
Qed.

End WhitespaceFacts.

Module SplitterShape.
Import Js JsFacts Splitter SplitterFacts Whitespace WhitespaceFacts.

(** X5: every chunk [splitText] returns is normalised: it has no white
    space at either end and none inside but single spaces, so that
    normalising it again changes nothing. *)
Theorem splitText_normalised sp text :
  Forall (fun c => tidy c /\ normalize c = c) (splitText sp text).
Proof.
  unfold splitText. destruct (truthy text); simpl; [|constructor].
  apply Forall_forall. intros c Hin.
  apply list_elem_of_filter in Hin as [_ Hin].
  apply list_elem_of_fmap in Hin as (c0 & -> & _).
  unfold normalize. split; [apply tidy_trim_collapse|].
  apply tidy_fixed, tidy_trim_collapse.
Qed.

(** X6: a text that fits in one chunk once trimmed comes back as
    that one chunk, normalised; a text of white space only gives no
    chunk at all. *)
Theorem splitText_short sp text :
  strlen (trim text) <= chunkSize sp ->
  splitText sp text
  = if truthy (trim text) then [normalize text] else [].
Proof.
  intros Hfit. unfold splitText.
  destruct (truthy text) eqn:Ht; simpl.
  - unfold splitRecursive.
    assert (Hsr : forall seps,
              splitRecursive_from (chunkSize sp)
                (Z.max 1 (chunkSize sp - chunkOverlap sp)) seps text
              = if truthy (trim text) then [trim text] else []).
    { intros seps. destruct seps; simpl;
        destruct (truthy (trim text)); simpl; try reflexivity;
        destruct (Z.leb_spec (strlen (trim text)) (chunkSize sp)); try reflexivity; lia. }
    rewrite Hsr. destruct (truthy (trim text)) eqn:Htr; [|reflexivity].
    simpl. unfold normalize at 1 2. rewrite trim_collapse_trim.
    rewrite filter_cons, decide_True by (apply truthy_trim_collapse; exact Htr).
    reflexivity.
  - destruct text; [reflexivity|discriminate].
Qed.

Lemma splitText_short_witness :
  let sp := {| chunkSize := 10; chunkOverlap := 2;
               separators := default_separators |} in
  strlen (trim "  a   b ") <= chunkSize sp
  /\ splitText sp "  a   b "
     = if truthy (trim "  a   b ") then [normalize "  a   b "] else [].
Proof.
  intros sp.
  assert (H : strlen (trim "  a   b ") <= chunkSize sp) by (vm_compute; discriminate).
  split; [exact H|]. exact (splitText_short sp "  a   b " H).
Defined.

End SplitterShape.

(** ** The other splitters of text-splitter.ts *)

Module SplitterVariantsTheorems.
Import Js JsFacts Splitter Semantic SplitterVariants.

(** What follows a CR once its LF, if any, is passed. *)
Lemma normalize_newlines_cons c r :
  normalize_newlines (String c r)
  = if (nat_of_ascii c =? 13)%nat
    then String (ascii_of_nat 10)
           (normalize_newlines
              match r with
              | String d r' => if (nat_of_ascii d =? 10)%nat then r' else r
              | EmptyString => EmptyString
              end)
    else String c (normalize_newlines r).
Proof.
  simpl. destruct (nat_of_ascii c =? 13)%nat; [|reflexivity].
  destruct r as [|d r']; [reflexivity|].
  destruct (nat_of_ascii d =? 10)%nat; reflexivity.
Qed.

Lemma normalize_newlines_no_cr s :
  Forall (fun c => nat_of_ascii c <> 13%nat)
         (list_ascii_of_string (normalize_newlines s)).
Proof.
  remember (String.length s) as n eqn:Hn. revert s Hn.
  induction n as [n IH] using lt_wf_ind. intros s ->.
  destruct s as [|c r]; [constructor|].
  rewrite normalize_newlines_cons.
  destruct (Nat.eqb_spec (nat_of_ascii c) 13) as [Hc|Hc];
    cbn [list_ascii_of_string]; constructor.
  - rewrite nat_ascii_embedding; lia.
  - eapply IH; [|reflexivity].
    destruct r as [|d r']; [simpl; lia|].
    destruct (nat_of_ascii d =? 10)%nat; simpl; lia.
  - exact Hc.
  - eapply IH; [|reflexivity]. simpl. lia.
Qed.

Lemma normalize_newlines_fixed s :
  Forall (fun c => nat_of_ascii c <> 13%nat) (list_ascii_of_string s) ->
  normalize_newlines s = s.
Proof.
  induction s as [|c r IH]; simpl; [reflexivity|].
  intros H. inversion H as [|? ? Hc Hr]; subst.
  destruct (Nat.eqb_spec (nat_of_ascii c) 13); [contradiction|].
  f_equal. apply IH. exact Hr.
Qed.

Lemma normalize_newlines_idem s :
  normalize_newlines (normalize_newlines s) = normalize_newlines s.
Proof. apply normalize_newlines_fixed, normalize_newlines_no_cr. Qed.

Lemma truthy_normalize_newlines s :
  truthy (normalize_newlines s) = truthy s.
Proof.
  destruct s as [|c r]; simpl; [reflexivity|].
  destruct (nat_of_ascii c =? 13)%nat; [|reflexivity].
  destruct r as [|d r']; [reflexivity|].
  destruct (nat_of_ascii d =? 10)%nat; reflexivity.
Qed.

(** X7: the SemanticTextSplitter of text-splitter.ts does not see how
    lines end: a text with CR LF or CR line ends gives the chunks of
    the same text with LF line ends, and a text without any CR gives
    the chunks of the structural splitter. *)
Theorem Semantic_splitText_line_ends base text :
  Semantic_splitText base text
  = Semantic_splitText base (normalize_newlines text)
  /\ Semantic_splitText base (normalize_newlines text)
     = Splitter.splitText base (normalize_newlines text).
Proof.
  unfold Semantic_splitText.
  rewrite truthy_normalize_newlines, normalize_newlines_idem.
  split; [reflexivity|].
  destruct (truthy text) eqn:Ht; simpl; [reflexivity|].
  destruct text; [reflexivity|discriminate].
Qed.

Section Tiktoken.
Variable self : TiktokenTextSplitter.
Hypothesis overlap_ok : 0 <= chunkOverlap self < chunkSize self.

Lemma stride_bounds : 1 <= stride self <= chunkSize self.
Proof. unfold stride. lia. Qed.

Lemma slice_window (ids : list Z) i0 :
  0 <= i0 < Z.of_nat (length ids) ->
  JsArray.slice ids i0 (i0 + chunkSize self)
  = take (Z.to_nat (Z.min (chunkSize self) (Z.of_nat (length ids) - i0)))
         (drop (Z.to_nat i0) ids).
Proof.
  intros Hi. unfold JsArray.slice, rel_index.
  destruct (Z.ltb_spec i0 0); [lia|].
  destruct (Z.ltb_spec (i0 + chunkSize self) 0); [lia|].
  f_equal; [|f_equal; lia]. lia.
Qed.

Lemma windows_short fuel (ids : list Z) i0 :
  0 <= i0 ->
  Forall (fun w => Z.of_nat (length w) <= chunkSize self) (windows self fuel ids i0).
Proof.
  pose proof stride_bounds.
  revert i0. induction fuel as [|f IH]; intros i0 Hi0; simpl; [constructor|].
  destruct (Z.ltb_spec i0 (Z.of_nat (length ids))); [|constructor].
  constructor; [|apply IH; lia].
  rewrite slice_window by lia. rewrite length_take. lia.
Qed.

Lemma windows_cover fuel (ids : list Z) i0 i x :
  0 <= i0 <= Z.of_nat i -> Z.of_nat (length ids) - i0 <= Z.of_nat fuel ->
  ids !! i = Some x ->
  exists k w, windows self fuel ids i0 !! k = Some w
              /\ i0 + Z.of_nat k * stride self <= Z.of_nat i
              /\ w !! Z.to_nat (Z.of_nat i - (i0 + Z.of_nat k * stride self)) = Some x.
Proof.
  pose proof stride_bounds as Hs.
  revert i0. induction fuel as [|f IH]; intros i0 Hi0 Hfuel Hx.
  - apply lookup_lt_Some in Hx. lia.
  - pose proof (lookup_lt_Some _ _ _ Hx) as Hlt. simpl.
    destruct (Z.ltb_spec i0 (Z.of_nat (length ids))); [|lia].
    destruct (Z.lt_ge_cases (Z.of_nat i) (i0 + stride self)) as [Hnear|Hfar].
    + exists 0%nat, (JsArray.slice ids i0 (i0 + chunkSize self)).
      split; [reflexivity|]. split; [lia|].
      rewrite slice_window by lia.
      rewrite lookup_take_lt by lia.
      rewrite lookup_drop. rewrite <- Hx. f_equal. lia.
    + destruct (IH (i0 + stride self) ltac:(lia) ltac:(lia) Hx)
        as (k & w & Hk & Hle & Hw).
      exists (S k), w. split; [exact Hk|].
      replace (i0 + Z.of_nat (S k) * stride self)
        with (i0 + stride self + Z.of_nat k * stride self) by lia.
      split; [exact Hle|exact Hw].
Qed.
End Tiktoken.

(** X8: with [0 <= chunkOverlap < chunkSize] the windows the Tiktoken
    splitter decodes hold at most [chunkSize] tokens each and leave no
    token out: the token at any index is in the window that starts at
    a multiple of the stride at or before it. *)
Theorem Tiktoken_windows self ids :
  0 <= chunkOverlap self < chunkSize self ->
  let ws := windows self (length ids) ids 0 in
  Forall (fun w => Z.of_nat (length w) <= chunkSize self) ws
  /\ forall i x, ids !! i = Some x ->
       exists k w, ws !! k = Some w
                   /\ Z.of_nat k * stride self <= Z.of_nat i
                   /\ w !! Z.to_nat (Z.of_nat i - Z.of_nat k * stride self) = Some x.
Proof.
  intros Hok ws. split; [apply windows_short; [exact Hok|lia]|].
  intros i x Hx.
  assert (H0 : 0 <= 0 <= Z.of_nat i) by lia.
  assert (Hf : Z.of_nat (length ids) - 0 <= Z.of_nat (length ids)) by lia.
  destruct (windows_cover self Hok (length ids) ids 0 i x H0 Hf Hx)
    as (k & w & Hk & Hle & Hw).
  exists k, w. split; [exact Hk|]. split; [lia|].
  rewrite <- Hw. f_equal; lia.
Qed.

Lemma Tiktoken_windows_witness :
  let self := {| chunkSize := 3; chunkOverlap := 1 |} in
  let ids := encode_chars "abcdefg" in
  let ws := windows self (length ids) ids 0 in
  0 <= chunkOverlap self < chunkSize self
  /\ Forall (fun w => Z.of_nat (length w) <= chunkSize self) ws
  /\ forall i x, ids !! i = Some x ->
       exists k w, ws !! k = Some w
                   /\ Z.of_nat k * stride self <= Z.of_nat i
                   /\ w !! Z.to_nat (Z.of_nat i - Z.of_nat k * stride self) = Some x.
Proof.
  intros self ids ws.
  assert (H : 0 <= chunkOverlap self < chunkSize self) by (simpl; lia).
  split; [exact H|]. exact (Tiktoken_windows self ids H).
Defined.

End SplitterVariantsTheorems.

(** ** The groups of the semantic splitter *)

Module SemanticGroups.
Import Js JsFacts Semantic Whitespace WhitespaceFacts SerpCacheFacts SemanticExamples.

Lemma trimEnd_fixed_cons c r :
  trimEnd (String c r) = String c r -> trimEnd r = r /\ (r = EmptyString -> is_space c = false).
Proof.
  simpl. destruct (is_space c && negb (truthy (trimEnd r))) eqn:Hc; [discriminate|].
  intros [= Hr]. split; [exact Hr|]. intros ->. simpl in Hc.
  destruct (is_space c); [discriminate|reflexivity].
Qed.

Lemma trimEnd_append a b :
  trimEnd b = b -> b <> EmptyString -> trimEnd (a +:+ b) = a +:+ b.
Proof.
  intros Hb Hne. induction a as [|c a IH]; [exact Hb|].
  rewrite append_cons. simpl. rewrite IH.
  assert (Ht : truthy (a +:+ b) = true)
    by (destruct a; [destruct b; [contradiction|reflexivity]|reflexivity]).
  rewrite Ht. rewrite andb_false_r. reflexivity.
Qed.

Lemma tidy_from_append p a b :
  tidy_from p a -> trimEnd a = a -> a <> EmptyString -> tidy_from true b ->
  tidy_from p (a +:+ String " " b).
Proof.
  revert p. induction a as [|c a IH]; intros p Ha He Hne Hb; [contradiction|].
  apply trimEnd_fixed_cons in He as [He Hlast].
  rewrite append_cons. simpl in *.
  destruct a as [|d a'].
  - rewrite (Hlast eq_refl) in *. simpl. auto.
  - destruct (is_space c).
    + destruct Ha as (-> & -> & Ha). repeat split. apply IH; [exact Ha|exact He|discriminate|exact Hb].
    + apply IH; [exact Ha|exact He|discriminate|exact Hb].
Qed.

(** Two normalised, non-empty strings joined by one space are
    normalised, and trimming leaves them alone. *)
Lemma tidy_join a b :
  tidy a -> a <> EmptyString -> tidy b -> b <> EmptyString ->
  trim (a +:+ " " +:+ b) = a +:+ " " +:+ b /\ tidy (a +:+ " " +:+ b).
Proof.
  intros [Ha Hea] Hna [Hb Heb] Hnb.
  assert (Ht : tidy (a +:+ " " +:+ b)).
  { split.
    - change (" " +:+ b) with (String " " b). apply tidy_from_append; assumption.
    - change (" " +:+ b) with (String " " b).
      apply (trimEnd_append a (String " " b)); [|discriminate].
      simpl. rewrite Heb. destruct b; [contradiction|reflexivity]. }
  split; [|exact Ht].
  destruct Ht as [Ht1 Ht2]. unfold trim. rewrite trimStart_tidy by exact Ht1. exact Ht2.
Qed.

Lemma tidy_clean s : tidy (clean s).
Proof. apply tidy_trim_collapse. Qed.

Section WithEmbeddings.
Variable generateTextEmbedding : string -> option (list Q).
Variable cosineSimilarity : list Q -> list Q -> option Q.
Variable tokenCount : string -> Z.
Variable self : SemanticTextSplitter.
Variable sentences : list string.
Variable embs : list (list Q).
Variable d : nat.

Hypothesis sentences_tidy : Forall (fun s => tidy s /\ s <> EmptyString) sentences.
Hypothesis embs_dim : Forall (fun e => length e = d) embs.
Hypothesis embs_all : length embs = length sentences.
Hypothesis similarity_defined :
  forall a b, length a = length b -> is_Some (cosineSimilarity a b).

Abbreviation grow := (grow cosineSimilarity tokenCount self sentences embs).
Abbreviation group := (group cosineSimilarity tokenCount self sentences embs).

(** A chunk the grouping may emit. *)
Let good (c : string) : Prop :=
  tidy c /\ c <> EmptyString /\ (c ∈ sentences \/ tokenCount c <= chunkSize self).

Lemma update_centroid_dim centroid nextEmb :
  length centroid = d -> length nextEmb = d ->
  length (update_centroid centroid nextEmb) = d.
Proof.
  intros Hc Hn. unfold update_centroid, average.
  destruct (_ && _); [|exact Hc].
  rewrite length_zip_with. lia.
Qed.

Lemma grow_good fuel i current centroid start :
  length centroid = d ->
  tidy current -> current <> EmptyString ->
  (current = start \/ tokenCount current <= chunkSize self) ->
  exists current' j,
    grow fuel i current centroid = Some (current', j)
    /\ (i <= j)%nat
    /\ tidy current' /\ current' <> EmptyString
    /\ (current' = start \/ tokenCount current' <= chunkSize self).
Proof.
  revert i current centroid.
  induction fuel as [|f IH]; intros i current centroid Hdim Ht Hne Hb; simpl.
  { eauto 10. }
  destruct (sentences !! i) as [next|] eqn:Hnext; [|eauto 10].
  destruct (truthy next) eqn:Htn; simpl; [|eauto 10].
  assert (Hin : next ∈ sentences) by (apply list_elem_of_lookup; eauto).
  rewrite Forall_forall in sentences_tidy.
  destruct (sentences_tidy next Hin) as [Htidy Hnn].
  assert (Hemb : length (default [] (embs !! i)) = d).
  { destruct (embs !! i) as [e|] eqn:He.
    - rewrite Forall_forall in embs_dim. apply embs_dim.
      apply list_elem_of_lookup. eauto.
    - apply lookup_ge_None in He. apply lookup_lt_Some in Hnext. lia. }
  assert (Hsim : is_Some
            (if (0 <? length centroid)%nat && (0 <? length (default [] (embs !! i)))%nat
             then cosineSimilarity centroid (default [] (embs !! i)) else Some 0%Q)).
  { destruct (_ && _); [apply similarity_defined; lia|eauto]. }
  destruct Hsim as [sim ->]. simpl.
  destruct (tidy_join current next Ht Hne Htidy Hnn) as [Htrim Hj].
  rewrite Htrim.
  destruct (Z.leb_spec (tokenCount (current +:+ " " +:+ next)) (chunkSize self)) as [Hle|Hgt];
    simpl; [|eauto 10].
  destruct (Qle_bool (65 # 100) sim); [|eauto 10].
  destruct (IH (S i) (current +:+ " " +:+ next)
              (update_centroid centroid (default [] (embs !! i))))
    as (c' & j & Hrun & Hij & Hc1 & Hc2 & Hc3).
  - apply update_centroid_dim; assumption.
  - exact Hj.
  - destruct current; [contradiction|discriminate].
  - right. exact Hle.
  - exists c', j. split; [exact Hrun|]. split; [lia|]. auto.
Qed.

Lemma group_good fuel i :
  exists chunks, group fuel i = Some chunks /\ Forall good chunks.
Proof.
  revert i. induction fuel as [|f IH]; intros i; simpl.
  { exists []. split; [reflexivity|constructor]. }
  destruct (sentences !! i) as [first|] eqn:Hfirst;
    [|exists []; split; [reflexivity|constructor]].
  destruct (truthy first) eqn:Htf; simpl;
    [|exists []; split; [reflexivity|constructor]].
  assert (Hin : first ∈ sentences) by (apply list_elem_of_lookup; eauto).
  pose proof sentences_tidy as Hall. rewrite Forall_forall in Hall.
  destruct (Hall first Hin) as [Htidy Hnn].
  assert (Hemb : length (default [] (embs !! i)) = d).
  { destruct (embs !! i) as [e|] eqn:He.
    - rewrite Forall_forall in embs_dim. apply embs_dim.
      apply list_elem_of_lookup. eauto.
    - apply lookup_ge_None in He. apply lookup_lt_Some in Hfirst. lia. }
  destruct (grow_good (length sentences) (S i) first (default [] (embs !! i)) first
              Hemb Htidy Hnn (or_introl eq_refl))
    as (c' & j & -> & Hij & Hc1 & Hc2 & Hc3).
  simpl.
  destruct (IH (if (j <? length sentences)%nat && (0 <? chunkOverlap self)
                then Nat.max (S i) (j - 1) else j)) as (chunks & -> & Hchunks).
  simpl. eexists. split; [reflexivity|].
  constructor; [|exact Hchunks].
  split; [exact Hc1|]. split; [exact Hc2|].
  destruct Hc3 as [->|Hle]; [left; exact Hin|right; exact Hle].
Qed.

(** The budget of the two loops is never used up. *)
Lemma grow_S fuel i current centroid :
  grow (S fuel) i current centroid
  = match sentences !! i with
    | None => Some (current, i)
    | Some next =>
        if negb (truthy next) then Some (current, i)
        else
          let nextEmb := default [] (embs !! i) in
          sim ← (if (0 <? length centroid)%nat && (0 <? length nextEmb)%nat
                 then cosineSimilarity centroid nextEmb else Some 0%Q);
          let merged := trim (current +:+ " " +:+ next) in
          if (tokenCount merged <=? chunkSize self) && Qle_bool (65 # 100) sim
          then grow fuel (S i) merged (update_centroid centroid nextEmb)
          else Some (current, i)
    end.
Proof. reflexivity. Qed.

Lemma grow_fuel_enough fuel i current centroid :
  (length sentences - i <= fuel)%nat ->
  grow (S fuel) i current centroid = grow fuel i current centroid.
Proof.
  revert i current centroid.
  induction fuel as [|f IH]; intros i current centroid Hf.
  - simpl. destruct (sentences !! i) eqn:Hi; [|reflexivity].
    apply lookup_lt_Some in Hi. lia.
  - rewrite (grow_S (S f)), (grow_S f).
    destruct (sentences !! i) as [next|]; [|reflexivity].
    destruct (negb (truthy next)); [reflexivity|]. cbv zeta.
    destruct ((0 <? length centroid)%nat
              && (0 <? length (default [] (embs !! i)))%nat);
      [destruct (cosineSimilarity _ _) as [sim|]; [|reflexivity]|];
      simpl; (destruct (_ && _); [|reflexivity]); apply IH; lia.
Qed.

Lemma grow_index fuel i current centroid current' j :
  grow fuel i current centroid = Some (current', j) -> (i <= j)%nat.
Proof.
  revert i current centroid.
  induction fuel as [|f IH]; intros i current centroid; simpl.
  { intros [= _ <-]. lia. }
  destruct (sentences !! i) as [next|]; [|intros [= _ <-]; lia].
  destruct (truthy next); simpl; [|intros [= _ <-]; lia].
  destruct ((0 <? length centroid)%nat
            && (0 <? length (default [] (embs !! i)))%nat);
    [destruct (cosineSimilarity _ _) as [sim|]; [|discriminate]|];
    simpl; (destruct (_ && _); [|intros [= _ <-]; lia]);
    intros Hrun; apply IH in Hrun; lia.
Qed.

Lemma group_S fuel i :
  group (S fuel) i
  = match sentences !! i with
    | None => Some []
    | Some first =>
        if negb (truthy first) then Some []
        else
          '(current, j) ← grow (length sentences) (S i) first
                            (default [] (embs !! i));
          let j' :=
            if (j <? length sentences)%nat && (0 <? chunkOverlap self)
            then Nat.max (S i) (j - 1) else j in
          chunks ← group fuel j';
          Some (current :: chunks)
    end.
Proof. reflexivity. Qed.

Lemma group_fuel_enough fuel i :
  (length sentences - i <= fuel)%nat -> group (S fuel) i = group fuel i.
Proof.
  revert i. induction fuel as [|f IH]; intros i Hf.
  - simpl. destruct (sentences !! i) eqn:Hi; [|reflexivity].
    apply lookup_lt_Some in Hi. lia.
  - rewrite (group_S (S f)), (group_S f).
    destruct (sentences !! i) as [first|] eqn:Hi; [|reflexivity].
    apply lookup_lt_Some in Hi.
    destruct (negb (truthy first)); [reflexivity|].
    destruct (grow (length sentences) (S i) first (default [] (embs !! i)))
      as [[current j]|] eqn:Hg; [|reflexivity].
    apply grow_index in Hg. cbn [mbind option_bind]. cbv zeta.
    rewrite IH; [reflexivity|].
    destruct (_ && _); lia.
Qed.
End WithEmbeddings.

Lemma sentences_of_tidy text :
  Forall (fun s => tidy s /\ s <> EmptyString) (sentences_of text).
Proof.
  unfold sentences_of. apply Forall_forall. intros s Hin.
  apply list_elem_of_filter in Hin as [Ht Hin].
  apply list_elem_of_fmap in Hin as (x & -> & _).
  split; [apply tidy_clean|]. apply truthy_true. exact Ht.
Qed.

Lemma clean_good chunks :
  Forall (fun c => tidy c /\ c <> EmptyString) chunks ->
  filter (fun c => truthy c = true) (map clean chunks) = chunks.
Proof.
  induction 1 as [|c chunks [Ht Hne] _ IH]; [reflexivity|].
  simpl. unfold clean at 1. rewrite (tidy_fixed c Ht).
  rewrite filter_cons, decide_True by (apply truthy_true; exact Hne).
  f_equal. exact IH.
Qed.

(** X9: when the embedding capability answers every sentence of a
    text of several sentences with a vector of the same dimension, and
    the similarity is defined on such vectors, [splitText] does not
    reject; every chunk it returns is non-empty and normalised, and is
    one of the sentences or stays within the token budget
    [chunkSize]. *)
Theorem splitText_groups generateTextEmbedding cosineSimilarity tokenCount
    self text d :
  truthy (trim text) = true ->
  (1 < length (sentences_of text))%nat ->
  (forall s, s ∈ sentences_of text ->
             exists v, generateTextEmbedding s = Some v /\ length v = d) ->
  (forall a b, length a = length b -> is_Some (cosineSimilarity a b)) ->
  exists chunks,
    splitText generateTextEmbedding cosineSimilarity tokenCount self text
    = Some chunks
    /\ Forall (fun c => tidy c /\ c <> EmptyString
                        /\ (c ∈ sentences_of text
                            \/ tokenCount c <= chunkSize self)) chunks.
Proof.
  intros Hblank Hmany Hemb Hsim. unfold splitText.
  rewrite Hblank. cbn [negb]. cbv zeta.
  destruct (Nat.leb_spec (length (sentences_of text)) 1); [lia|].
  destruct (mapM generateTextEmbedding (sentences_of text)) as [embs|] eqn:Hm;
    cbn [mbind option_bind].
  - apply mapM_Some in Hm.
    assert (Hdim : Forall (fun e => length e = d) embs).
    { apply Forall_forall. intros e He.
      apply list_elem_of_lookup in He as [i Hi].
      destruct (Forall2_lookup_r _ _ _ _ _ Hm Hi) as (s & Hs & Hse).
      destruct (Hemb s) as (v & Hv & Hlen); [apply list_elem_of_lookup; eauto|].
      congruence. }
    destruct (group_good cosineSimilarity tokenCount self (sentences_of text) embs d
                (sentences_of_tidy text) Hdim (eq_sym (Forall2_length _ _ _ Hm)) Hsim
                (length (sentences_of text)) 0%nat) as (chunks & -> & Hgood).
    cbn [mbind option_bind]. exists chunks. split; [|exact Hgood].
    f_equal. apply clean_good.
    eapply Forall_impl; [exact Hgood|]. intros c (? & ? & _). auto.
  - exfalso.
    assert (Hsome : is_Some (mapM generateTextEmbedding (sentences_of text))).
    { apply mapM_is_Some. apply Forall_forall. intros s Hs.
      destruct (Hemb s Hs) as (v & Hv & _). exists v. exact Hv. }
    rewrite Hm in Hsome. destruct Hsome as [? [=]].
Qed.

Lemma splitText_groups_witness :
  let text := "One two. Three four. Five six." in
  let self := {| chunkSize := 4; chunkOverlap := 1 |} in
  let words s := Z.of_nat (Feedback.split_ws_length s) in
  truthy (trim text) = true
  /\ (1 < length (sentences_of text))%nat
  /\ (forall s, s ∈ sentences_of text ->
                exists v, unit_embedding s = Some v /\ length v = 1%nat)
  /\ (forall a b, length a = length b -> is_Some (unit_similarity a b))
  /\ exists chunks,
       splitText unit_embedding unit_similarity words self text = Some chunks
       /\ Forall (fun c => tidy c /\ c <> EmptyString
                           /\ (c ∈ sentences_of text
                               \/ words c <= chunkSize self)) chunks.
Proof.
  intros text self words.
  assert (H1 : truthy (trim text) = true) by reflexivity.
  assert (H2 : (1 < length (sentences_of text))%nat) by (vm_compute; lia).
  assert (H3 : forall s, s ∈ sentences_of text ->
                         exists v, unit_embedding s = Some v /\ length v = 1%nat)
    by (intros s _; exists [1%Q]; split; reflexivity).
  assert (H4 : forall a b, length a = length b -> is_Some (unit_similarity a b))
    by (intros a b Hab; unfold unit_similarity; rewrite Hab, Nat.eqb_refl; eauto).
  split; [exact H1|]. split; [exact H2|]. split; [exact H3|]. split; [exact H4|].
  exact (splitText_groups unit_embedding unit_similarity words self text 1%nat
           H1 H2 H3 H4).
Defined.

End SemanticGroups.

(** ** The window of the progress tracker *)

Module ProgressWindow.
Import Research Double Progress.

Lemma length_push_sample s window :
  (length window <= maxWindow)%nat ->
  length (push_sample s window) = Nat.min maxWindow (S (length window)).
Proof.
  intros Hle. unfold push_sample.
  destruct (Nat.ltb_spec maxWindow (length (window ++ [s]))) as [H|H];
    rewrite ?length_drop, length_app in *; cbn [length] in *;
    unfold maxWindow in *; lia.
Qed.

Lemma run_window_from pm calls :
  initialized pm = true -> (length (rateWindow pm) <= maxWindow)%nat ->
  initialized (run pm calls).1 = true
  /\ length (rateWindow (run pm calls).1)
     = Nat.min maxWindow
         (length (rateWindow pm) + length (filter taken (run pm calls).2))
  /\ length (run pm calls).2 = length calls.
Proof.
  revert pm. induction calls as [|c rest IH]; intros pm Hinit Hle.
  - cbn [run fst snd length]. change (filter taken []) with (@nil outcome).
    cbn [length]. unfold maxWindow in *. split; [exact Hinit|]. split; lia.
  - cbn [run]. unfold updateProgress. rewrite Hinit. cbn [negb].
    destruct (match lastProgress pm with
              | Some l => unchanged (c_heap c l) (c_heap c (c_progress c))
              | None => false
              end).
    + destruct (IH pm Hinit Hle) as (H1 & H2 & H3).
      destruct (run pm rest) as [pm'' os]. cbn [fst snd length] in *.
      rewrite filter_cons_False by (cbn; tauto).
      split; [exact H1|]. split; [exact H2|lia].
    + set (window := push_sample _ (rateWindow pm)).
      assert (Hlen : length window = Nat.min maxWindow (S (length (rateWindow pm))))
        by (apply length_push_sample; exact Hle).
      destruct (IH {| initialized := true; lastProgress := Some (c_progress c);
                     rateWindow := window |} eq_refl) as (H1 & H2 & H3).
      { cbn [rateWindow]. lia. }
      destruct (run _ rest) as [pm'' os]. cbn [fst snd length rateWindow] in *.
      rewrite filter_cons_True
        by (destruct (lines_throw _ _); exact I).
      cbn [length]. split; [exact H1|]. split; [|lia]. rewrite H2, Hlen. lia.
Qed.

(** X25: the window of samples holds one sample per call that is not
    ignored, whether its redraw succeeds or throws, and never more
    than [maxWindow] (20): after any sequence of calls on a new
    manager its length is the number of such calls, capped at 20, and
    every call ends in exactly one way. *)
Theorem run_window calls :
  let '(pm, outcomes) := run fresh calls in
  length (rateWindow pm) = Nat.min maxWindow (length (filter taken outcomes))
  /\ length outcomes = length calls
  /\ (length (filter taken outcomes) <= length calls)%nat.
Proof.
  destruct (run_window_from fresh calls eq_refl) as (_ & H2 & H3);
    [unfold maxWindow; cbn [fresh rateWindow length]; lia|].
  destruct (run fresh calls) as [pm os].
  cbn [fst snd fresh rateWindow length] in *. rewrite Nat.add_0_l in H2.
  split; [exact H2|]. split; [exact H3|].
  rewrite <- H3. apply length_filter.
Qed.

(** X26: an update that agrees with the one before it on
    [completedQueries], [currentDepth], [currentBreadth] and
    [currentQuery] is ignored, whatever its other fields, the time and
    the terminal: nothing is drawn and no sample is taken. *)
Theorem updateProgress_unchanged pm heap p t1 c1 p' t2 c2 :
  completedQueries (heap p') = completedQueries (heap p) ->
  currentDepth (heap p') = currentDepth (heap p) ->
  currentBreadth (heap p') = currentBreadth (heap p) ->
  currentQuery (heap p') = currentQuery (heap p) ->
  let pm1 := (updateProgress pm heap p t1 c1).1 in
  updateProgress pm1 heap p' t2 c2 = (pm1, Ignored).
Proof.
  intros Hc Hd Hb Hq pm1. subst pm1. unfold updateProgress.
  destruct (initialized pm) eqn:Hinit; simpl; [|rewrite Hinit; reflexivity].
  assert (Hsame : forall l, unchanged l (heap p') = unchanged l (heap p))
    by (intros l; unfold unchanged; rewrite Hc, Hd, Hb, Hq; reflexivity).
  destruct (lastProgress pm) as [l|] eqn:Hl.
  - destruct (unchanged (heap l) (heap p)) eqn:Hu; simpl.
    + rewrite Hinit, Hl, Hsame, Hu. reflexivity.
    + rewrite Hsame. unfold unchanged. rewrite !bool_decide_eq_true_2 by reflexivity.
      reflexivity.
  - simpl. rewrite Hsame. unfold unchanged.
    rewrite !bool_decide_eq_true_2 by reflexivity. reflexivity.
Qed.

Lemma updateProgress_unchanged_witness :
  let heap :=
    objects_of [progress_at 1 2;
                {| currentQuery := None; currentDepth := 2; totalDepth := 7;
                   currentBreadth := 2; totalBreadth := 9;
                   totalQueries := 40; completedQueries := 1 |}] in
  let p := 0%nat in
  let p' := 1%nat in
  completedQueries (heap p') = completedQueries (heap p)
  /\ currentDepth (heap p') = currentDepth (heap p)
  /\ currentBreadth (heap p') = currentBreadth (heap p)
  /\ currentQuery (heap p') = currentQuery (heap p)
  /\ let pm1 := (updateProgress fresh heap p 1000 (Some 80)).1 in
     updateProgress pm1 heap p' 2000 (Some 80) = (pm1, Ignored).
Proof.
  intros heap p p'.
  assert (H1 : completedQueries (heap p') = completedQueries (heap p)) by reflexivity.
  assert (H2 : currentDepth (heap p') = currentDepth (heap p)) by reflexivity.
  assert (H3 : currentBreadth (heap p') = currentBreadth (heap p)) by reflexivity.
  assert (H4 : currentQuery (heap p') = currentQuery (heap p)) by reflexivity.
  repeat (split; [assumption|]).
  exact (updateProgress_unchanged fresh heap p 1000 (Some 80) p' 2000 (Some 80)
           H1 H2 H3 H4).
Defined.



End ProgressWindow.

(** ** The requests and the cache of generateFeedback *)

Module FeedbackCache.
Import Js Feedback.

Section GenerateFeedback.
Context `{Collaborators}.

Lemma parse_or_repair_requests jsonText :
  (length (parse_or_repair jsonText).2 <= 1)%nat.
Proof.
  unfold parse_or_repair.
  destruct (parseFeedback jsonText); [simpl; lia|].
  destruct (callGeminiProConfigurable _); [|simpl; lia].
  destruct (parseFeedback _); simpl; lia.
Qed.

(** A path that leaves the cache as it found it. *)
Ltac unchanged_cache :=
  split; [simpl; lia|split; [discriminate|split; [discriminate|left; reflexivity]]].

(** X23: a call of [generateFeedback] makes at most two calls of
    [callGeminiProConfigurable] of its own, the feedback prompt and at
    most one repair prompt; the requests that [conductResearch], which
    it awaits before them, sends for its chunks are that function's
    and are not counted here.  A query that fails
    [validateAcademicInput] is refused before anything is sent or
    looked up; a cached response is returned without a request of
    the function's own; and the only thing the call ever stores in
    the cache is the response it returns, under the key of the call,
    when that response passes [validateAcademicOutput]. *)
Theorem generateFeedback_cache o cache :
  let '(c, requests, cache') := generateFeedback o cache in
  (length requests <= 2)%nat
  /\ (validateAcademicInput (fo_query o) = false ->
      c = Throws "Query fails academic validation checks"
      /\ requests = [] /\ cache' = cache)
  /\ (forall v, validateAcademicInput (fo_query o) = true ->
                cache !! cacheKeyOf o = Some v ->
                c = Returns v /\ requests = [] /\ cache' = cache)
  /\ (cache' = cache
      \/ exists v, c = Returns v
                   /\ validateAcademicOutput (analysis v) = true
                   /\ cache !! cacheKeyOf o = None
                   /\ cache' = <[cacheKeyOf o := v]> cache).
Proof.
  unfold generateFeedback.
  destruct (validateAcademicInput (fo_query o)) eqn:Hin; cbn [negb].
  2:{ split; [simpl; lia|]. split; [auto|]. split; [discriminate|auto]. }
  destruct (cache !! cacheKeyOf o) as [cached|] eqn:Hc.
  { split; [simpl; lia|]. split; [discriminate|].
    split; [intros v _ [= <-]; auto|auto]. }
  destruct (conductResearch (fo_query o) (fo_depth o)) as [researchAnalysis|];
    [|unchanged_cache].
  destruct (negb (truthy (trim (analysisText o researchAnalysis))));
    [unchanged_cache|].
  destruct (callGeminiProConfigurable _) as [jsonText|]; [|unchanged_cache].
  pose proof (parse_or_repair_requests jsonText) as Hreq.
  destruct (parse_or_repair jsonText) as [parsed repairs]. cbn [snd] in Hreq.
  destruct parsed as [feedbackResponse|]; [|unchanged_cache].
  destruct (validateAcademicOutput (analysis feedbackResponse)) eqn:Hout; cbn [negb];
    [|unchanged_cache].
  split; [simpl; lia|]. split; [discriminate|]. split; [discriminate|].
  right. exists feedbackResponse. auto.
Qed.
End GenerateFeedback.

End FeedbackCache.

Module PastFeedbackTheorems.
Import Js PastFeedback.

(** X24: on a terminal of at least 20 columns (or none), the analysis
    of a query that is not blank reports at most one keyword, the
    first of [example], [test], [dummy] that the query contains in any
    letter case (no keyword listed before it in [DEFAULT_KEYWORDS] is
    contained in the query), with a score of 90; a query with none of
    them gets the score 100 and no suggestion.  A blank query is an
    error, and a terminal of 1 to 19 columns makes the call fail on
    its progress bar. *)
Theorem analyzePastFeedback_score columns query :
  match analyzePastFeedback columns query with
  | RangeError => terminal_width columns < 20
  | Error _ => 20 <= terminal_width columns /\ trim query = EmptyString
  | Analysis a =>
      20 <= terminal_width columns /\ trim query <> EmptyString
      /\ ((score a = 100 /\ keywords a = [] /\ suggestions a = []
           /\ Forall (fun k => includes k (toLowerCase query) = false)
                     DEFAULT_KEYWORDS)
          \/ (exists k before after,
                score a = 90 /\ keywords a = [k]
                /\ length (suggestions a) = 1%nat
                /\ k ∈ DEFAULT_KEYWORDS
                /\ includes k (toLowerCase query) = true
                /\ DEFAULT_KEYWORDS = before ++ k :: after
                /\ Forall (fun k' => includes k' (toLowerCase query) = false)
                          before))
  end.
Proof.
  unfold analyzePastFeedback.
  destruct (Z.ltb_spec (terminal_width columns - 20) 0); [lia|].
  destruct (Nat.eqb_spec (String.length (trim query)) 0) as [Hb|Hb].
  { split; [lia|]. destruct (trim query); [reflexivity|discriminate]. }
  split; [lia|]. split; [intros Hq; rewrite Hq in Hb; contradiction|].
  unfold DEFAULT_KEYWORDS. cbn [List.find].
  change (toLowerCase "example") with "example".
  change (toLowerCase "test") with "test".
  change (toLowerCase "dummy") with "dummy".
  destruct (includes "example" (toLowerCase query)) eqn:H1.
  { right. exists "example", [], ["test"; "dummy"].
    do 3 (split; [reflexivity|]). split; [left|].
    split; [exact H1|]. split; [reflexivity|constructor]. }
  destruct (includes "test" (toLowerCase query)) eqn:H2.
  { right. exists "test", ["example"], ["dummy"].
    do 3 (split; [reflexivity|]). split; [right; left|].
    split; [exact H2|]. split; [reflexivity|repeat constructor; assumption]. }
  destruct (includes "dummy" (toLowerCase query)) eqn:H3.
  { right. exists "dummy", ["example"; "test"], [].
    do 3 (split; [reflexivity|]). split; [right; right; left|].
    split; [exact H3|]. split; [reflexivity|repeat constructor; assumption]. }
  left. do 3 (split; [reflexivity|]). repeat constructor; assumption.
Qed.

End PastFeedbackTheorems.

(** ** Extracting JSON from the model's text; the sub-queries *)

Module SerpQueriesTheorems.
Import Js Research SerpQueries SerpCacheFacts.

Lemma until_brace_spec r m :
  until_brace r = Some m ->
  exists body post,
    r = body +:+ "}" +:+ post /\ m = body +:+ "}" /\ ~ has_char 125 body.
Proof.
  revert m. induction r as [|c r IH]; intros m; simpl; [discriminate|].
  destruct (Nat.eqb_spec (nat_of_ascii c) 125) as [Hc|Hc].
  - intros [= <-]. exists EmptyString, r.
    assert (c = "}"%char) as ->
      by (rewrite <- (ascii_nat_embedding c), Hc; reflexivity).
    repeat split. intros H. inversion H.
  - destruct (until_brace r) as [m'|]; [|discriminate]. intros [= <-].
    destruct (IH m' eq_refl) as (body & post & -> & -> & Hno).
    exists (String c body), post. repeat split.
    intros H. apply Exists_cons in H as [H|H]; [contradiction|]. apply Hno, H.
Qed.

Lemma until_brace_none r : until_brace r = None -> ~ has_char 125 r.
Proof.
  induction r as [|c r IH]; simpl; [intros _ H; inversion H|].
  destruct (Nat.eqb_spec (nat_of_ascii c) 125) as [Hc|Hc]; [discriminate|].
  destruct (until_brace r); [discriminate|]. intros _ H.
  apply Exists_cons in H as [H|H]; [contradiction|]. apply IH; auto.
Qed.

Lemma has_char_append n a b : has_char n (a +:+ b) <-> has_char n a \/ has_char n b.
Proof.
  unfold has_char. induction a as [|c a IH].
  - simpl. rewrite Exists_nil. tauto.
  - rewrite append_cons. cbn [list_ascii_of_string]. rewrite !Exists_cons, IH. tauto.
Qed.

Lemma first_object_none r : ~ has_char 125 r -> first_object r = None.
Proof.
  induction r as [|c r IH]; simpl; [reflexivity|]. intros Hno.
  assert (Hr : ~ has_char 125 r) by (intros H; apply Hno; right; exact H).
  destruct (nat_of_ascii c =? 123)%nat; [|apply IH, Hr].
  destruct (until_brace r) as [m|] eqn:Hm; [|apply IH, Hr].
  apply until_brace_spec in Hm as (body & post & -> & _ & _).
  exfalso. apply Hr. apply has_char_append. right. left. reflexivity.
Qed.

(** X17: the candidate [extractJsonFromText] hands to [JSON.parse]
    starts at the first opening brace of the text and ends at the
    first closing brace after it, so it holds no other closing brace;
    there is none only when no opening brace is followed by a closing
    one. *)
Theorem first_object_spec text :
  match first_object text with
  | Some m =>
      exists pre body post,
        text = pre +:+ m +:+ post /\ m = "{" +:+ body +:+ "}"
        /\ ~ has_char 123 pre /\ ~ has_char 125 body
  | None =>
      forall pre post, text = pre +:+ "{" +:+ post -> ~ has_char 125 post
  end.
Proof.
  induction text as [|c r IH]; simpl.
  - intros [|? ?] post Heq; discriminate.
  - destruct (Nat.eqb_spec (nat_of_ascii c) 123) as [Hc|Hc].
    + assert (c = "{"%char) as ->
        by (rewrite <- (ascii_nat_embedding c), Hc; reflexivity).
      destruct (until_brace r) as [m|] eqn:Hm.
      * apply until_brace_spec in Hm as (body & post & -> & -> & Hno).
        exists EmptyString, body, post. repeat split.
        -- rewrite append_nil_l, (append_cons "{"), append_assoc. reflexivity.
        -- intros H. inversion H.
        -- exact Hno.
      * apply until_brace_none in Hm.
        rewrite (first_object_none r Hm).
        intros pre post Heq Hpost. apply Hm.
        destruct pre as [|d pre].
        -- change (String "{" r = String "{" post) in Heq.
           injection Heq as ->. exact Hpost.
        -- rewrite append_cons in Heq. injection Heq as _ ->.
           apply has_char_append. right.
           change ("{" +:+ post) with (String "{" post).
           right. exact Hpost.
    + destruct (first_object r) as [m|].
      * destruct IH as (pre & body & post & -> & -> & Hpre & Hbody).
        exists (String c pre), body, post. repeat split; [|exact Hbody].
        intros H. apply Exists_cons in H as [H|H]; [contradiction|]. apply Hpre, H.
      * intros pre post Heq. destruct pre as [|d pre].
        -- change (String c r = String "{" post) in Heq.
           injection Heq as -> _. exfalso. apply Hc. reflexivity.
        -- rewrite append_cons in Heq. injection Heq as _ ->.
           apply (IH pre post eq_refl).
Qed.

Section WithModel.
Variable JSON_parse : string -> option jsvalue.
Variable to_string : jsvalue -> string.
Variable serpPrompt : SerpQueryArgs -> string.
Variable callGeminiProConfigurable : string -> option string.

(** A text that starts with an opening brace parses to an object, if
    it parses at all. *)
Hypothesis parse_brace :
  forall s v, JSON_parse (String "{" s) = Some v -> isArray v = false.

Lemma first_object_brace text m :
  first_object text = Some m -> exists s, m = String "{" s.
Proof.
  revert m. induction text as [|c r IH]; intros m; simpl; [discriminate|].
  destruct (Nat.eqb_spec (nat_of_ascii c) 123) as [Hc|Hc]; [|apply IH].
  assert (c = "{"%char) as ->
    by (rewrite <- (ascii_nat_embedding c), Hc; reflexivity).
  destruct (until_brace r) as [m'|] eqn:Hm; [|apply IH].
  intros [= <-]. eexists. reflexivity.
Qed.

Lemma extractJsonFromText_object text :
  isArray (extractJsonFromText JSON_parse text) = false.
Proof.
  unfold extractJsonFromText.
  destruct (negb (truthy text)); [reflexivity|].
  destruct (first_object text) as [m|] eqn:Hm; [|reflexivity].
  destruct (first_object_brace text m Hm) as [s ->].
  destruct (JSON_parse (String "{" s)) as [v|] eqn:Hv; [|reflexivity].
  apply (parse_brace s v Hv).
Qed.

Abbreviation generateSerpQueries :=
  (generateSerpQueries JSON_parse to_string serpPrompt callGeminiProConfigurable).

Lemma Forall_filter_keep {A} (P : A -> Prop) (Q : A -> Prop)
    `{forall x, Decision (Q x)} (l : list A) :
  Forall P l -> Forall P (filter Q l).
Proof.
  intros Hl. apply Forall_forall. intros x Hx.
  apply list_elem_of_filter in Hx as [_ Hx].
  rewrite Forall_forall in Hl. auto.
Qed.

Lemma lru_get_values {V} (P : V -> Prop) k (c : lru V) :
  Forall (fun e => P e.2) c ->
  Forall (fun e => P e.2) (lru_get k c).2
  /\ forall v, (lru_get k c).1 = Some v -> P v.
Proof.
  intros Hc. unfold lru_get.
  destruct (list_find (fun e => e.1 = k) c) as [[i [k' v]]|] eqn:Hf; simpl.
  - apply list_find_Some in Hf as (Hi & _ & _).
    assert (Hv : P v).
    { rewrite Forall_forall in Hc. apply (Hc (k', v)).
      apply list_elem_of_lookup. eauto. }
    split; [|intros ? [= <-]; exact Hv].
    constructor; [exact Hv|]. apply Forall_filter_keep. exact Hc.
  - split; [exact Hc|discriminate].
Qed.

Lemma lru_set_values {V} (P : V -> Prop) max k v (c : lru V) :
  P v -> Forall (fun e => P e.2) c ->
  Forall (fun e => P e.2) (lru_set max k v c).
Proof.
  intros Hv Hc. unfold lru_set. apply Forall_take.
  constructor; [exact Hv|]. apply Forall_filter_keep. exact Hc.
Qed.

Lemma generateSerpQueries_nil a cache :
  Forall (fun e => e.2 = []) cache ->
  (generateSerpQueries a cache).1.1 = []
  /\ Forall (fun e => e.2 = []) (generateSerpQueries a cache).2.
Proof.
  intros Hc. unfold SerpQueries.generateSerpQueries.
  destruct (lru_get_values (fun v => v = []) (SerpCache.cacheKey a) cache Hc)
    as [Hc' Hhit].
  destruct (lru_get (SerpCache.cacheKey a) cache) as [[cached|] cache']; simpl in *.
  - split; [apply Hhit; reflexivity|exact Hc'].
  - pose proof (extractJsonFromText_object
                  (default "{}" (callGeminiProConfigurable (serpPrompt a)))) as Ha.
    destruct (extractJsonFromText _ _); try discriminate;
      (split; [reflexivity
              |apply (lru_set_values (fun v => v = [])); [reflexivity|exact Hc']]).
Qed.

Lemma calls_nil cache args :
  Forall (fun e => e.2 = []) cache ->
  Forall (fun r => r = [])
    (calls JSON_parse to_string serpPrompt callGeminiProConfigurable cache args).
Proof.
  revert cache. induction args as [|a rest IH]; intros cache Hc; simpl; [constructor|].
  destruct (generateSerpQueries_nil a cache Hc) as [Hr Hc'].
  destruct (generateSerpQueries a cache) as [[r reqs] cache']. simpl in *.
  constructor; [exact Hr|apply IH, Hc'].
Qed.
End WithModel.

(** X16: [generateSerpQueries] never returns a sub-query.  As
    [JSON.parse] turns a text that starts with an opening brace into
    an object, what [extractJsonFromText] returns is never an array,
    so every call that misses the cache returns and caches the empty
    list, whatever the model answers; and the cache, which starts
    empty, then returns nothing else. *)
Theorem generateSerpQueries_empty JSON_parse to_string serpPrompt
    callGeminiProConfigurable args :
  (forall s v, JSON_parse (String "{" s) = Some v -> isArray v = false) ->
  Forall (fun r => r = [])
    (calls JSON_parse to_string serpPrompt callGeminiProConfigurable [] args)
  /\ forall text,
       isArray (extractJsonFromText JSON_parse text) = false.
Proof.
  intros Hparse. split.
  - apply calls_nil; [exact Hparse|constructor].
  - intros text. apply extractJsonFromText_object. exact Hparse.
Qed.

Lemma tiny_parse_brace s v :
  tiny_parse (String "{" s) = Some v -> isArray v = false.
Proof.
  unfold tiny_parse.
  destruct (String.eqb (String "{" s) "{}"); [intros [= <-]; reflexivity|].
  destruct (String.eqb (String "{" s) "[]") eqn:He; [|discriminate].
  apply String.eqb_eq in He. discriminate.
Qed.

Lemma generateSerpQueries_empty_witness :
  let args := [SerpCache.sample_args; SerpCache.sample_args] in
  (forall s v, tiny_parse (String "{" s) = Some v -> isArray v = false)
  /\ Forall (fun r => r = [])
       (calls tiny_parse (fun _ => "x") rawQuery (fun _ => Some "[]") [] args)
  /\ forall text, isArray (extractJsonFromText tiny_parse text) = false.
Proof.
  intros args. split; [exact tiny_parse_brace|].
  exact (generateSerpQueries_empty tiny_parse (fun _ => "x") rawQuery
           (fun _ => Some "[]") args tiny_parse_brace).
Defined.

End SerpQueriesTheorems.

Module NoQueries.
Import Js Research ResearchFacts.

Section Controller.
Context `{Collaborators}.

Lemma deepResearch_body_no_queries recurse o w :
  (forall a, generateSerpQueries a = []) ->
  exists r t w',
    deepResearch_body recurse o w = Some (r, t, w')
    /\ task_children t = []
    /\ contents w' (rr_learnings r) = []
    /\ contents w' (rr_visitedUrls r) = []
    /\ rr_content r = EmptyString
    /\ (log w' = log w \/ exists args, log w' = log w ++ [EGenerateSerpQueries args]).
Proof.
  intros Hnone. unfold deepResearch_body.
  unfold mbind at 1 2 3 4 5 6. unfold M_bind at 1 2 3 4 5 6.
  destruct (match learnings o with Some l => mret l | None => alloc [] end w)
    as [[initialLearnings w1]|] eqn:H1;
    [|destruct (learnings o); discriminate].
  assert (Hl1 : log w1 = log w) by (destruct (learnings o); injection H1 as <- <-; reflexivity).
  destruct (match visitedUrls o with Some l => mret l | None => alloc [] end w1)
    as [[initialVisitedUrls w2]|] eqn:H2;
    [|destruct (visitedUrls o); discriminate].
  assert (Hl2 : log w2 = log w)
    by (destruct (visitedUrls o); injection H2 as <- <-; exact Hl1).
  cbn [read alloc].
  destruct (depth o <=? 0).
  { eexists _, _, _. split; [reflexivity|]. cbn.
    split; [reflexivity|]. split; [apply contents_new2|]. split; [apply contents_new|].
    split; [reflexivity|left; exact Hl2]. }
  unfold mbind at 1. unfold M_bind at 1. cbn [read].
  destruct (20 <? length _)%nat.
  { eexists _, _, _. split; [reflexivity|]. cbn.
    split; [reflexivity|]. split; [apply contents_new2|]. split; [apply contents_new|].
    split; [reflexivity|left; exact Hl2]. }
  unfold mbind at 1 2. unfold M_bind at 1 2. cbn [read emit].
  rewrite Hnone. cbn [dispatch].
  eexists _, _, _. split; [reflexivity|]. cbn.
  split; [reflexivity|]. split; [apply contents_new|]. split; [apply contents_new2|].
  split; [rewrite contents_new; reflexivity|]. right. rewrite Hl2. eauto.
Qed.

(** X15: with a [generateSerpQueries] that returns no sub-query, as the
    one of the repository does, a call of [deepResearch] starts no
    worker: it spawns no task, sends no request to the model, and
    returns no learning, no URL and an empty content; all it asks for
    is, at most once, the sub-queries. *)
Theorem deepResearch_no_queries o w :
  (forall a, generateSerpQueries a = []) ->
  exists r t w',
    deepResearch o w = Some (r, t, w')
    /\ task_children t = []
    /\ contents w' (rr_learnings r) = []
    /\ contents w' (rr_visitedUrls r) = []
    /\ rr_content r = EmptyString
    /\ (log w' = log w \/ exists args, log w' = log w ++ [EGenerateSerpQueries args]).
Proof.
  intros Hnone. unfold deepResearch.
  destruct (Z.to_nat (depth o)); simpl; apply deepResearch_body_no_queries; exact Hnone.
Qed.
End Controller.

Lemma deepResearch_no_queries_witness :
  let o := {| query := "q"; breadth := 3; depth := 2; learnings := None;
              visitedUrls := None; initialQuery := None; researchGoal := None |} in
  (forall a, generateSerpQueries (Collaborators := silent) a = [])
  /\ exists r t w',
       deepResearch (H := silent) o empty_world = Some (r, t, w')
       /\ task_children t = []
       /\ contents w' (rr_learnings r) = []
       /\ contents w' (rr_visitedUrls r) = []
       /\ rr_content r = EmptyString
       /\ (log w' = log empty_world
           \/ exists args, log w' = log empty_world ++ [EGenerateSerpQueries args]).
Proof.
  intros o.
  assert (H1 : forall a, generateSerpQueries (Collaborators := silent) a = [])
    by reflexivity.
  split; [exact H1|].
  exact (deepResearch_no_queries (H := silent) o empty_world H1).
Defined.

End NoQueries.

(** ** Removing the matches of a regular expression *)

Module ScanFacts.
Import Js Scan.

Lemma remove_matches_sublist m skip s :
  sublist (list_ascii_of_string (remove_matches m skip s))
          (list_ascii_of_string s).
Proof.
  revert skip. induction s as [|c r IH]; intros skip; simpl; [constructor|].
  destruct skip as [|k]; [|apply sublist_cons, IH].
  destruct (m (String c r)) as [[|n]|].
  - apply sublist_skip, IH.
  - apply sublist_cons, IH.
  - apply sublist_skip, IH.
Qed.

Lemma length_chars s : length (list_ascii_of_string s) = String.length s.
Proof. induction s as [|c r IH]; simpl; [reflexivity|]. rewrite IH. reflexivity. Qed.

Lemma includes_cons x c r : includes x r = true -> includes x (String c r) = true.
Proof. intros H. cbn [includes]. rewrite H. apply orb_true_r. Qed.

Lemma includes_prefix x s : String.prefix x s = true -> includes x s = true.
Proof. intros H. destruct s; simpl in *; rewrite H; reflexivity. Qed.

(** A matcher that needs its literal leaves a text without it alone. *)
Lemma remove_matches_unchanged m x s :
  (forall t n, m t = Some n -> String.prefix x t = true) ->
  includes x s = false -> remove_matches m 0 s = s.
Proof.
  intros Hm. induction s as [|c r IH]; intros Hx; simpl; [reflexivity|].
  destruct (m (String c r)) as [n|] eqn:Hn.
  - apply Hm, includes_prefix in Hn. congruence.
  - f_equal. apply IH.
    destruct (includes x r) eqn:Hr; [|reflexivity].
    apply (includes_cons x c) in Hr. congruence.
Qed.

Lemma span_literal x dotall stop t n :
  span (literal x) dotall stop t = Some n -> String.prefix x t = true.
Proof.
  unfold span, literal. destruct (String.prefix x t); [reflexivity|discriminate].
Qed.

End ScanFacts.

Module SanitizeTheorems.
Import Js Scan Sanitize ScanFacts.

Lemma step_needs_literal t n : step t = Some n -> String.prefix "Step " t = true.
Proof.
  unfold step, span, step_head.
  destruct (String.prefix "Step " t); [reflexivity|discriminate].
Qed.

(** X22: [sanitizeReportContent] only deletes: what it returns is the
    content with some characters left out, never longer than the
    content; and a content that holds none of [Thinking process:],
    [Outline:], [Step ] and [[Internal Note:] comes back as it is. *)
Theorem sanitizeReportContent_deletes content :
  sublist (list_ascii_of_string (sanitizeReportContent content))
          (list_ascii_of_string content)
  /\ (String.length (sanitizeReportContent content) <= String.length content)%nat
  /\ (includes "Thinking process:" content = false ->
      includes "Outline:" content = false ->
      includes "Step " content = false ->
      includes "[Internal Note:" content = false ->
      sanitizeReportContent content = content).
Proof.
  assert (Hsub : sublist (list_ascii_of_string (sanitizeReportContent content))
                         (list_ascii_of_string content)).
  { unfold sanitizeReportContent.
    repeat (etransitivity; [apply remove_matches_sublist|]). reflexivity. }
  split; [exact Hsub|]. split.
  - apply sublist_length in Hsub.
    rewrite !length_chars in Hsub. exact Hsub.
  - intros H1 H2 H3 H4. unfold sanitizeReportContent.
    rewrite (remove_matches_unchanged thinking "Thinking process:" content)
      by (exact H1 || apply span_literal).
    rewrite (remove_matches_unchanged outline "Outline:" content)
      by (exact H2 || apply span_literal).
    rewrite (remove_matches_unchanged step "Step " content)
      by (exact H3 || apply step_needs_literal).
    apply (remove_matches_unchanged internal_note "[Internal Note:" content);
      [apply span_literal|exact H4].
Qed.

End SanitizeTheorems.

(** ** Matches, prefixes and suffixes *)

Module MatchFacts.
Import Js Scan JsArray ScanFacts SerpCacheFacts.


Lemma prefix_append x t : String.prefix x (x +:+ t) = true.
Proof.
  induction x as [|a x IH]; [rewrite append_nil_l; destruct t; reflexivity|].
  rewrite append_cons. simpl. destruct (ascii_dec a a); [exact IH|congruence].
Qed.

Lemma includes_middle x pre post : includes x (pre +:+ x +:+ post) = true.
Proof.
  induction pre as [|c pre IH].
  - rewrite append_nil_l. apply includes_prefix, prefix_append.
  - rewrite append_cons. apply includes_cons, IH.
Qed.



Lemma length_skip_chars n s : (String.length (skip_chars n s) <= String.length s)%nat.
Proof.
  revert s. induction n as [|n IH]; intros [|c r]; simpl; try lia.
  specialize (IH r). lia.
Qed.

Lemma remove_matches_skip m n s :
  remove_matches m n s = remove_matches m 0 (skip_chars n s).
Proof.
  revert s. induction n as [|n IH]; intros s; [destruct s; reflexivity|].
  destruct s as [|c r]; [reflexivity|]. simpl skip_chars.
  cbn [remove_matches]. apply IH.
Qed.


Lemma unique_spec xs : forall seen,
  NoDup (unique seen xs)
  /\ forall x, x ∈ unique seen xs <-> x ∈ xs /\ x ∉ seen.
Proof.
  induction xs as [|a xs IH]; intros seen; simpl.
  - split; [constructor|]. intros x. split; [inversion 1|intros [H _]; inversion H].
  - case_bool_decide as Ha.
    + destruct (IH seen) as [Hnd Hin]. split; [exact Hnd|].
      intros x. rewrite Hin, elem_of_cons. split; [tauto|].
      intros [[->|Hx] Hs]; [contradiction|tauto].
    + destruct (IH (a :: seen)) as [Hnd Hin]. split.
      * constructor; [|exact Hnd]. rewrite Hin, elem_of_cons. tauto.
      * intros x. rewrite !elem_of_cons, Hin, elem_of_cons. split.
        -- intros [->|[Hx Hs]]; [tauto|]. split; [tauto|]. tauto.
        -- intros [[->|Hx] Hs]; [tauto|].
           destruct (decide (x = a)); [tauto|]. right. tauto.
Qed.

Lemma set_of_spec xs :
  NoDup (set_of xs) /\ forall x, x ∈ set_of xs <-> x ∈ xs.
Proof.
  destruct (unique_spec xs []) as [Hnd Hin]. split; [exact Hnd|].
  intros x. unfold set_of. rewrite Hin. split; [tauto|].
  intros H. split; [exact H|]. apply not_elem_of_nil.
Qed.

End MatchFacts.

Module CitationsTheorems.
Import Js Scan JsArray Citations ScanFacts SerpCacheFacts MatchFacts.



Lemma span_digits_spec s ds rest :
  Feedback.span_digits s = (ds, rest) ->
  s = ds +:+ rest
  /\ Forall (fun c => Feedback.is_digit c = true) (list_ascii_of_string ds).
Proof.
  revert ds rest. induction s as [|c r IH]; intros ds rest H; simpl in H.
  - injection H as <- <-. split; [reflexivity|constructor].
  - destruct (Feedback.is_digit c) eqn:Hd.
    + destruct (Feedback.span_digits r) as [ds' rest'].
      injection H as <- <-. destruct (IH _ _ eq_refl) as [-> Hall].
      split; [rewrite append_cons; reflexivity|constructor; assumption].
    + injection H as <- <-. split; [rewrite append_nil_l; reflexivity|constructor].
Qed.

Lemma match_reference_spec t ds :
  Feedback.match_reference t = Some ds ->
  ds <> EmptyString
  /\ Forall (fun c => Feedback.is_digit c = true) (list_ascii_of_string ds)
  /\ exists post, t = bracketed ds +:+ post.
Proof.
  unfold Feedback.match_reference. intros H.
  destruct t as [|a [|b r]]; try discriminate.
  destruct ((nat_of_ascii a =? 91)%nat && (nat_of_ascii b =? 91)%nat) eqn:Hab;
    [|discriminate].
  apply andb_true_iff in Hab as [Ha Hb].
  apply Nat.eqb_eq in Ha, Hb.
  destruct (Feedback.span_digits r) as [ds' rest] eqn:Hsp.
  destruct ds' as [|d ds']; [discriminate|].
  destruct rest as [|c [|e post]]; try discriminate.
  destruct ((nat_of_ascii c =? 93)%nat && (nat_of_ascii e =? 93)%nat) eqn:Hce;
    [|discriminate].
  apply andb_true_iff in Hce as [Hc He].
  apply Nat.eqb_eq in Hc, He. injection H as <-.
  destruct (span_digits_spec _ _ _ Hsp) as [-> Hall].
  split; [discriminate|]. split; [exact Hall|]. exists post.
  assert (a = "["%char) as -> by (rewrite <- (ascii_nat_embedding a), Ha; reflexivity).
  assert (b = "["%char) as -> by (rewrite <- (ascii_nat_embedding b), Hb; reflexivity).
  assert (c = "]"%char) as -> by (rewrite <- (ascii_nat_embedding c), Hc; reflexivity).
  assert (e = "]"%char) as -> by (rewrite <- (ascii_nat_embedding e), He; reflexivity).
  unfold bracketed. rewrite !append_assoc.
  change ("[[" +:+ ?x) with (String "[" (String "[" x)).
  rewrite !append_cons. reflexivity.
Qed.

Lemma references_elem ds : forall s k,
  ds ∈ Feedback.references_from k s ->
  exists pre t, s = pre +:+ t /\ Feedback.match_reference t = Some ds.
Proof.
  induction s as [|c r IH]; intros k H; [inversion H|].
  assert (Hrest : forall j, ds ∈ Feedback.references_from j r ->
            exists pre t, String c r = pre +:+ t
                          /\ Feedback.match_reference t = Some ds).
  { intros j Hj. destruct (IH j Hj) as (pre & t & -> & Hm).
    exists (String c pre), t. rewrite append_cons. auto. }
  cbn [Feedback.references_from] in H. destruct k as [|k]; [|exact (Hrest _ H)].
  destruct (Feedback.match_reference (String c r)) as [ds'|] eqn:Hm;
    [|exact (Hrest _ H)].
  apply elem_of_cons in H as [->|H]; [|exact (Hrest _ H)].
  exists EmptyString, (String c r). rewrite append_nil_l. auto.
Qed.

Lemma references_are_references text ds :
  ds ∈ Feedback.references text -> is_reference text (bracketed ds).
Proof.
  intros H. apply references_elem in H as (pre & t & -> & Hm).
  apply match_reference_spec in Hm as (Hne & Hall & post & ->).
  split; [apply includes_middle|]. exists ds. auto.
Qed.


End CitationsTheorems.

Module GeminiResponseTheorems.
Import Js Scan JsArray Research GeminiResponse ScanFacts SerpCacheFacts MatchFacts.

Lemma prefix_char a c r :
  String.prefix (String a EmptyString) (String c r) = bool_decide (c = a).
Proof.
  cbn [String.prefix]. destruct (ascii_dec a c) as [<-|Hc].
  - rewrite bool_decide_true by reflexivity. destruct r; reflexivity.
  - rewrite bool_decide_false by congruence. reflexivity.
Qed.

Lemma closes_cons c r :
  closes (String c r) =
  if bool_decide (c = "]"%char) then Some 1%nat
  else if is_line_terminator c then None else S <$> closes r.
Proof.
  unfold closes. cbn [lazy_until]. rewrite prefix_char.
  case_bool_decide; [reflexivity|].
  destruct (is_line_terminator c); reflexivity.
Qed.

Lemma bracket_span_cons c r :
  bracket_span (String c r) =
  if bool_decide (c = "["%char) then S <$> closes r else None.
Proof.
  unfold bracket_span, span, literal. rewrite prefix_char.
  case_bool_decide; [|reflexivity].
  simpl. fold closes. destruct (closes r); reflexivity.
Qed.

Lemma bracket_span_nil : bracket_span EmptyString = None.
Proof. reflexivity. Qed.

Lemma bracket_span_pos t : bracket_span t <> Some 0%nat.
Proof.
  destruct t as [|c r]; [discriminate|]. rewrite bracket_span_cons.
  case_bool_decide; [|discriminate]. destruct (closes r); discriminate.
Qed.

(** A text has no bracketed span exactly when none starts at any of
    its places. *)
Lemma bracket_free_iff s :
  bracket_free s <-> forall pre t, s = pre +:+ t -> bracket_span t = None.
Proof.
  unfold bracket_free. induction s as [|c r IH].
  - split; [|reflexivity]. intros _ pre t H.
    destruct pre; [|discriminate]. rewrite append_nil_l in H. subst t.
    reflexivity.
  - cbn [find_matches]. split.
    + intros H pre t Heq.
      destruct (bracket_span (String c r)) as [[|n]|] eqn:Hm;
        [destruct (bracket_span_pos _ Hm)|discriminate|].
      destruct pre as [|a pre].
      * rewrite append_nil_l in Heq. subst t. exact Hm.
      * rewrite append_cons in Heq. injection Heq as _ Hr.
        apply (proj1 IH H pre t Hr).
    + intros H.
      rewrite (H EmptyString (String c r)) by (rewrite append_nil_l; reflexivity).
      apply IH. intros pre t ->. apply (H (String c pre)).
      rewrite append_cons. reflexivity.
Qed.

(** Removing the spans of a text that had no closing bracket on its
    first line leaves none on it. *)
Lemma closes_remove r :
  closes r = None -> closes (remove_matches bracket_span 0 r) = None.
Proof.
  induction r as [|c r IH]; intros H; [reflexivity|].
  rewrite closes_cons in H. cbn [remove_matches]. rewrite bracket_span_cons.
  case_bool_decide as Hc; [discriminate|].
  destruct (is_line_terminator c) eqn:Hl.
  - assert (Hs : (if bool_decide (c = "["%char) then S <$> closes r else None)
                 = None).
    { case_bool_decide as Hb; [subst c; discriminate|reflexivity]. }
    rewrite Hs, closes_cons, bool_decide_false, Hl by exact Hc. reflexivity.
  - destruct (closes r) eqn:Hr; [discriminate|].
    assert (Hs : (if bool_decide (c = "["%char) then S <$> @None nat else None)
                 = None) by (case_bool_decide; reflexivity).
    rewrite Hs, closes_cons, bool_decide_false, Hl, IH by (exact Hc || reflexivity).
    reflexivity.
Qed.

Lemma remove_bracket_free_bounded n : forall s,
  (String.length s <= n)%nat ->
  bracket_free (remove_matches bracket_span 0 s).
Proof.
  unfold bracket_free.
  induction n as [|n IH]; intros s Hn.
  { destruct s; [reflexivity|simpl in Hn; lia]. }
  destruct s as [|c r]; [reflexivity|]. simpl in Hn.
  cbn [remove_matches].
  destruct (bracket_span (String c r)) as [[|k]|] eqn:Hm.
  - destruct (bracket_span_pos _ Hm).
  - rewrite remove_matches_skip. apply IH.
    pose proof (length_skip_chars k r). lia.
  - cbn [find_matches].
    assert (Hm' : bracket_span (String c (remove_matches bracket_span 0 r)) = None).
    { rewrite bracket_span_cons in *. case_bool_decide; [|reflexivity].
      destruct (closes r) eqn:Hr; [discriminate|].
      rewrite (closes_remove _ Hr). reflexivity. }
    rewrite Hm'. apply IH. lia.
Qed.

Lemma remove_bracket_free s : bracket_free (remove_matches bracket_span 0 s).
Proof. apply (remove_bracket_free_bounded (String.length s)). lia. Qed.

Lemma remove_of_bracket_free s :
  bracket_free s -> remove_matches bracket_span 0 s = s.
Proof.
  unfold bracket_free. induction s as [|c r IH]; intros H; [reflexivity|].
  cbn [find_matches remove_matches] in *.
  destruct (bracket_span (String c r)) as [[|k]|]; [| discriminate |];
    f_equal; apply IH, H.
Qed.

Lemma trimStart_split s : exists ws, s = ws +:+ trimStart s.
Proof.
  induction s as [|c r [ws IH]]; [exists EmptyString; reflexivity|].
  simpl. destruct (is_space c).
  - exists (String c ws). rewrite append_cons, <- IH. reflexivity.
  - exists EmptyString. rewrite append_nil_l. reflexivity.
Qed.

Lemma trimEnd_split s : exists ws, s = trimEnd s +:+ ws.
Proof.
  induction s as [|c r [ws IH]]; [exists EmptyString; reflexivity|].
  simpl. destruct (is_space c && negb (truthy (trimEnd r))).
  - exists (String c r). rewrite append_nil_l. reflexivity.
  - exists ws. rewrite append_cons, <- IH. reflexivity.
Qed.

Lemma closes_append r ws k : closes r = Some k -> closes (r +:+ ws) = Some k.
Proof.
  revert k. induction r as [|c r IH]; intros k H; [discriminate|].
  rewrite append_cons, closes_cons in *.
  case_bool_decide; [exact H|].
  destruct (is_line_terminator c); [discriminate|].
  destruct (closes r) as [j|]; [|discriminate].
  rewrite (IH j eq_refl). exact H.
Qed.

Lemma bracket_span_append t ws :
  bracket_span (t +:+ ws) = None -> bracket_span t = None.
Proof.
  destruct t as [|c r]; [reflexivity|].
  rewrite append_cons, !bracket_span_cons.
  case_bool_decide; [|reflexivity].
  destruct (closes r) as [k|] eqn:Hr; [|reflexivity].
  rewrite (closes_append _ ws _ Hr). discriminate.
Qed.

Lemma bracket_free_trim s : bracket_free s -> bracket_free (trim s).
Proof.
  rewrite !bracket_free_iff. intros H pre t Heq. unfold trim in Heq.
  destruct (trimStart_split s) as [ws1 H1].
  destruct (trimEnd_split (trimStart s)) as [ws2 H2].
  apply (bracket_span_append t ws2), (H (ws1 +:+ pre)).
  rewrite H1 at 1. rewrite H2 at 1. rewrite Heq, !append_assoc. reflexivity.
Qed.

Lemma trim_idem s : trim (trim s) = trim s.
Proof.
  unfold trim.
  assert (H : trimStart (trimEnd (trimStart s)) = trimEnd (trimStart s)).
  { induction s as [|c r IH]; [reflexivity|]. simpl.
    destruct (is_space c) eqn:Hc; [exact IH|].
    simpl. rewrite Hc. simpl. rewrite Hc. reflexivity. }
  rewrite H. apply WhitespaceFacts.trimEnd_idem.
Qed.

Lemma sanitize_learning_clean l :
  (0 < String.length (sanitize_learning l))%nat -> clean (sanitize_learning l).
Proof.
  intros H. split; [|split].
  - intros E. rewrite E in H. simpl in H. lia.
  - apply trim_idem.
  - apply bracket_free_trim, remove_bracket_free.
Qed.

Lemma sanitize_learning_fixed l : clean l -> sanitize_learning l = l.
Proof.
  intros (_ & Ht & Hb). unfold sanitize_learning.
  rewrite (remove_of_bracket_free _ Hb). exact Ht.
Qed.

Lemma Forall_take_of {A} (P : A -> Prop) n xs : Forall P xs -> Forall P (take n xs).
Proof.
  intros H. revert n. induction H; intros [|n]; simpl; constructor; auto.
Qed.

Section WithParser.
Variable JSON_parse : string -> answer.

Lemma result_of_shape text items :
  let r := result_of text items in
  g_analysis r = EmptyString
  /\ (length (g_learnings r) <= 10)%nat
  /\ Forall clean (g_learnings r)
  /\ NoDup (g_urls r)
  /\ Forall (fun u => trim u = u) (g_urls r)
  /\ map reference (g_citations r)
     = map Citations.bracketed (Feedback.references text)
  /\ Forall (fun c => Citations.is_reference text (reference c))
            (g_citations r).
Proof.
  unfold result_of. cbn -[take].
  split; [reflexivity|]. split; [rewrite length_take; lia|].
  split; [|split; [|split; [|split]]].
  - apply Forall_take_of, Forall_forall. intros l Hl.
    apply list_elem_of_filter in Hl as [Hpos Hl].
    apply (list_elem_of_fmap sanitize_learning) in Hl as (l0 & -> & _).
    apply sanitize_learning_clean, Hpos.
  - apply set_of_spec.
  - apply Forall_forall. intros u Hu. apply (proj1 (proj2 (set_of_spec _) u)) in Hu.
    apply list_elem_of_In, in_concat in Hu as (us & Hus & Hu).
    apply in_map_iff in Hus as (item & <- & _).
    unfold item_urls in Hu. destruct (url item) as [u0|]; [|destruct Hu].
    destruct (truthy u0); [|destruct Hu].
    destruct Hu as [<-|[]]. apply trim_idem.
  - rewrite map_map. reflexivity.
  - apply Forall_forall. intros c Hc.
    apply (list_elem_of_fmap (citation_of text)) in Hc as (ds & -> & Hds).
    apply CitationsTheorems.references_are_references, Hds.
Qed.

(** X18: for an answer that is no JSON or is of the declared type,
    [processGeminiResponse] returns an empty analysis, at most ten
    learnings, each of them non-empty, trimmed and free of bracketed
    spans, every URL once and trimmed, and one citation for each
    [[[n]]] of the text, in order; an answer that is no JSON gives no
    learnings and no URLs. *)
Theorem processGeminiResponse_shape text :
  match processGeminiResponse JSON_parse text with
  | None => JSON_parse text = Other
  | Some r =>
      g_analysis r = EmptyString
      /\ (length (g_learnings r) <= 10)%nat
      /\ Forall clean (g_learnings r)
      /\ NoDup (g_urls r)
      /\ Forall (fun u => trim u = u) (g_urls r)
      /\ map reference (g_citations r)
         = map Citations.bracketed (Feedback.references text)
      /\ Forall (fun c => Citations.is_reference text (reference c))
                (g_citations r)
      /\ (JSON_parse text = NoJson -> g_learnings r = [] /\ g_urls r = [])
  end.
Proof.
  unfold processGeminiResponse.
  destruct (JSON_parse text) as [|items|] eqn:Hp; [| |reflexivity].
  - pose proof (result_of_shape text (Some [])) as H. cbv zeta in H.
    repeat (split; [apply H|]). intros _. split; reflexivity.
  - pose proof (result_of_shape text items) as H. cbv zeta in H.
    repeat (split; [apply H|]). discriminate.
Qed.

(** X19: the filter on [INTERNAL PROCESS:], [OUTLINE:] and [Step n:]
    is applied to [item.learning] only: the strings of an item's
    [learnings] array come back as they are when they are clean and
    at most ten, whatever they say. *)
Theorem processGeminiResponse_learnings_unfiltered text ls :
  JSON_parse text
    = Response (Some [{| learning := None; learnings := Some ls; url := None |}]) ->
  Forall clean ls -> (length ls <= 10)%nat ->
  exists r, processGeminiResponse JSON_parse text = Some r /\ g_learnings r = ls.
Proof.
  intros Hp Hc Hn. unfold processGeminiResponse. rewrite Hp.
  eexists. split; [reflexivity|]. unfold result_of. cbn -[take].
  rewrite app_nil_r.
  assert (Hmap : map sanitize_learning ls = ls).
  { clear Hn Hp. induction Hc as [|l ls Hl _ IH]; [reflexivity|].
    cbn [map]. rewrite (sanitize_learning_fixed _ Hl), IH. reflexivity. }
  rewrite Hmap.
  assert (Hf : filter (fun l : string => (0 < String.length l)%nat) ls = ls).
  { clear Hn Hmap Hp. induction Hc as [|l ls Hl _ IH]; [reflexivity|].
    rewrite filter_cons_True, IH; [reflexivity|].
    destruct Hl as [Hne _]. destruct l; [contradiction|simpl; lia]. }
  rewrite Hf. apply take_ge. exact Hn.
Qed.

End WithParser.

(** An answer whose only item hands over a step of the outline. *)
Lemma processGeminiResponse_learnings_unfiltered_witness :
  exists r,
    processGeminiResponse
      (fun _ => Response (Some [{| learning := None;
                                   learnings := Some ["Step 1: plan"; "OUTLINE: a"];
                                   url := None |}])) "x" = Some r
    /\ g_learnings r = ["Step 1: plan"; "OUTLINE: a"].
Proof.
  apply processGeminiResponse_learnings_unfiltered.
  - reflexivity.
  - repeat constructor; vm_compute; congruence.
  - simpl. lia.
Defined.

End GeminiResponseTheorems.

Module ProvidersTheorems.
Import Js Providers.

Lemma clampNumber_range n lo hi : lo <= hi -> lo <= clampNumber n lo hi <= hi.
Proof. intros H. unfold clampNumber. destruct n; lia. Qed.

Section GenerateBatch.
Context {P W E : Type}.
Variable CONCURRENCY_LIMIT : option string.
Variable generateContentInternal : P -> E + W.

(** X4: whatever [CONCURRENCY_LIMIT] holds, [generateBatch] runs with
    a limit between 1 and 64 (5 when the variable is unset or empty, 1
    when it is not a number), so every batch settles: after any
    settlements there are further ones after which nothing is in
    flight, every prompt has been taken and the promise is settled. *)
Theorem generateBatch_settles (prompts : list P) schedule :
  1 <= concurrency CONCURRENCY_LIMIT <= 64
  /\ (env_or CONCURRENCY_LIMIT "5" = "5" -> concurrency CONCURRENCY_LIMIT = 5)
  /\ (parseInt (env_or CONCURRENCY_LIMIT "5") = None ->
      concurrency CONCURRENCY_LIMIT = 1)
  /\ exists more,
       let st := generateBatch CONCURRENCY_LIMIT generateContentInternal
                   prompts (schedule ++ more) in
       Pool.running st = [] /\ Pool.index st = length prompts
       /\ Pool.outcome st <> Pool.Pending.
Proof.
  assert (Hrange : 1 <= concurrency CONCURRENCY_LIMIT <= 64)
    by (apply clampNumber_range; lia).
  split; [exact Hrange|]. split; [|split].
  - unfold concurrency. intros ->. reflexivity.
  - unfold concurrency. intros ->. reflexivity.
  - unfold generateBatch.
    set (items := map Some prompts).
    set (worker := fun (p : P) (_ : nat) => generateContentInternal p).
    assert (Hdef : Forall (fun x : option P => exists it, x = Some it) items).
    { apply Forall_forall. intros x Hx.
      apply list_elem_of_In, in_map_iff in Hx as (p & <- & _). eauto. }
    destruct (PoolLiveness.rest_from items (concurrency CONCURRENCY_LIMIT) worker
                _ schedule (Nat.le_refl _)) as [more Hrest].
    exists more. cbv zeta.
    pose proof (PoolTheorems.settle_in_order_reachable items
                  (concurrency CONCURRENCY_LIMIT) worker (schedule ++ more))
      as Hreach.
    split; [exact Hrest|]. split.
    + rewrite (PoolFacts.idle_all_taken items (concurrency CONCURRENCY_LIMIT) worker
                 _ (proj1 Hrange) Hreach Hrest).
      apply length_map.
    + apply (PoolLiveness.idle_settled items (concurrency CONCURRENCY_LIMIT) worker);
        [exact (proj1 Hrange)|exact Hdef|exact Hreach|exact Hrest].
Qed.
End GenerateBatch.

Lemma substring_prefix n s : String.prefix (String.substring 0 n s) s = true.
Proof.
  revert n. induction s as [|c r IH]; intros [|n]; simpl; try reflexivity.
  destruct (ascii_dec c c); [apply IH|congruence].
Qed.

Lemma substring_length n s :
  String.length (String.substring 0 n s) = Nat.min n (String.length s).
Proof.
  revert n. induction s as [|c r IH]; intros [|n]; simpl; try reflexivity.
  rewrite IH. reflexivity.
Qed.

Lemma substring_all n s :
  (String.length s <= n)%nat -> String.substring 0 n s = s.
Proof.
  revert n. induction s as [|c r IH]; intros [|n] H; simpl in *;
    try reflexivity; try lia.
  f_equal. apply IH. lia.
Qed.

Lemma slice_from_start s n :
  0 <= n ->
  slice s 0 n = String.substring 0 (Nat.min (Z.to_nat n) (String.length s)) s.
Proof.
  intros Hn. unfold slice, rel_index. change (0 <? 0) with false. cbv iota.
  destruct (n <? 0) eqn:Hneg; [apply Z.ltb_lt in Hneg; lia|].
  rewrite (Z.min_l 0 (Z.of_nat (String.length s))) by lia.
  change (Z.to_nat 0) with 0%nat. f_equal. lia.
Qed.

Section TrimPrompt.
Variable countTokens : string -> option Z.

(** X11: [trimPrompt] fails only when the token count does; what it
    returns is a prefix of the prompt that keeps at least its first
    140 characters.  A prompt within the budget comes back whole; one
    over the budget and longer than 140 characters comes back
    shorter, and one of at most 140 characters comes back whole even
    when it is over the budget. *)
Theorem trimPrompt_prefix prompt maxTokens :
  match trimPrompt countTokens prompt maxTokens with
  | None => countTokens prompt = None /\ prompt <> EmptyString
  | Some r =>
      String.prefix r prompt = true
      /\ (Nat.min 140 (String.length prompt) <= String.length r)%nat
      /\ (forall t, countTokens prompt = Some t -> t <= maxTokens -> r = prompt)
      /\ (forall t, countTokens prompt = Some t -> maxTokens < t ->
          (140 < String.length prompt)%nat ->
          (String.length r < String.length prompt)%nat)
      /\ ((String.length prompt <= 140)%nat -> r = prompt)
  end.
Proof.
  unfold trimPrompt. destruct prompt as [|c p]; [simpl; repeat split; auto; lia|].
  cbn [truthy negb]. set (prompt := String c p).
  destruct (countTokens prompt) as [t|] eqn:Ht; cbn [mbind option_bind];
    [|split; [reflexivity|discriminate]].
  destruct (t <=? maxTokens) eqn:Hle.
  - apply Z.leb_le in Hle. split; [|split; [|split; [|split]]].
    + rewrite <- (substring_all (String.length prompt) prompt) at 1 by lia.
      apply substring_prefix.
    + lia.
    + reflexivity.
    + intros t' [= <-] Hlt. lia.
    + reflexivity.
  - apply Z.leb_gt in Hle.
    set (len := Z.of_nat (String.length prompt)).
    set (cpt := Z.max 2 (len / Z.max 1 t)).
    set (sliceLen := Z.max 140 (len - (t - maxTokens) * cpt)).
    assert (Hcpt : 2 <= cpt) by (unfold cpt; lia).
    assert (Hsl : 140 <= sliceLen) by (unfold sliceLen; lia).
    assert (Hsl2 : 140 < len -> sliceLen < len) by (unfold sliceLen; nia).
    rewrite slice_from_start by lia.
    split; [apply substring_prefix|]. rewrite substring_length.
    split; [lia|]. split; [intros t' [= <-] Hlt; lia|]. split.
    + intros t' _ _ Hlong. unfold len in Hsl2. lia.
    + intros Hshort. apply substring_all. lia.
Qed.
End TrimPrompt.

End ProvidersTheorems.

Module ReportTheorems.
Import Js SerpCache SerpQueries Report.

Lemma lru_get_front {V} k (v : V) c : (lru_get k ((k, v) :: c)).1 = Some v.
Proof.
  unfold lru_get. cbn [list_find]. rewrite decide_True by reflexivity.
  reflexivity.
Qed.

Section WriteFinalReport.
Variable generateOutline : string -> list string -> string.
Variable writeReportFromOutline : string -> list string -> string.
Variable generateSummary : list string -> string.
Variable generateTitle : string -> list string -> string.

(** X21: the report cache tells learnings and URLs apart by the sum of
    their first code units only: after a report for a prompt, a call
    with the same prompt and lists of the same two sums returns that
    report again, asks no helper and writes no file, whatever the new
    lists say. *)
Theorem writeFinalReport_cached prompt learnings visitedUrls learnings' visitedUrls' w :
  learningsHash learnings' = learningsHash learnings ->
  learningsHash visitedUrls' = learningsHash visitedUrls ->
  let write := writeFinalReport generateOutline writeReportFromOutline
                 generateSummary generateTitle in
  let '(first, w1) := write prompt learnings visitedUrls w in
  let '(second, w2) := write prompt learnings' visitedUrls' w1 in
  second = first /\ events w2 = events w1.
Proof.
  intros Hl Hu. cbv zeta.
  assert (Hkey : reportKey prompt learnings' visitedUrls'
                 = reportKey prompt learnings visitedUrls)
    by (unfold reportKey; rewrite Hl, Hu; reflexivity).
  unfold Report.writeFinalReport at 2. rewrite Hkey.
  set (k := reportKey prompt learnings visitedUrls).
  unfold Report.writeFinalReport. fold k.
  destruct (lru_get k (reportCache w)) as [[v|] c] eqn:Hget.
  - unfold lru_get in Hget.
    destruct (list_find _ (reportCache w)) as [[i [k' v']]|]; [|discriminate].
    injection Hget as <- <-. cbn [reportCache events].
    pose proof (lru_get_front k v' (filter (fun e => e.1 <> k) (reportCache w)))
      as Hfront.
    destruct (lru_get k _) as [[v2|] c2]; simpl in Hfront; [|discriminate].
    injection Hfront as ->. split; reflexivity.
  - cbn [reportCache events]. unfold lru_set, reportCache_max.
    cbn [take].
    match goal with |- context [lru_get k ((k, ?r) :: ?rest)] =>
      pose proof (lru_get_front k r rest) as Hfront;
      destruct (lru_get k ((k, r) :: rest)) as [[v2|] c2] end;
      simpl in Hfront; [|discriminate].
    injection Hfront as ->. split; reflexivity.
Qed.

End WriteFinalReport.

(** Two findings that begin with the same letter. *)
Lemma writeFinalReport_cached_witness :
  let write := writeFinalReport (fun _ _ => "o") (fun _ _ => "r")
                 (fun _ => "s") (fun _ _ => "t") in
  let '(first, w1) := write "q" ["alpha"] [] no_reports in
  let '(second, w2) := write "q" ["another finding"] [] w1 in
  second = first /\ events w2 = events w1.
Proof.
  apply (writeFinalReport_cached (fun _ _ => "o") (fun _ _ => "r")
           (fun _ => "s") (fun _ _ => "t") "q" ["alpha"] []
           ["another finding"] [] no_reports); reflexivity.
Defined.

End ReportTheorems.

Module ConductResearchTheorems.
Import Js Research ConductResearch.

Lemma slice_take {A} (xs : list A) n :
  0 <= n -> JsArray.slice xs 0 n = take (Z.to_nat n) xs.
Proof.
  intros Hn. unfold JsArray.slice, rel_index. change (0 <? 0) with false. cbv iota.
  destruct (n <? 0) eqn:Hneg; [apply Z.ltb_lt in Hneg; lia|].
  rewrite (Z.min_l 0 (Z.of_nat (length xs))) by lia.
  change (Z.to_nat 0) with 0%nat. rewrite drop_0.
  destruct (Z.le_ge_cases n (Z.of_nat (length xs))).
  - f_equal. lia.
  - rewrite !take_ge by lia. reflexivity.
Qed.

Section ConductResearch.
Context {E : Type}.
Variable CONCURRENCY_LIMIT : option string.
Variable generateContentInternal : string -> E + string.

Lemma limitedChunks_requested query depth :
  limitedChunks default_splitter query depth = requested query depth.
Proof. unfold limitedChunks, requested. apply slice_take. lia. Qed.

(** X20: [conductResearch] asks the model about the first
    [max(1, depth)] chunks of the query and nothing else.  It rejects
    only with the reason of one of these requests; when it returns,
    every request was answered and the content is the answers joined
    in the order of the chunks, however the requests settled, with one
    citation per [[[n]]] of the answers and no learnings, URLs,
    sources or analysis.  It always settles once enough requests
    have. *)
Theorem conductResearch_shape query depth schedule :
  (length (requested query depth) <= Z.to_nat (Z.max 1 depth))%nat
  /\ (exists more,
        conductResearch CONCURRENCY_LIMIT generateContentInternal query depth
          (schedule ++ more) <> Unsettled)
  /\ match conductResearch CONCURRENCY_LIMIT generateContentInternal query depth
             schedule with
     | Unsettled => True
     | Rejects reason =>
         exists e chunk, reason = Some e /\ chunk ∈ requested query depth
                         /\ generateContentInternal chunk = inl e
     | Returns r =>
         exists answers,
           Forall2 (fun chunk answer => generateContentInternal chunk = inr answer)
                   (requested query depth) answers
           /\ content r = join (Sanitize.nl +:+ Sanitize.nl) answers
           /\ citations r = concat (map citations_of answers)
           /\ learnings r = [] /\ visitedUrls r = [] /\ sources r = []
           /\ analysis r = EmptyString
     end.
Proof.
  split; [unfold requested; rewrite length_take; lia|].
  unfold conductResearch.
  change (SplitterVariants.Semantic_new None None None) with (Some default_splitter).
  cbv iota beta. rewrite limitedChunks_requested.
  set (chunks := requested query depth).
  unfold Providers.generateBatch.
  set (items := map Some chunks).
  set (limit := Providers.concurrency CONCURRENCY_LIMIT).
  set (worker := fun (p : string) (_ : nat) => generateContentInternal p).
  assert (Hlimit : 1 <= limit) by (apply ProvidersTheorems.clampNumber_range; lia).
  assert (Hdef : Forall (fun x : option string => exists it, x = Some it) items).
  { apply Forall_forall. intros x Hx.
    apply list_elem_of_In, in_map_iff in Hx as (p & <- & _). eauto. }
  assert (Hitem : forall j it, items !! j = Some (Some it) -> chunks !! j = Some it).
  { intros j it Hj. unfold items in Hj. rewrite list_lookup_fmap in Hj.
    destruct (chunks !! j); simpl in Hj; congruence. }
  (* what a settled call looks like *)
  assert (Hshape : forall st, Pool.reachable items limit worker st ->
    match Pool.outcome st with
    | Pool.Pending => True
    | Pool.Rejected e =>
        exists chunk, chunk ∈ chunks /\ generateContentInternal chunk = inl e
    | Pool.Resolved batch =>
        exists answers,
          batch = map Some answers
          /\ Forall2 (fun chunk answer => generateContentInternal chunk = inr answer)
                     chunks answers
    end).
  { intros st Hreach.
    destruct (PoolFacts.reachable_inv items limit worker st Hreach) as [Hinv _].
    destruct (Pool.outcome st) as [|batch|e] eqn:Ho; [exact I| |].
    - destruct (Pool.inv_resolved _ _ _ Hinv batch Ho) as (-> & Hidle & Hall).
      pose proof (Pool.inv_length _ _ _ Hinv) as Hlen.
      assert (Hdone : forall j chunk, chunks !! j = Some chunk ->
                exists answer, generateContentInternal chunk = inr answer
                               /\ Pool.results st !! j = Some (Some answer)).
      { intros j chunk Hj.
        assert (Hij : items !! j = Some (Some chunk))
          by (unfold items; rewrite list_lookup_fmap, Hj; reflexivity).
        pose proof (Pool.inv_done _ _ _ Hinv j chunk) as Hd.
        unfold Pool.trace_of in Hd. fold worker in Hd.
        assert (Htr : match worker chunk j with
                      | inr r => Pool.results st !! j = Some (Some r)
                      | inl _ => exists e', Pool.outcome st = Pool.Rejected e'
                      end).
        { apply Hd; [|rewrite Hidle; apply not_elem_of_nil|exact Hij].
          rewrite Hall. apply lookup_lt_Some in Hij. exact Hij. }
        unfold worker in Htr.
        destruct (generateContentInternal chunk) as [e|answer].
        - destruct Htr as [e' He']. congruence.
        - eauto. }
      clear Ho Hidle Hall Hinv Hreach.
      unfold items in Hlen. rewrite length_map in Hlen.
      revert Hlen Hdone. generalize (Pool.results st). generalize chunks.
      clear. intros chunks. induction chunks as [|c cs IH]; intros rs Hlen Hdone.
      + destruct rs; [|discriminate]. exists []. split; [reflexivity|constructor].
      + destruct rs as [|r rs]; [discriminate|].
        destruct (Hdone 0%nat c eq_refl) as (a & Ha & Hr).
        simpl in Hr. injection Hr as ->.
        destruct (IH rs) as (answers & -> & Hall).
        * simpl in Hlen. lia.
        * intros j chunk Hj. apply (Hdone (S j) chunk Hj).
        * exists (a :: answers). split; [reflexivity|]. constructor; assumption.
    - destruct (Pool.inv_rejected _ _ _ Hinv e Ho) as (j & it & Hj & Hw).
      exists it. split; [|exact Hw].
      apply Hitem in Hj. apply (list_elem_of_lookup_2 _ j). exact Hj. }
  split.
  - destruct (PoolLiveness.rest_from items limit worker _ schedule (Nat.le_refl _))
      as [more Hrest].
    exists more.
    pose proof (PoolTheorems.settle_in_order_reachable items limit worker
                  (schedule ++ more)) as Hreach.
    pose proof (PoolLiveness.idle_settled items limit worker _ Hlimit Hdef Hreach
                  Hrest) as Hset.
    destruct (Pool.outcome _) as [|batch|e]; [contradiction| |discriminate].
    destruct (mapM id batch); discriminate.
  - pose proof (Hshape _ (PoolTheorems.settle_in_order_reachable items limit worker
                            schedule)) as Hs.
    destruct (Pool.outcome _) as [|batch|e]; [exact I| |].
    + destruct Hs as (answers & -> & Hall).
      assert (Hm : mapM id (map Some answers) = Some answers).
      { apply mapM_Some. clear. induction answers; constructor; auto. }
      rewrite Hm. exists answers. cbn. repeat split; auto.
    + destruct Hs as (chunk & Hin & Hw). exists e, chunk. auto.
Qed.

End ConductResearch.

End ConductResearchTheorems.
